(** * Thrift transport stack of [GENERATOR/riden.py]: a shallow embedding

    The Python classes of [riden.py] are embedded as state-passing programs:
    every method is a function from the object's state to an outcome and the
    state the call leaves behind, so that what an exception leaves mutated is
    part of the model.  One module per class keeps the source's names; a
    wrapper is written over any inner transport, through the class
    [Transport] of the methods every transport answers.

    The first part is the embedding, with the vocabulary the properties are
    stated in (transports with their calls on record, sources and sinks of
    bytes, frames on the wire, callers); the second part is the
    properties. *)

From Stdlib Require Import ZArith List Lia Bool.
From Stdlib.Strings Require Import Byte.
From Stdlib.Strings Require String.
Import ListNotations.
Open Scope Z_scope.

(** ** Bytes and lengths *)

Definition bytes := list byte.

(** Python's [len], as an integer. *)
Definition len {A : Type} (l : list A) : Z := Z.of_nat (length l).

(** ** Python objects *)

(** The file handles strings of both kinds: bytes objects ([b''], what
    [pack] and the buffers return) and text strings (the empty
    literals of [recv_sasl_msg] and of [TSaslClientTransport.flush]).  They are
    different objects: a buffer's [write] takes bytes only, [str.join] text
    only.  [PyOther] is any object that is neither ([None], a number, ...). *)
Inductive pyobject :=
| PyBytes (b : bytes)
| PyStr (s : String.string)
| PyOther.

(** ** Exceptions and outcomes *)

(** The two messages [TSaslClientTransport.open] formats; the second one
    formats the challenge as [recv_sasl_msg] returned it. *)
Inductive message :=
| ErroneousComplete
| BadStatus (status : Z) (challenge : pyobject).

Inductive exn :=
| EOFError
| ValueError
| TypeError
| struct_error
| TTransportException (type : Z) (msg : message)
| Foreign (tag : Z).

Module TTransportException.
Definition UNKNOWN := 0.
Definition NOT_OPEN := 1.
Definition ALREADY_OPEN := 2.
Definition TIMED_OUT := 3.
Definition END_OF_FILE := 4.
Definition NEGATIVE_SIZE := 5.
Definition SIZE_LIMIT := 6.
End TTransportException.

(** A call returns, raises, or (for the loops of the file that have no
    bound of their own: the handshake and the two refills) has not finished
    within the turns it was given. *)
Inductive outcome (A : Type) :=
| Return (a : A)
| Raise (e : exn)
| Diverge.
Arguments Return {A} a.
Arguments Raise {A} e.

(** [''.join(items)]: the items, text strings all of them, one after the
    other; an item that is not a text string raises [TypeError]. *)
Fixpoint str_join (items : list pyobject) : outcome String.string :=
  match items with
  | [] => Return String.EmptyString
  | PyStr item :: rest =>
      match str_join rest with
      | Return joined => Return (String.append item joined)
      | failure => failure
      end
  | _ :: _ => Raise TypeError
  end.
Arguments Diverge {A}.

(** ** The state-and-exception monad *)

Definition M (S A : Type) := S -> outcome A * S.

Definition ret {S A : Type} (a : A) : M S A := fun s => (Return a, s).
Definition raise {S A : Type} (e : exn) : M S A := fun s => (Raise e, s).
Definition diverge {S A : Type} : M S A := fun s => (Diverge, s).

Definition bind {S A B : Type} (m : M S A) (k : A -> M S B) : M S B :=
  fun s =>
    match m s with
    | (Return a, s') => k a s'
    | (Raise e, s') => (Raise e, s')
    | (Diverge, s') => (Diverge, s')
    end.

(** [try: m except Exception as e: h e]. *)
Definition try_except {S A : Type} (m : M S A) (h : exn -> M S A) : M S A :=
  fun s =>
    match m s with
    | (Raise e, s') => h e s'
    | r => r
    end.

(** A pure computation that may raise, run inside a method. *)
Definition pure {S A : Type} (o : outcome A) : M S A := fun s => (o, s).

Declare Scope monad_scope.
Delimit Scope monad_scope with monad.
Notation "x <- m ;; k" := (bind m (fun x => k))
  (at level 61, m at next level, right associativity) : monad_scope.
Notation "' pat <- m ;; k" := (bind m (fun x => match x with pat => k end))
  (at level 61, pat pattern, m at next level, right associativity) : monad_scope.
Notation "m ;; k" := (bind m (fun _ => k))
  (at level 61, right associativity) : monad_scope.
Open Scope monad_scope.

(** ** [struct.pack] and [struct.unpack] for the formats the file uses *)

Module struct.

Definition byte_of_Z (z : Z) : byte :=
  match Byte.of_N (Z.to_N (Z.land z 255)) with
  | Some b => b
  | None => x00
  end.

Definition Z_of_byte (b : byte) : Z := Z.of_N (Byte.to_N b).

(** Four bytes, most significant first, of [n] modulo [2^32]. *)
Definition be32 (n : Z) : bytes :=
  [byte_of_Z (Z.shiftr n 24); byte_of_Z (Z.shiftr n 16);
   byte_of_Z (Z.shiftr n 8); byte_of_Z n].

Definition of_be32 (b0 b1 b2 b3 : byte) : Z :=
  Z.lor (Z.shiftl (Z_of_byte b0) 24)
    (Z.lor (Z.shiftl (Z_of_byte b1) 16)
       (Z.lor (Z.shiftl (Z_of_byte b2) 8) (Z_of_byte b3))).

(** [pack("!i", n)]: a signed 32-bit field; out of range is [struct.error]. *)
Definition pack_i (n : Z) : outcome bytes :=
  if (-2147483648 <=? n) && (n <=? 2147483647) then Return (be32 n)
  else Raise struct_error.

(** [unpack("!i", b)]: exactly four bytes, read as two's complement. *)
Definition unpack_i (b : bytes) : outcome Z :=
  match b with
  | [b0; b1; b2; b3] =>
      let u := of_be32 b0 b1 b2 b3 in
      Return (if 2147483648 <=? u then u - 4294967296 else u)
  | _ => Raise struct_error
  end.

(** [pack(">BI", status, n)]: an unsigned byte and an unsigned 32-bit field. *)
Definition pack_BI (status n : Z) : outcome bytes :=
  if (0 <=? status) && (status <=? 255) && (0 <=? n) && (n <=? 4294967295)
  then Return (byte_of_Z status :: be32 n)
  else Raise struct_error.

(** [unpack(">BI", b)]: exactly five bytes. *)
Definition unpack_BI (b : bytes) : outcome (Z * Z) :=
  match b with
  | [s; b0; b1; b2; b3] => Return (Z_of_byte s, of_be32 b0 b1 b2 b3)
  | _ => Raise struct_error
  end.

End struct.

(** Run a method of a component object held in a field. *)
Definition zoom {S I A : Type} (get : S -> I) (set : I -> S -> S)
  (m : M I A) : M S A :=
  fun s => let (r, i) := m (get s) in (r, set i s).

Definition gets {S A : Type} (f : S -> A) : M S A := fun s => (Return (f s), s).
Definition modify {S : Type} (f : S -> S) : M S unit := fun s => (Return tt, f s).

(** ** [BufferIO] *)

(** Modelled from the spec: [BufferIO] is imported from [..compat], which is
    not part of the source at hand.  It is the spec's read and write buffer,
    "an ordered, mutable, position-tracked byte sequence", with the
    operations of the interpreter's in-memory byte stream ([io.BytesIO]),
    which it is: the bytes held, the position of the next read or write, and
    whether the stream has been closed (an operation on a closed stream
    raises [ValueError]). *)
Module BufferIO.

Record t := mk { contents : bytes; position : nat; closed : bool }.

(** [BufferIO()] and [BufferIO(initial)]. *)
Definition new (initial : option bytes) : t :=
  mk (match initial with Some b => b | None => [] end) 0 false.

Definition check_closed {A : Type} (m : M t A) : M t A :=
  fun b => if closed b then (Raise ValueError, b) else m b.

(** [read(sz)]: up to [sz] bytes from the position on, all of them when [sz]
    is negative. *)
Definition read (sz : Z) : M t bytes :=
  check_closed (fun b =>
    let rest := skipn (position b) (contents b) in
    let chunk := if sz <? 0 then rest else firstn (Z.to_nat sz) rest in
    (Return chunk, mk (contents b) (position b + length chunk) false)).

(** [write(o)]: overwrite from the position on, padding with zero bytes when
    the position is past the end; an empty write changes nothing. *)
Definition write (o : pyobject) : M t Z :=
  check_closed (fun b =>
    match o with
    | PyStr _ | PyOther => (Raise TypeError, b)
    | PyBytes [] => (Return 0, b)
    | PyBytes data =>
        let padded :=
          contents b ++ repeat x00 (position b - length (contents b)) in
        (Return (len data),
         mk (firstn (position b) padded ++ data
               ++ skipn (position b + length data) (contents b))
            (position b + length data) false)
    end).

Definition getvalue : M t bytes :=
  check_closed (fun b => (Return (contents b), b)).

Definition seek (offset : Z) : M t Z :=
  check_closed (fun b =>
    if offset <? 0 then (Raise ValueError, b)
    else (Return offset, mk (contents b) (Z.to_nat offset) false)).

Definition close : M t unit :=
  fun b => (Return tt, mk (contents b) (position b) true).

End BufferIO.

(** ** [TTransportBase] *)

Module TTransportBase.

(** The methods every transport answers.  [readAll] is not among them: no
    class of the file overrides the one [TTransportBase] defines. *)
Class Transport (T : Type) := {
  isOpen : M T bool;
  open : M T unit;
  close : M T unit;
  read : Z -> M T bytes;
  write : pyobject -> M T unit;
  flush : M T unit
}.

Section ReadAll.
Context {T : Type} `{Transport T}.

(** The [while (have < sz)] loop.  Every turn either adds a byte to [have] or
    raises, so [sz] turns are enough (see [readAll_loop_finishes]). *)
Fixpoint readAll_loop (fuel : nat) (sz have : Z) (buff : bytes) : M T bytes :=
  if have <? sz then
    match fuel with
    | O => diverge
    | S fuel' =>
        chunk <- read (sz - have) ;;
        let chunkLen := len chunk in
        let have := have + chunkLen in
        let buff := buff ++ chunk in
        if chunkLen =? 0 then raise EOFError
        else readAll_loop fuel' sz have buff
    end
  else ret buff.

Definition readAll (sz : Z) : M T bytes :=
  readAll_loop (Z.to_nat sz) sz 0 [].

End ReadAll.

End TTransportBase.

Import TTransportBase.

(** ** [TMemoryBuffer] *)

Module TMemoryBuffer.

Record t := mk { _buffer : BufferIO.t }.

Definition on_buffer {A : Type} : M BufferIO.t A -> M t A :=
  zoom _buffer (fun b _ => mk b).

(** [TMemoryBuffer(value, offset)]. *)
Definition init (value : option bytes) (offset : Z) : outcome t :=
  let self := mk (BufferIO.new value) in
  if offset =? 0 then Return self
  else match on_buffer (BufferIO.seek offset) self with
       | (Return _, self') => Return self'
       | (Raise e, _) => Raise e
       | (Diverge, _) => Diverge
       end.

Definition isOpen : M t bool :=
  gets (fun self => negb (BufferIO.closed (_buffer self))).

Definition open : M t unit := ret tt.

Definition close : M t unit := on_buffer BufferIO.close.

Definition read (sz : Z) : M t bytes := on_buffer (BufferIO.read sz).

Definition write (buf : pyobject) : M t unit :=
  on_buffer (BufferIO.write buf) ;; ret tt.

Definition flush : M t unit := ret tt.

Definition getvalue : M t bytes := on_buffer BufferIO.getvalue.

Definition cstringio_buf : M t BufferIO.t := gets _buffer.

Definition cstringio_refill (partialread : bytes) (reqlen : Z) : M t BufferIO.t :=
  raise EOFError.

#[global] Instance transport : Transport t := {
  TTransportBase.isOpen := isOpen;
  TTransportBase.open := open;
  TTransportBase.close := close;
  TTransportBase.read := read;
  TTransportBase.write := write;
  TTransportBase.flush := flush
}.

End TMemoryBuffer.

(** ** [TBufferedTransport] *)

Module TBufferedTransport.

Definition DEFAULT_BUFFER := 4096.

Section Over.
Context {T : Type} `{Transport T}.

Record t := mk {
  trans : T;
  wbuf : BufferIO.t;
  rbuf : BufferIO.t;
  rbuf_size : Z
}.

Definition on_trans {A : Type} : M T A -> M t A :=
  zoom trans (fun x self => mk x (wbuf self) (rbuf self) (rbuf_size self)).
Definition on_wbuf {A : Type} : M BufferIO.t A -> M t A :=
  zoom wbuf (fun x self => mk (trans self) x (rbuf self) (rbuf_size self)).
Definition on_rbuf {A : Type} : M BufferIO.t A -> M t A :=
  zoom rbuf (fun x self => mk (trans self) (wbuf self) x (rbuf_size self)).
Definition set_wbuf (x : BufferIO.t) : M t unit :=
  modify (fun self => mk (trans self) x (rbuf self) (rbuf_size self)).
Definition set_rbuf (x : BufferIO.t) : M t unit :=
  modify (fun self => mk (trans self) (wbuf self) x (rbuf_size self)).

Definition init (trans : T) (rbuf_size : Z) : t :=
  mk trans (BufferIO.new None) (BufferIO.new (Some [])) rbuf_size.

Definition isOpen : M t bool := on_trans TTransportBase.isOpen.
Definition open : M t unit := on_trans TTransportBase.open.
Definition close : M t unit := on_trans TTransportBase.close.

Definition read (sz : Z) : M t bytes :=
  ret_ <- on_rbuf (BufferIO.read sz) ;;
  if negb (len ret_ =? 0) then ret ret_
  else
    size <- gets rbuf_size ;;
    data <- on_trans (TTransportBase.read (Z.max sz size)) ;;
    set_rbuf (BufferIO.new (Some data)) ;;
    on_rbuf (BufferIO.read sz).

Definition write (buf : pyobject) : M t unit :=
  try_except
    (on_wbuf (BufferIO.write buf) ;; ret tt)
    (fun e => set_wbuf (BufferIO.new None) ;; raise e).

Definition flush : M t unit :=
  out <- on_wbuf BufferIO.getvalue ;;
  set_wbuf (BufferIO.new None) ;;
  on_trans (TTransportBase.write (PyBytes out)) ;;
  on_trans TTransportBase.flush.

Definition cstringio_buf : M t BufferIO.t := gets rbuf.

Definition cstringio_refill (partialread : bytes) (reqlen : Z) : M t BufferIO.t :=
  let retstring := partialread in
  size <- gets rbuf_size ;;
  retstring <-
    (if reqlen <? size then
       more <- on_trans (TTransportBase.read size) ;; ret (retstring ++ more)
     else ret retstring) ;;
  retstring <-
    (if len retstring <? reqlen then
       more <- on_trans (readAll (reqlen - len retstring)) ;;
       ret (retstring ++ more)
     else ret retstring) ;;
  set_rbuf (BufferIO.new (Some retstring)) ;;
  gets rbuf.

#[global] Instance transport : Transport t := {
  TTransportBase.isOpen := isOpen;
  TTransportBase.open := open;
  TTransportBase.close := close;
  TTransportBase.read := read;
  TTransportBase.write := write;
  TTransportBase.flush := flush
}.

End Over.
Arguments t T : clear implicits.

End TBufferedTransport.

(** ** [TFramedTransport] *)

Module TFramedTransport.

Section Over.
Context {T : Type} `{Transport T}.

Record t := mk {
  trans : T;
  rbuf : BufferIO.t;
  wbuf : BufferIO.t
}.

Definition on_trans {A : Type} : M T A -> M t A :=
  zoom trans (fun x self => mk x (rbuf self) (wbuf self)).
Definition on_rbuf {A : Type} : M BufferIO.t A -> M t A :=
  zoom rbuf (fun x self => mk (trans self) x (wbuf self)).
Definition on_wbuf {A : Type} : M BufferIO.t A -> M t A :=
  zoom wbuf (fun x self => mk (trans self) (rbuf self) x).
Definition set_rbuf (x : BufferIO.t) : M t unit :=
  modify (fun self => mk (trans self) x (wbuf self)).
Definition set_wbuf (x : BufferIO.t) : M t unit :=
  modify (fun self => mk (trans self) (rbuf self) x).

Definition init (trans : T) : t :=
  mk trans (BufferIO.new (Some [])) (BufferIO.new None).

Definition isOpen : M t bool := on_trans TTransportBase.isOpen.
Definition open : M t unit := on_trans TTransportBase.open.
Definition close : M t unit := on_trans TTransportBase.close.

Definition readFrame : M t unit :=
  buff <- on_trans (readAll 4) ;;
  sz <- pure (struct.unpack_i buff) ;;
  payload <- on_trans (readAll sz) ;;
  set_rbuf (BufferIO.new (Some payload)).

Definition read (sz : Z) : M t bytes :=
  ret_ <- on_rbuf (BufferIO.read sz) ;;
  if negb (len ret_ =? 0) then ret ret_
  else
    readFrame ;;
    on_rbuf (BufferIO.read sz).

Definition write (buf : pyobject) : M t unit :=
  on_wbuf (BufferIO.write buf) ;; ret tt.

Definition flush : M t unit :=
  wout <- on_wbuf BufferIO.getvalue ;;
  let wsz := len wout in
  set_wbuf (BufferIO.new None) ;;
  header <- pure (struct.pack_i wsz) ;;
  let buf := header ++ wout in
  on_trans (TTransportBase.write (PyBytes buf)) ;;
  on_trans TTransportBase.flush.

Definition cstringio_buf : M t BufferIO.t := gets rbuf.

(** The [while len(prefix) < reqlen] loop has no bound of its own (a peer may
    send empty frames for ever), so it is given a number of turns. *)
Fixpoint cstringio_refill (fuel : nat) (prefix : bytes) (reqlen : Z)
  : M t BufferIO.t :=
  if len prefix <? reqlen then
    match fuel with
    | O => diverge
    | S fuel' =>
        readFrame ;;
        payload <- on_rbuf BufferIO.getvalue ;;
        cstringio_refill fuel' (prefix ++ payload) reqlen
    end
  else
    set_rbuf (BufferIO.new (Some prefix)) ;;
    gets rbuf.

#[global] Instance transport : Transport t := {
  TTransportBase.isOpen := isOpen;
  TTransportBase.open := open;
  TTransportBase.close := close;
  TTransportBase.read := read;
  TTransportBase.write := write;
  TTransportBase.flush := flush
}.

End Over.
Arguments t T : clear implicits.

End TFramedTransport.

(** ** [TFileObjectTransport] *)

(** The wrapped file-like object: whatever answers [close], [read], [write]
    and [flush]. *)
Class FileObject (F : Type) := {
  file_close : M F unit;
  file_read : Z -> M F bytes;
  file_write : pyobject -> M F unit;
  file_flush : M F unit
}.

Module TFileObjectTransport.

Section Over.
Context {F : Type} `{FileObject F}.

Record t := mk { fileobj : F }.

Definition on_fileobj {A : Type} : M F A -> M t A :=
  zoom fileobj (fun x _ => mk x).

Definition init (fileobj : F) : t := mk fileobj.

Definition isOpen : M t bool := ret true.

(** Inherited from [TTransportBase]: [pass]. *)
Definition open : M t unit := ret tt.

Definition close : M t unit := on_fileobj file_close.
Definition read (sz : Z) : M t bytes := on_fileobj (file_read sz).
Definition write (buf : pyobject) : M t unit := on_fileobj (file_write buf).
Definition flush : M t unit := on_fileobj file_flush.

#[global] Instance transport : Transport t := {
  TTransportBase.isOpen := isOpen;
  TTransportBase.open := open;
  TTransportBase.close := close;
  TTransportBase.read := read;
  TTransportBase.write := write;
  TTransportBase.flush := flush
}.

End Over.
Arguments t F : clear implicits.

End TFileObjectTransport.

(** ** [TSaslClientTransport] *)

(** Modelled from the spec: the authentication capability
    ([puresasl.client.SASLClient]) is an external collaborator and not part
    of the source at hand; the transport uses its mechanism name, [process]
    (with or without a challenge), the [complete] flag, [wrap], [unwrap] and
    [dispose].  It is taken as a parameter: any state type with these
    operations, each of which may raise.  [process] is handed the challenge
    as [recv_sasl_msg] returned it: bytes, or the empty text string of a
    message without a body. *)
Class SASLClient (C : Type) := {
  mechanism : C -> bytes;
  process : option pyobject -> M C bytes;
  complete : C -> bool;
  wrap : bytes -> M C bytes;
  unwrap : bytes -> M C bytes;
  dispose : M C unit
}.

Module TSaslClientTransport.

Definition START := 1.
Definition OK := 2.
Definition BAD := 3.
Definition ERROR := 4.
Definition COMPLETE := 5.

Section Over.
Context {T : Type} `{Transport T} {C : Type} `{SASLClient C}.

Record t := mk {
  transport : T;
  sasl : C;
  wbuf : BufferIO.t;
  rbuf : BufferIO.t
}.

Definition on_transport {A : Type} : M T A -> M t A :=
  zoom transport (fun x self => mk x (sasl self) (wbuf self) (rbuf self)).
Definition on_sasl {A : Type} : M C A -> M t A :=
  zoom sasl (fun x self => mk (transport self) x (wbuf self) (rbuf self)).
Definition on_wbuf {A : Type} : M BufferIO.t A -> M t A :=
  zoom wbuf (fun x self => mk (transport self) (sasl self) x (rbuf self)).
Definition on_rbuf {A : Type} : M BufferIO.t A -> M t A :=
  zoom rbuf (fun x self => mk (transport self) (sasl self) (wbuf self) x).
Definition set_wbuf (x : BufferIO.t) : M t unit :=
  modify (fun self => mk (transport self) (sasl self) x (rbuf self)).
Definition set_rbuf (x : BufferIO.t) : M t unit :=
  modify (fun self => mk (transport self) (sasl self) (wbuf self) x).

(** The constructor, once the capability has been built. *)
Definition init (transport : T) (sasl : C) : t :=
  mk transport sasl (BufferIO.new None) (BufferIO.new (Some [])).

Definition send_sasl_msg (status : Z) (body : bytes) : M t unit :=
  header <- pure (struct.pack_BI status (len body)) ;;
  on_transport (TTransportBase.write (PyBytes (header ++ body))) ;;
  on_transport TTransportBase.flush.

(** The payload of a message without a body is the empty text string, not
    the empty bytes object. *)
Definition recv_sasl_msg : M t (Z * pyobject) :=
  header <- on_transport (readAll 5) ;;
  '(status, length) <- pure (struct.unpack_BI header) ;;
  if length >? 0 then
    payload <- on_transport (readAll length) ;;
    ret (status, PyBytes payload)
  else
    ret (status, PyStr String.EmptyString).

(** The [while True] loop of [open], given a number of turns. *)
Fixpoint negotiate (fuel : nat) : M t unit :=
  match fuel with
  | O => diverge
  | S fuel' =>
      '(status, challenge) <- recv_sasl_msg ;;
      if status =? OK then
        response <- on_sasl (process (Some challenge)) ;;
        send_sasl_msg OK response ;;
        negotiate fuel'
      else if status =? COMPLETE then
        done <- gets (fun self => complete (sasl self)) ;;
        if negb done then
          raise (TTransportException TTransportException.NOT_OPEN
                   ErroneousComplete)
        else ret tt
      else
        raise (TTransportException TTransportException.NOT_OPEN
                 (BadStatus status challenge))
  end.

(** The statements of [open] before its loop. *)
Definition greet : M t unit :=
  opened <- on_transport TTransportBase.isOpen ;;
  (if negb opened then on_transport TTransportBase.open else ret tt) ;;
  name <- gets (fun self => mechanism (sasl self)) ;;
  send_sasl_msg START name ;;
  token <- on_sasl (process None) ;;
  send_sasl_msg OK token.

Definition open (fuel : nat) : M t unit :=
  greet ;;
  negotiate fuel.

Definition write (data : pyobject) : M t unit :=
  on_wbuf (BufferIO.write data) ;; ret tt.

(** [''.join((pack("!i", len(encoded)), encoded))] joins with a text
    separator the bytes object [pack] returned and the wrapped bytes: the
    join raises [TypeError], and the statements after it are not reached. *)
Definition flush : M t unit :=
  data <- on_wbuf BufferIO.getvalue ;;
  encoded <- on_sasl (wrap data) ;;
  header <- pure (struct.pack_i (len encoded)) ;;
  joined <- pure (str_join [PyBytes header; PyBytes encoded]) ;;
  on_transport (TTransportBase.write (PyStr joined)) ;;
  on_transport TTransportBase.flush ;;
  set_wbuf (BufferIO.new None).

Definition _read_frame : M t unit :=
  header <- on_transport (readAll 4) ;;
  length <- pure (struct.unpack_i header) ;;
  encoded <- on_transport (readAll length) ;;
  decoded <- on_sasl (unwrap encoded) ;;
  set_rbuf (BufferIO.new (Some decoded)).

Definition read (sz : Z) : M t bytes :=
  ret_ <- on_rbuf (BufferIO.read sz) ;;
  if negb (len ret_ =? 0) then ret ret_
  else
    _read_frame ;;
    on_rbuf (BufferIO.read sz).

Definition close : M t unit :=
  on_sasl dispose ;;
  on_transport TTransportBase.close.

Definition cstringio_buf : M t BufferIO.t := gets rbuf.

Fixpoint cstringio_refill (fuel : nat) (prefix : bytes) (reqlen : Z)
  : M t BufferIO.t :=
  if len prefix <? reqlen then
    match fuel with
    | O => diverge
    | S fuel' =>
        _read_frame ;;
        payload <- on_rbuf BufferIO.getvalue ;;
        cstringio_refill fuel' (prefix ++ payload) reqlen
    end
  else
    set_rbuf (BufferIO.new (Some prefix)) ;;
    gets rbuf.

End Over.
Arguments t T C : clear implicits.

End TSaslClientTransport.

(** ** Observing a transport from outside *)

(** A transport that writes down every call made on it before passing the
    call on: a wrapper built over it has its calls to the inner transport
    on record. *)
Module Spy.

Inductive call :=
| IsOpen
| Open
| Close
| Read (sz : Z)
| Write (buf : pyobject)
| Flush.

Section Over.
Context {T : Type} `{Transport T}.

Record t := mk { calls : list call; inner : T }.

Definition record {A : Type} (c : call) (m : M T A) : M t A :=
  fun s => let (r, x) := m (inner s) in (r, mk (calls s ++ [c]) x).

#[global] Instance transport : Transport t := {
  TTransportBase.isOpen := record IsOpen TTransportBase.isOpen;
  TTransportBase.open := record Open TTransportBase.open;
  TTransportBase.close := record Close TTransportBase.close;
  TTransportBase.read sz := record (Read sz) (TTransportBase.read sz);
  TTransportBase.write buf := record (Write buf) (TTransportBase.write buf);
  TTransportBase.flush := record Flush TTransportBase.flush
}.

End Over.
Arguments t T : clear implicits.

End Spy.

(** The same for the authentication capability. *)
Module SaslSpy.

Inductive call :=
| Process (challenge : option pyobject)
| Wrap (data : bytes)
| Unwrap (data : bytes)
| Dispose.

Section Over.
Context {C : Type} `{SASLClient C}.

Record t := mk { calls : list call; inner : C }.

Definition record {A : Type} (c : call) (m : M C A) : M t A :=
  fun s => let (r, x) := m (inner s) in (r, mk (calls s ++ [c]) x).

#[global] Instance client : SASLClient t := {
  mechanism s := mechanism (inner s);
  process challenge := record (Process challenge) (process challenge);
  complete s := complete (inner s);
  wrap data := record (Wrap data) (wrap data);
  unwrap data := record (Unwrap data) (unwrap data);
  dispose := record Dispose dispose
}.

End Over.
Arguments t C : clear implicits.

End SaslSpy.

(** ** Contracts of an inner transport *)

Section Contracts.
Context {T : Type} `{Transport T}.

(** The reads [readAll sz] makes one after the other, each asking for what is
    still missing: the chunks they return and the state they leave. *)
Inductive successive_reads (sz : Z) : Z -> T -> list bytes -> T -> Prop :=
| reads_done have s : successive_reads sz have s [] s
| reads_more have s chunk s1 chunks s2 :
    read (sz - have) s = (Return chunk, s1) ->
    successive_reads sz (have + len chunk) s1 chunks s2 ->
    successive_reads sz have s (chunk :: chunks) s2.

(** [read(k)] returns at most [k] bytes, in every state [Inv] holds of. *)
Definition read_at_most (Inv : T -> Prop) : Prop :=
  forall s k, Inv s -> 0 < k ->
    exists chunk s', read k s = (Return chunk, s') /\ len chunk <= k /\ Inv s'.

(** A source of bytes: [delivers s w] says that [w] is what is still to be
    read in state [s].  A read of [k > 0] bytes returns a prefix of [w] of at
    most [k] bytes (possibly fewer than asked and than available: a short
    read), empty only when [w] is. *)
Definition byte_source (delivers : T -> bytes -> Prop) : Prop :=
  forall s w k, delivers s w -> 0 < k ->
    exists chunk w' s',
      read k s = (Return chunk, s') /\ len chunk <= k /\
      (w <> [] -> chunk <> []) /\ w = chunk ++ w' /\ delivers s' w'.

(** A sink of bytes: [collected s w] says that [w] is what has been written
    so far in state [s]. *)
Definition byte_sink (collected : T -> bytes -> Prop) : Prop :=
  forall s w, collected s w ->
    (forall b, exists s',
        write (PyBytes b) s = (Return tt, s') /\ collected s' (w ++ b)) /\
    (exists s', flush s = (Return tt, s') /\ collected s' w).

End Contracts.

(** ** Buffers and memory transports seen as sinks and sources *)

(** [accumulated b data]: the open buffer [b] holds [data] and stands at its
    end, as a buffer does that was created empty and only written to. *)
Definition accumulated (b : BufferIO.t) (data : bytes) : Prop :=
  b = BufferIO.mk data (length data) false.

(** What an open buffer still has to give: the bytes from its position on. *)
Definition pending (b : BufferIO.t) : bytes :=
  skipn (BufferIO.position b) (BufferIO.contents b).

Module Memory.

(** An open memory buffer delivers the bytes from its position on. *)
Definition delivers (s : TMemoryBuffer.t) (w : bytes) : Prop :=
  BufferIO.closed (TMemoryBuffer._buffer s) = false /\
  w = pending (TMemoryBuffer._buffer s).

(** A memory buffer that has only been written to has collected what it
    holds. *)
Definition collected (s : TMemoryBuffer.t) (w : bytes) : Prop :=
  accumulated (TMemoryBuffer._buffer s) w.

End Memory.

(** ** Frames on the wire, and the callers of a transport *)

(** A frame as [TFramedTransport.flush] lays it out: the length of the payload
    in four bytes, then the payload. *)
Definition frame (payload : bytes) : bytes :=
  struct.be32 (len payload) ++ payload.

Definition wire (payloads : list bytes) : bytes :=
  concat (map frame payloads).

(** The bytes a stream may end with after its last whole frame: nothing, or
    the beginning of a frame the rest of which never comes. *)
Definition cut_short (partial : bytes) : Prop :=
  exists payload missing,
    len payload <= 2147483647 /\ frame payload = partial ++ missing /\ missing <> [].

Section Callers.
Context {T : Type} `{Transport T}.

(** A caller that makes one [write] call per byte string. *)
Fixpoint write_each (bufs : list bytes) : M T unit :=
  match bufs with
  | [] => ret tt
  | buf :: rest => write (PyBytes buf) ;; write_each rest
  end.

(** A caller that sends each message with [write] followed by [flush]. *)
Fixpoint send_each (msgs : list bytes) : M T unit :=
  match msgs with
  | [] => ret tt
  | msg :: rest => write (PyBytes msg) ;; flush ;; send_each rest
  end.

(** The same caller on the Security-Negotiated Transport. *)
Fixpoint sasl_write_each {C : Type} `{SASLClient C} (bufs : list bytes)
  : M (TSaslClientTransport.t T C) unit :=
  match bufs with
  | [] => ret tt
  | buf :: rest =>
      TSaslClientTransport.write (PyBytes buf) ;; sasl_write_each rest
  end.

(** A caller that reads until the transport is exhausted, that is until
    [read] raises [EOFError]; its [i]-th call asks for [sizes i] bytes.  It
    returns all it has read. *)
Fixpoint read_until_exhausted (fuel : nat) (sizes : nat -> Z) (i : nat)
  (got : bytes) : M T bytes :=
  match fuel with
  | O => diverge
  | S fuel' =>
      fun s =>
        match read (sizes i) s with
        | (Return chunk, s') =>
            read_until_exhausted fuel' sizes (S i) (got ++ chunk) s'
        | (Raise EOFError, s') => (Return got, s')
        | (Raise e, s') => (Raise e, s')
        | (Diverge, s') => (Diverge, s')
        end
  end.

End Callers.

(** The payloads [refill] appends to a buffer of [have] bytes for it to reach
    [reqlen] bytes: each is read because the buffer is still short, and after
    the last it no longer is. *)
Fixpoint frames_needed (have reqlen : Z) (payloads : list bytes) : Prop :=
  match payloads with
  | [] => reqlen <= have
  | payload :: rest =>
      have < reqlen /\ frames_needed (have + len payload) reqlen rest
  end.

(** What [BufferIO.read(sz)] returns of the bytes still to be read. *)
Definition served (sz : Z) (data : bytes) : bytes :=
  if sz <? 0 then data else firstn (Z.to_nat sz) data.

(** The round trip through memory buffers: a Framed Transport over an empty
    memory buffer sends the messages; what that buffer holds afterwards seeds
    the memory buffer of the peer, which is read until exhausted.  An
    exception of the sender is the outcome of the whole. *)
Definition roundtrip (msgs : list bytes) (sizes : nat -> Z) (fuel : nat)
  : outcome bytes :=
  match send_each msgs (TFramedTransport.init (TMemoryBuffer.mk (BufferIO.new None))) with
  | (Return _, sender) =>
      match TMemoryBuffer.getvalue (TFramedTransport.trans sender) with
      | (Return sent, _) =>
          fst (read_until_exhausted fuel sizes 0 []
                 (TFramedTransport.init (TMemoryBuffer.mk (BufferIO.new (Some sent)))))
      | (Raise e, _) => Raise e
      | (Diverge, _) => Diverge
      end
  | (Raise e, _) => Raise e
  | (Diverge, _) => Diverge
  end.

(** The reads a peer needs at most to exhaust the messages: one per byte, one
    more per message (an empty frame takes a read of its own), and the one
    that meets the end. *)
Definition reads_needed (msgs : list bytes) : nat :=
  length (concat msgs) + length msgs + 1.

(** The payloads the capability makes of the frames it un-wraps one after
    the other, and the state that leaves it in. *)
Inductive unwraps {C : Type} `{SASLClient C} : C -> list bytes -> list bytes -> C -> Prop :=
| unwraps_none c : unwraps c [] [] c
| unwraps_next c encoded decoded c1 frames payloads c2 :
    unwrap encoded c = (Return decoded, c1) ->
    unwraps c1 frames payloads c2 ->
    unwraps c (encoded :: frames) (decoded :: payloads) c2.

(** ** Stand-ins on which the theorems are run *)

Module Fixture.

(** A capability that reports completion once it has processed a given
    number of challenges, wraps by putting a marker byte in front and
    un-wraps by dropping the first byte. *)
Record client := mk_client { rounds : nat }.

#[global] Instance client_capability : SASLClient client := {
  mechanism _ := [x50; x4c; x41; x49; x4e];
  process challenge :=
    fun c =>
      (Return (match challenge with Some (PyBytes ch) => ch | _ => [x74] end),
       mk_client (pred (rounds c)));
  complete c := Nat.eqb (rounds c) 0;
  wrap data := ret (x2a :: data);
  unwrap data := ret (tl data);
  dispose := ret tt
}.

(** A two-way connection: the bytes the peer has sent and are still to be
    read, and the bytes written to the peer. *)
Record link := mk_link { incoming : bytes; outgoing : bytes; opened : bool }.

#[global] Instance link_transport : Transport link := {
  isOpen := gets opened;
  open := modify (fun l => mk_link (incoming l) (outgoing l) true);
  close := modify (fun l => mk_link (incoming l) (outgoing l) false);
  read sz :=
    fun l =>
      (Return (firstn (Z.to_nat sz) (incoming l)),
       mk_link (skipn (Z.to_nat sz) (incoming l)) (outgoing l) (opened l));
  write buf :=
    fun l =>
      match buf with
      | PyBytes b => (Return tt, mk_link (incoming l) (outgoing l ++ b) (opened l))
      | PyStr _ | PyOther => (Raise TypeError, l)
      end;
  flush := ret tt
}.

End Fixture.

(** ** The handshake seen from outside *)

Section Handshake.
Context {T : Type} `{Transport T} {C : Type} `{SASLClient C}.
Import TSaslClientTransport.

(** [ok_rounds s n s']: from [s] the loop of [open] goes [n] times through
    its first branch (a message of status [OK] arrives, the capability
    processes its challenge, the response is sent) and is back at its top in
    state [s']. *)
Inductive ok_rounds : t T C -> nat -> t T C -> Prop :=
| ok_rounds_none s : ok_rounds s 0 s
| ok_rounds_more s challenge s1 response s2 s3 n s4 :
    recv_sasl_msg s = (Return (OK, challenge), s1) ->
    on_sasl (process (Some challenge)) s1 = (Return response, s2) ->
    send_sasl_msg OK response s2 = (Return tt, s3) ->
    ok_rounds s3 n s4 ->
    ok_rounds s (S n) s4.

(** The message [open] raises for a status it does not go on with. *)
Definition refusal (status : Z) (challenge : pyobject) : exn :=
  TTransportException TTransportException.NOT_OPEN
    (if status =? COMPLETE then ErroneousComplete else BadStatus status challenge).

End Handshake.

(** A call on the inner transport that belongs to the handshake: anything but
    a [write], or the [write] of a handshake message, a status byte [START]
    or [OK], the length of the body in four bytes, and the body.  (Data is
    handled by [flush] alone, which calls the capability's [wrap] first.) *)
Definition handshake_call (c : Spy.call) : Prop :=
  match c with
  | Spy.Write (PyBytes b) =>
      exists status body header,
        (status = TSaslClientTransport.START \/ status = TSaslClientTransport.OK) /\
        struct.pack_BI status (len body) = Return header /\
        b = header ++ body
  | Spy.Write _ => False
  | _ => True
  end.

Definition process_call (c : SaslSpy.call) : Prop :=
  match c with
  | SaslSpy.Process _ => True
  | _ => False
  end.

(** From [s] to [s'] nothing but handshake traffic: the inner transport has
    had handshake calls only, the capability [process] calls only (no [wrap]),
    and the buffers of the transport are as they were. *)
Definition handshake_only {T : Type} {C : Type}
  (s s' : TSaslClientTransport.t (Spy.t T) (SaslSpy.t C)) : Prop :=
  (exists calls,
      Spy.calls (TSaslClientTransport.transport s')
        = Spy.calls (TSaslClientTransport.transport s) ++ calls /\
      Forall handshake_call calls) /\
  (exists calls,
      SaslSpy.calls (TSaslClientTransport.sasl s')
        = SaslSpy.calls (TSaslClientTransport.sasl s) ++ calls /\
      Forall process_call calls) /\
  TSaslClientTransport.wbuf s' = TSaslClientTransport.wbuf s /\
  TSaslClientTransport.rbuf s' = TSaslClientTransport.rbuf s.

(** A method of the recorded inner transport all of whose calls satisfy
    [P]. *)
Definition calls_all {T : Type} {A : Type} (P : Spy.call -> Prop)
  (m : M (Spy.t T) A) : Prop :=
  forall x r x', m x = (r, x') ->
    exists calls, Spy.calls x' = Spy.calls x ++ calls /\ Forall P calls.

(** A method of the transport that keeps to handshake traffic, whatever its
    outcome. *)
Definition keeps_to_handshake {T : Type} {C : Type} {A : Type}
  (m : M (TSaslClientTransport.t (Spy.t T) (SaslSpy.t C)) A) : Prop :=
  forall s r s', m s = (r, s') -> handshake_only s s'.

(** ** Callers of a transport, call by call *)

Inductive request :=
| DoIsOpen
| DoOpen
| DoClose
| DoRead (sz : Z)
| DoWrite (buf : pyobject)
| DoFlush.

Section Requests.
Context {T : Type} `{Transport T}.

(** The state a call leaves, whether it returned or raised. *)
Definition perform (r : request) (s : T) : T :=
  match r with
  | DoIsOpen => snd (isOpen s)
  | DoOpen => snd (open s)
  | DoClose => snd (close s)
  | DoRead sz => snd (read sz s)
  | DoWrite buf => snd (write buf s)
  | DoFlush => snd (flush s)
  end.

(** The states a caller can bring the transport to. *)
Definition after (requests : list request) (s : T) : T :=
  fold_left (fun s r => perform r s) requests s.

End Requests.

(** An in-memory stream is a file-like object. *)
#[global] Instance BufferIO_file : FileObject BufferIO.t := {
  file_close := BufferIO.close;
  file_read := BufferIO.read;
  file_write buf := BufferIO.write buf ;; ret tt;
  file_flush := BufferIO.check_closed (ret tt)
}.

(** Two runs of the handshake over the stand-ins, state by state. *)
Module Rehearsal.
Import TSaslClientTransport.

(** The peer answers [OK] with the challenge ["c"], then [BAD] with
    ["no"]. *)
Definition refused_server : bytes :=
  [x02; x00; x00; x00; x01; x63] ++ [x03; x00; x00; x00; x02; x6e; x6f].

Definition refused_start : t (Spy.t Fixture.link) (SaslSpy.t Fixture.client) :=
  init (Spy.mk [] (Fixture.mk_link refused_server [] false))
    (SaslSpy.mk [] (Fixture.mk_client 2)).

Definition refused_greeted :=
  Eval vm_compute in snd (greet refused_start).
Definition refused_received :=
  Eval vm_compute in snd (recv_sasl_msg refused_greeted).
Definition refused_processed :=
  Eval vm_compute in snd (on_sasl (process (Some (PyBytes [x63]))) refused_received).
Definition refused_answered :=
  Eval vm_compute in snd (send_sasl_msg OK [x63] refused_processed).
Definition refused_end :=
  Eval vm_compute in snd (recv_sasl_msg refused_answered).

(** The peer answers [OK] with the challenge ["c"], then [COMPLETE]. *)
Definition accepted_server : bytes :=
  [x02; x00; x00; x00; x01; x63] ++ [x05; x00; x00; x00; x00].

Definition accepted_start : t (Spy.t Fixture.link) (SaslSpy.t Fixture.client) :=
  init (Spy.mk [] (Fixture.mk_link accepted_server [] false))
    (SaslSpy.mk [] (Fixture.mk_client 2)).

Definition accepted_opened :=
  Eval vm_compute in snd (open 2 accepted_start).

End Rehearsal.

(** ** The rest of the file: factories *)

Module TTransportFactoryBase.

Definition getTransport {T : Type} (trans : T) : T := trans.

End TTransportFactoryBase.

Module TBufferedTransportFactory.

Definition getTransport {T : Type} (trans : T) : TBufferedTransport.t T :=
  let buffered := TBufferedTransport.init trans TBufferedTransport.DEFAULT_BUFFER in
  buffered.

End TBufferedTransportFactory.

Module TFramedTransportFactory.

Definition getTransport {T : Type} (trans : T) : TFramedTransport.t T :=
  let framed := TFramedTransport.init trans in
  framed.

End TFramedTransportFactory.

(** ** Wrappers seen as streams of bytes *)

Section Streams.
Context {T : Type} `{Transport T}.

(** A stream of bytes: as a source, but nothing is asked of [read] once
    nothing is left (it may raise, as [TFramedTransport.read] does). *)
Definition byte_stream (delivers : T -> bytes -> Prop) : Prop :=
  forall s w k, delivers s w -> 0 < k -> w <> [] ->
    exists chunk w' s',
      read k s = (Return chunk, s') /\ len chunk <= k /\ chunk <> [] /\
      w = chunk ++ w' /\ delivers s' w'.

(** What a Buffered Transport still has to give: what its read buffer holds,
    then what the inner transport delivers. *)
Definition buffered_delivers (inner : T -> bytes -> Prop)
  (s : TBufferedTransport.t T) (w : bytes) : Prop :=
  BufferIO.closed (TBufferedTransport.rbuf s) = false /\
  exists w', inner (TBufferedTransport.trans s) w' /\
             w = pending (TBufferedTransport.rbuf s) ++ w'.

(** What a Framed Transport still has to give when the inner transport
    delivers frames none of which is empty, and whatever after them: what
    its read buffer holds, then the payloads. *)
Definition framed_delivers (inner : T -> bytes -> Prop) (tail : bytes)
  (s : TFramedTransport.t T) (w : bytes) : Prop :=
  BufferIO.closed (TFramedTransport.rbuf s) = false /\
  exists payloads,
    Forall (fun m => m <> [] /\ len m <= 2147483647) payloads /\
    inner (TFramedTransport.trans s) (wire payloads ++ tail) /\
    w = pending (TFramedTransport.rbuf s) ++ concat payloads.

End Streams.

(** Whether a call is [close]. *)
Definition is_close (r : request) : bool :=
  match r with
  | DoClose => true
  | _ => false
  end.

(** A handshake message as [send_sasl_msg] lays it out: the status in one
    byte, the length of the body in four, the body. *)
Definition sasl_msg (status : Z) (body : bytes) : bytes :=
  (struct.byte_of_Z status :: struct.be32 (len body)) ++ body.

(** What [recv_sasl_msg] returns as the payload of a message with the given
    body: the body, or, for a message without one, the empty text string. *)
Definition received_body (body : bytes) : pyobject :=
  match body with
  | [] => PyStr String.EmptyString
  | _ :: _ => PyBytes body
  end.

(** The accepted run of the handshake over the stand-ins, state by state. *)
Module Accepted.
Import TSaslClientTransport.

Definition greeted :=
  Eval vm_compute in snd (greet Rehearsal.accepted_start).
Definition received :=
  Eval vm_compute in snd (recv_sasl_msg greeted).
Definition processed :=
  Eval vm_compute in snd (on_sasl (process (Some (PyBytes [x63]))) received).
Definition answered :=
  Eval vm_compute in snd (send_sasl_msg OK [x63] processed).
Definition completed :=
  Eval vm_compute in snd (recv_sasl_msg answered).

End Accepted.

(** Sizes asked of [read] one call after the other, each positive, the first
    at most [bound], each next one smaller than the one before. *)
Fixpoint shrinking (bound : Z) (ks : list Z) : Prop :=
  match ks with
  | [] => True
  | k :: rest => 0 < k <= bound /\ shrinking (k - 1) rest
  end.

(** * Properties *)

(** ** Lengths *)

Lemma len_nonneg {A : Type} (l : list A) : 0 <= len l.
Proof. unfold len. lia. Qed.

Lemma len_app {A : Type} (l1 l2 : list A) : len (l1 ++ l2) = len l1 + len l2.
Proof. unfold len. rewrite length_app. lia. Qed.

Lemma len_nil {A : Type} : len (@nil A) = 0.
Proof. reflexivity. Qed.

Lemma len_cons {A : Type} (a : A) (l : list A) : len (a :: l) = 1 + len l.
Proof. unfold len. cbn [length]. lia. Qed.

Lemma len_zero_nil {A : Type} (l : list A) : len l = 0 -> l = [].
Proof. destruct l; [reflexivity | rewrite len_cons; pose proof (len_nonneg l); lia]. Qed.

Lemma len_nonempty {A : Type} (l : list A) : l <> [] -> 0 < len l.
Proof.
  intros Hl. pose proof (len_nonneg l).
  destruct (Z.eq_dec (len l) 0) as [E | E]; [apply len_zero_nil in E; contradiction | lia].
Qed.

(** ** Running the monad *)

Lemma bind_return {S A B : Type} (m : M S A) (k : A -> M S B) s a s' :
  m s = (Return a, s') -> bind m k s = k a s'.
Proof. unfold bind. intros ->. reflexivity. Qed.

Lemma bind_raise {S A B : Type} (m : M S A) (k : A -> M S B) s e s' :
  m s = (Raise e, s') -> bind m k s = (Raise e, s').
Proof. unfold bind. intros ->. reflexivity. Qed.

Lemma bind_diverge {S A B : Type} (m : M S A) (k : A -> M S B) s s' :
  m s = (Diverge, s') -> bind m k s = (Diverge, s').
Proof. unfold bind. intros ->. reflexivity. Qed.

Lemma zoom_run {S I A : Type} (get : S -> I) (set : I -> S -> S) (m : M I A) s r i :
  m (get s) = (r, i) -> zoom get set m s = (r, set i s).
Proof. unfold zoom. intros ->. reflexivity. Qed.

(** ** [readAll] *)

Section ReadAllFacts.
Context {T : Type} `{Transport T}.

Lemma readAll_loop_unfold fuel sz have buff :
  readAll_loop fuel sz have buff =
  if have <? sz then
    match fuel with
    | O => diverge
    | S fuel' =>
        chunk <- read (sz - have) ;;
        if len chunk =? 0 then raise EOFError
        else readAll_loop fuel' sz (have + len chunk) (buff ++ chunk)
    end
  else ret buff.
Proof. destruct fuel; reflexivity. Qed.

(** With nothing missing, [readAll] returns without reading. *)
Lemma readAll_loop_enough fuel sz have buff s :
  sz <= have -> readAll_loop fuel sz have buff s = (Return buff, s).
Proof.
  intros Hle. rewrite readAll_loop_unfold.
  destruct (Z.ltb_spec have sz); [lia | reflexivity].
Qed.

Lemma readAll_nonpositive sz s : sz <= 0 -> readAll sz s = (Return [], s).
Proof. intros. apply readAll_loop_enough. assumption. Qed.

(** The steps [readAll] gives its loop are never used up: whatever [read]
    does, the loop returns or raises. *)
Lemma readAll_loop_finishes fuel sz have buff s :
  sz - have <= Z.of_nat fuel ->
  (forall k s0 s1, read k s0 <> (Diverge, s1)) ->
  fst (readAll_loop fuel sz have buff s) <> Diverge.
Proof.
  revert have buff s. induction fuel as [| fuel IH]; intros have buff s Hfuel Hread;
    rewrite readAll_loop_unfold; destruct (Z.ltb_spec have sz) as [Hlt | Hge];
    try (cbn; discriminate); try lia.
  unfold bind. destruct (read (sz - have) s) as [[chunk | e |] s1] eqn:E.
  - destruct (Z.eqb_spec (len chunk) 0) as [E0 | E0]; [cbn; discriminate |].
    apply IH; [| assumption]. pose proof (len_nonneg chunk). lia.
  - cbn; discriminate.
  - exfalso. exact (Hread _ _ _ E).
Qed.

Section AtMost.
Variable Inv : T -> Prop.
Hypothesis read_contract : read_at_most Inv.

Lemma readAll_loop_spec fuel : forall sz have buff s,
  Inv s -> have <= sz -> sz - have <= Z.of_nat fuel ->
  (exists chunks s',
      readAll_loop fuel sz have buff s = (Return (buff ++ concat chunks), s') /\
      have + len (concat chunks) = sz /\
      successive_reads sz have s chunks s' /\
      Forall (fun c => c <> []) chunks) \/
  (exists chunks s0 s',
      readAll_loop fuel sz have buff s = (Raise EOFError, s') /\
      successive_reads sz have s chunks s0 /\
      Forall (fun c => c <> []) chunks /\
      have + len (concat chunks) < sz /\
      read (sz - (have + len (concat chunks))) s0 = (Return [], s')).
Proof.
  induction fuel as [| fuel IH]; intros sz have buff s HI Hle Hfuel;
    rewrite readAll_loop_unfold; destruct (Z.ltb_spec have sz) as [Hlt | Hge];
    try lia.
  - left. exists [], s. cbn [concat]. rewrite app_nil_r, len_nil.
    repeat split; [lia | constructor | constructor].
  - destruct (read_contract s (sz - have) HI ltac:(lia)) as (chunk & s1 & Hr & Hk & HI1).
    rewrite (bind_return _ _ _ _ _ Hr).
    destruct (Z.eqb_spec (len chunk) 0) as [E0 | E0].
    + right. exists [], s, s1. cbn [concat]. rewrite len_nil, Z.add_0_r.
      apply len_zero_nil in E0. subst chunk.
      repeat split; [constructor | constructor | lia | exact Hr].
    + pose proof (len_nonneg chunk) as Hn.
      assert (Hne : chunk <> []) by (intros ->; apply E0; reflexivity).
      destruct (IH sz (have + len chunk) (buff ++ chunk) s1 HI1 ltac:(lia) ltac:(lia))
        as [(chunks & s' & Hrun & Hsum & Hreads & Hall)
           | (chunks & s0 & s' & Hrun & Hreads & Hall & Hsum & Hlast)].
      * left. exists (chunk :: chunks), s'. cbn [concat].
        rewrite Hrun, <- app_assoc, len_app.
        repeat split; [lia | econstructor; eassumption | constructor; assumption].
      * right. exists (chunk :: chunks), s0, s'. cbn [concat].
        rewrite Hrun, len_app.
        repeat split; [econstructor; eassumption | constructor; assumption | lia |].
        rewrite <- Hlast. f_equal. lia.
  - left. exists [], s. cbn [concat]. rewrite app_nil_r, len_nil.
    repeat split; [lia | constructor | constructor].
Qed.

End AtMost.
End ReadAllFacts.

(** C2.  [readAll], on any transport whose [read(k)] returns at most [k]
    bytes, asked for [sz >= 0] bytes: either it returns exactly [sz] bytes,
    the concatenation in order of the chunks its successive reads returned,
    none of which was empty; or it raises [EOFError] at the first read that
    returns no bytes, fewer than [sz] bytes having been accumulated by the
    earlier reads, none of which was empty.  There is no third outcome: it
    never returns fewer than [sz] bytes, and it never reads again after a
    read that returned no bytes. *)
Theorem readAll_exact_or_EOFError
  {T : Type} `{Transport T} (Inv : T -> Prop) (sz : Z) (s : T) :
  read_at_most Inv -> Inv s -> 0 <= sz ->
  (exists chunks s',
      readAll sz s = (Return (concat chunks), s') /\
      len (concat chunks) = sz /\
      successive_reads sz 0 s chunks s' /\
      Forall (fun c => c <> []) chunks) \/
  (exists chunks s0 s',
      readAll sz s = (Raise EOFError, s') /\
      successive_reads sz 0 s chunks s0 /\
      Forall (fun c => c <> []) chunks /\
      len (concat chunks) < sz /\
      read (sz - len (concat chunks)) s0 = (Return [], s')).
Proof.
  intros Hc HI Hsz. unfold readAll.
  destruct (readAll_loop_spec Inv Hc (Z.to_nat sz) sz 0 [] s HI Hsz ltac:(lia))
    as [(chunks & s' & Hrun & Hsum & Hreads & Hall)
       | (chunks & s0 & s' & Hrun & Hreads & Hall & Hsum & Hlast)].
  - left. exists chunks, s'. cbn [app] in Hrun.
    split; [exact Hrun |]. split; [lia |]. split; [exact Hreads | exact Hall].
  - right. exists chunks, s0, s'. rewrite Z.add_0_l in Hsum, Hlast.
    repeat split; assumption.
Qed.

(** ** [readAll] on a source of bytes *)

Lemma app_split_prefix {A : Type} (c w' a b : list A) :
  c ++ w' = a ++ b -> len c <= len a ->
  exists a', a = c ++ a' /\ w' = a' ++ b.
Proof.
  intros E Hlen. apply app_eq_app in E. destruct E as (l & [[Ec Eb] | [Ea Ew]]).
  - subst c. rewrite len_app in Hlen. pose proof (len_nonneg l).
    assert (l = []) by (apply len_zero_nil; lia). subst l.
    exists []. rewrite !app_nil_r. cbn [app] in Eb |- *. split; [reflexivity | congruence].
  - exists l. split; assumption.
Qed.

Section SourceFacts.
Context {T : Type} `{Transport T}.
Variable delivers : T -> bytes -> Prop.
Hypothesis source : byte_source delivers.

Lemma readAll_loop_source fuel : forall sz have buff s w,
  delivers s w -> sz - have <= Z.of_nat fuel ->
  (forall a b, w = a ++ b -> len a = sz - have ->
     exists s', readAll_loop fuel sz have buff s = (Return (buff ++ a), s') /\
                delivers s' b) /\
  (len w < sz - have ->
     exists s', readAll_loop fuel sz have buff s = (Raise EOFError, s')).
Proof.
  induction fuel as [| fuel IH]; intros sz have buff s w Hd Hfuel;
    rewrite readAll_loop_unfold; destruct (Z.ltb_spec have sz) as [Hlt | Hge].
  - lia.
  - split.
    + intros a b -> Ha. pose proof (len_nonneg a).
      assert (a = []) by (apply len_zero_nil; lia). subst a.
      exists s. rewrite app_nil_r. split; [reflexivity | exact Hd].
    + intros Hw. pose proof (len_nonneg w). lia.
  - destruct (source s w (sz - have) Hd ltac:(lia))
      as (chunk & w' & s1 & Hr & Hk & Hne & Hw & Hd1).
    rewrite (bind_return _ _ _ _ _ Hr). pose proof (len_nonneg chunk) as Hn.
    split.
    + intros a b Hab Ha.
      assert (Hc : chunk <> []).
      { apply Hne. intros ->. symmetry in Hab. apply app_eq_nil in Hab.
        destruct Hab as [-> _]. rewrite len_nil in Ha. lia. }
      apply len_nonempty in Hc.
      destruct (Z.eqb_spec (len chunk) 0) as [E0 | E0]; [lia |].
      rewrite Hw in Hab.
      destruct (app_split_prefix _ _ _ _ Hab ltac:(lia)) as (a' & -> & ->).
      rewrite len_app in Ha.
      destruct (IH sz (have + len chunk) (buff ++ chunk) s1 (a' ++ b) Hd1 ltac:(lia))
        as [Hgood _].
      destruct (Hgood a' b eq_refl ltac:(lia)) as (s' & Hrun & Hd').
      exists s'. rewrite Hrun, <- app_assoc. split; [reflexivity | exact Hd'].
    + intros Hshort.
      destruct (Z.eqb_spec (len chunk) 0) as [E0 | E0]; [exists s1; reflexivity |].
      subst w. rewrite len_app in Hshort.
      destruct (IH sz (have + len chunk) (buff ++ chunk) s1 w' Hd1 ltac:(lia))
        as [_ Hbad].
      apply Hbad. lia.
  - split.
    + intros a b -> Ha. pose proof (len_nonneg a).
      assert (a = []) by (apply len_zero_nil; lia). subst a.
      exists s. rewrite app_nil_r. split; [reflexivity | exact Hd].
    + intros Hw. pose proof (len_nonneg w). lia.
Qed.

(** [readAll] takes exactly the next [sz] bytes of a source, however its
    reads are cut. *)
Lemma readAll_source sz s a b :
  delivers s (a ++ b) -> len a = sz ->
  exists s', readAll sz s = (Return a, s') /\ delivers s' b.
Proof.
  intros Hd Ha. unfold readAll. pose proof (len_nonneg a).
  destruct (readAll_loop_source (Z.to_nat sz) sz 0 [] s (a ++ b) Hd ltac:(lia))
    as [Hgood _].
  destruct (Hgood a b eq_refl ltac:(lia)) as (s' & Hrun & Hd').
  exists s'. split; assumption.
Qed.

(** It raises [EOFError] when the source holds fewer. *)
Lemma readAll_source_short sz s w :
  delivers s w -> len w < sz ->
  exists s', readAll sz s = (Raise EOFError, s').
Proof.
  intros Hd Hw. unfold readAll. pose proof (len_nonneg w).
  destruct (readAll_loop_source (Z.to_nat sz) sz 0 [] s w Hd ltac:(lia))
    as [_ Hbad].
  apply Hbad. lia.
Qed.

End SourceFacts.

(** ** [BufferIO] and [TMemoryBuffer] *)

Lemma firstn_nonempty {A : Type} (n : nat) (l : list A) :
  (0 < n)%nat -> l <> [] -> firstn n l <> [].
Proof. destruct n; [lia |]. destruct l; [contradiction | discriminate]. Qed.

Lemma len_firstn {A : Type} (k : Z) (l : list A) :
  0 <= k -> len (firstn (Z.to_nat k) l) <= k.
Proof. intros. unfold len. rewrite length_firstn. lia. Qed.

(** ** A buffer that is only written to *)

Lemma accumulated_new : accumulated (BufferIO.new None) [].
Proof. reflexivity. Qed.

Lemma BufferIO_write_appends b data x :
  accumulated b data ->
  exists b', BufferIO.write (PyBytes x) b = (Return (len x), b') /\
             accumulated b' (data ++ x).
Proof.
  intros ->. destruct x as [| y x].
  - eexists. split; [reflexivity |]. rewrite app_nil_r. reflexivity.
  - eexists. split; [reflexivity |]. unfold accumulated.
    cbn [BufferIO.contents BufferIO.position]. f_equal.
    + rewrite Nat.sub_diag. cbn [repeat]. rewrite app_nil_r, firstn_all.
      rewrite skipn_all2 by lia. rewrite app_nil_r. reflexivity.
    + rewrite length_app. reflexivity.
Qed.

Lemma BufferIO_getvalue_accumulated b data :
  accumulated b data -> BufferIO.getvalue b = (Return data, b).
Proof. intros ->. reflexivity. Qed.

(** A write of something that is not bytes raises and changes nothing. *)
Lemma BufferIO_write_other b :
  BufferIO.closed b = false -> BufferIO.write PyOther b = (Raise TypeError, b).
Proof. unfold BufferIO.write, BufferIO.check_closed. intros ->. reflexivity. Qed.

Module MemoryFacts.

Lemma is_source : byte_source Memory.delivers.
Proof.
  intros [[c p cl]] w k [Hcl Hw] Hk. unfold pending in Hw. cbn in Hcl, Hw. subst cl.
  exists (firstn (Z.to_nat k) w), (skipn (Z.to_nat k) w).
  eexists. split.
  - cbn. unfold TMemoryBuffer.read, TMemoryBuffer.on_buffer, zoom, BufferIO.read,
      BufferIO.check_closed. cbn.
    destruct (Z.ltb_spec k 0); [lia |]. rewrite <- Hw. reflexivity.
  - split; [apply len_firstn; lia |]. split; [apply firstn_nonempty; lia |].
    split; [symmetry; apply firstn_skipn |].
    split; cbn; [reflexivity |]. unfold pending. cbn.
    rewrite Hw, skipn_skipn, length_firstn, length_skipn.
    destruct (Nat.le_gt_cases (Z.to_nat k) (length c - p)) as [Hin | Hout].
    + f_equal. lia.
    + rewrite !skipn_all2 by lia. reflexivity.
Qed.

Lemma is_sink : byte_sink Memory.collected.
Proof.
  intros [b] w Hacc. unfold Memory.collected in *. cbn in Hacc. split.
  - intros x. destruct (BufferIO_write_appends b w x Hacc) as (b' & Hw & Hacc').
    exists (TMemoryBuffer.mk b'). split; [| exact Hacc'].
    cbn. unfold TMemoryBuffer.write, TMemoryBuffer.on_buffer.
    rewrite (bind_return _ _ _ _ _
               (zoom_run TMemoryBuffer._buffer _ _ (TMemoryBuffer.mk b) _ _ Hw)).
    reflexivity.
  - exists (TMemoryBuffer.mk b). split; [reflexivity | exact Hacc].
Qed.

Lemma delivers_init value :
  Memory.delivers (TMemoryBuffer.mk (BufferIO.new (Some value))) value.
Proof. split; reflexivity. Qed.

Lemma collected_init : Memory.collected (TMemoryBuffer.mk (BufferIO.new None)) [].
Proof. repeat split. Qed.

End MemoryFacts.

Lemma source_read_at_most {T : Type} `{Transport T} (delivers : T -> bytes -> Prop) :
  byte_source delivers -> read_at_most (fun s => exists w, delivers s w).
Proof.
  intros Hs s k [w Hd] Hk.
  destruct (Hs s w k Hd Hk) as (chunk & w' & s' & Hr & Hlen & _ & _ & Hd').
  exists chunk, s'. repeat split; [assumption | assumption | exists w'; assumption].
Qed.

Lemma readAll_exact_or_EOFError_witness :
  let s := TMemoryBuffer.mk (BufferIO.new (Some [x68; x65; x6c; x6c; x6f])) in
  (exists chunks s',
      readAll 3 s = (Return (concat chunks), s') /\
      len (concat chunks) = 3 /\
      successive_reads 3 0 s chunks s' /\
      Forall (fun c => c <> []) chunks) \/
  (exists chunks s0 s',
      readAll 3 s = (Raise EOFError, s') /\
      successive_reads 3 0 s chunks s0 /\
      Forall (fun c => c <> []) chunks /\
      len (concat chunks) < 3 /\
      read (3 - len (concat chunks)) s0 = (Return [], s')).
Proof.
  intros s.
  apply (readAll_exact_or_EOFError (fun s => exists w, Memory.delivers s w) 3 s).
  - exact (source_read_at_most _ MemoryFacts.is_source).
  - eexists. apply MemoryFacts.delivers_init.
  - lia.
Defined.

(** ** The 32-bit length field *)

Module StructFacts.
Import struct.

Lemma Z_of_byte_of_Z z : Z_of_byte (byte_of_Z z) = Z.land z 255.
Proof.
  unfold Z_of_byte, byte_of_Z.
  assert (Hb : 0 <= Z.land z 255 < 256).
  { change 255 with (Z.ones 8). rewrite Z.land_ones by lia.
    apply Z.mod_pos_bound. reflexivity. }
  destruct (Byte.of_N (Z.to_N (Z.land z 255))) as [b |] eqn:E.
  - apply Byte.to_of_N in E. rewrite E. lia.
  - apply Byte.of_N_None_iff in E. lia.
Qed.

Lemma testbit_255 i : 0 <= i -> Z.testbit 255 i = (i <? 8).
Proof.
  intros Hi. change 255 with (Z.ones 8). rewrite Z.testbit_ones by lia.
  destruct (Z.leb_spec 0 i); [reflexivity | lia].
Qed.

Lemma of_be32_be32 n :
  match be32 n with
  | [b0; b1; b2; b3] => of_be32 b0 b1 b2 b3 = n mod 4294967296
  | _ => False
  end.
Proof.
  unfold be32, of_be32. rewrite !Z_of_byte_of_Z.
  apply Z.bits_inj'. intros i Hi.
  change 4294967296 with (2 ^ 32). rewrite Z.testbit_mod_pow2 by lia.
  rewrite !Z.lor_spec, !Z.shiftl_spec, !Z.land_spec by lia.
  destruct (Z.ltb_spec i 32) as [H32 | H32].
  - destruct (Z.ltb_spec i 8) as [H8 | H8].
    { rewrite !(Z.testbit_neg_r _ (i - _)) by lia.
      rewrite testbit_255 by lia. destruct (Z.ltb_spec i 8); [| lia].
      cbn [orb]. apply andb_true_r. }
    destruct (Z.ltb_spec i 16) as [H16 | H16].
    { rewrite !(Z.testbit_neg_r _ (i - 24)), !(Z.testbit_neg_r _ (i - 16)) by lia.
      rewrite !Z.shiftr_spec, !testbit_255 by lia.
      destruct (Z.ltb_spec (i - 8) 8); [| lia]. destruct (Z.ltb_spec i 8); [lia |].
      replace (i - 8 + 8) with i by lia.
      cbn [orb andb]. rewrite andb_true_r, andb_false_r, orb_false_r. reflexivity. }
    destruct (Z.ltb_spec i 24) as [H24 | H24].
    { rewrite !(Z.testbit_neg_r _ (i - 24)) by lia.
      rewrite !Z.shiftr_spec, !testbit_255 by lia.
      destruct (Z.ltb_spec (i - 16) 8); [| lia]. destruct (Z.ltb_spec (i - 8) 8); [lia |].
      destruct (Z.ltb_spec i 8); [lia |].
      replace (i - 16 + 16) with i by lia.
      cbn [orb andb]. rewrite andb_true_r, !andb_false_r, !orb_false_r. reflexivity. }
    rewrite !Z.shiftr_spec, !testbit_255 by lia.
    destruct (Z.ltb_spec (i - 24) 8); [| lia]. destruct (Z.ltb_spec (i - 16) 8); [lia |].
    destruct (Z.ltb_spec (i - 8) 8); [lia |]. destruct (Z.ltb_spec i 8); [lia |].
    replace (i - 24 + 24) with i by lia.
    rewrite andb_true_r, !andb_false_r, !orb_false_r. reflexivity.
  - rewrite !Z.shiftr_spec, !testbit_255 by lia.
    destruct (Z.ltb_spec (i - 24) 8); [lia |]. destruct (Z.ltb_spec (i - 16) 8); [lia |].
    destruct (Z.ltb_spec (i - 8) 8); [lia |]. destruct (Z.ltb_spec i 8); [lia |].
    rewrite !andb_false_r. reflexivity.
Qed.

(** What [pack("!i", n)] writes, [unpack("!i", _)] reads back. *)
Lemma unpack_pack_i n b :
  pack_i n = Return b -> unpack_i b = Return n /\ len b = 4.
Proof.
  unfold pack_i.
  destruct (Z.leb_spec (-2147483648) n) as [Hlo | Hlo]; [| discriminate].
  destruct (Z.leb_spec n 2147483647) as [Hhi | Hhi]; [| discriminate].
  cbn [andb]. intros [= <-]. split; [| reflexivity].
  pose proof (of_be32_be32 n) as E. unfold be32 in *. unfold unpack_i.
  rewrite E. f_equal.
  pose proof (Z.mod_pos_bound n 4294967296 ltac:(lia)) as Hm.
  pose proof (Z.div_mod n 4294967296 ltac:(lia)) as Hd.
  destruct (Z.leb_spec 2147483648 (n mod 4294967296)); lia.
Qed.

Lemma pack_i_len (data : bytes) :
  len data <= 2147483647 -> pack_i (len data) = Return (be32 (len data)).
Proof.
  intros Hle. unfold pack_i. pose proof (len_nonneg data).
  destruct (Z.leb_spec (-2147483648) (len data)); [| lia].
  destruct (Z.leb_spec (len data) 2147483647); [reflexivity | lia].
Qed.

Lemma pack_i_too_long (data : bytes) :
  2147483647 < len data -> pack_i (len data) = Raise struct_error.
Proof.
  intros Hgt. unfold pack_i.
  destruct (Z.leb_spec (len data) 2147483647); [lia |].
  rewrite andb_false_r. reflexivity.
Qed.

End StructFacts.

(** ** [TBufferedTransport]: the write side *)

Section BufferedFacts.
Context {T : Type} `{Transport T}.
Import TBufferedTransport.

Lemma buffered_write_bytes (s : t T) data x :
  accumulated (wbuf s) data ->
  exists b', write (PyBytes x) s = (Return tt, mk (trans s) b' (rbuf s) (rbuf_size s)) /\
             accumulated b' (data ++ x).
Proof.
  intros Hacc. destruct (BufferIO_write_appends _ _ x Hacc) as (b' & Hw & Hacc').
  exists b'. split; [| exact Hacc'].
  unfold write, try_except, on_wbuf.
  rewrite (bind_return _ _ _ _ _ (zoom_run wbuf _ _ s _ _ Hw)). reflexivity.
Qed.

(** A [write] that fails leaves the write buffer empty and raises again what
    the buffer raised. *)
Lemma buffered_write_failure (s : t T) buf e s' :
  write buf s = (Raise e, s') ->
  s' = mk (trans s) (BufferIO.new None) (rbuf s) (rbuf_size s).
Proof.
  unfold write, try_except, on_wbuf, bind, zoom.
  destruct (BufferIO.write buf (wbuf s)) as [[n | e' |] b']; cbn.
  - discriminate.
  - intros [= _ <-]. reflexivity.
  - discriminate.
Qed.

(** The calls of [write_each] only fill the write buffer. *)
Lemma buffered_write_each (bufs : list bytes) : forall (s : t T) data,
  accumulated (wbuf s) data ->
  exists b', write_each bufs s = (Return tt, mk (trans s) b' (rbuf s) (rbuf_size s)) /\
             accumulated b' (data ++ concat bufs).
Proof.
  induction bufs as [| x bufs IH]; intros s data Hacc.
  - exists (wbuf s). cbn [concat write_each]. rewrite app_nil_r.
    destruct s; split; [reflexivity | exact Hacc].
  - destruct (buffered_write_bytes s data x Hacc) as (b1 & Hw & Hacc1).
    cbn [write_each]. change (TTransportBase.write (PyBytes x)) with (write (T:=T) (PyBytes x)).
    rewrite (bind_return _ _ _ _ _ Hw).
    destruct (IH (mk (trans s) b1 (rbuf s) (rbuf_size s)) (data ++ x) Hacc1)
      as (b' & Hrun & Hacc').
    exists b'. cbn [concat]. rewrite app_assoc. split; assumption.
Qed.

(** [flush], step by step: the buffer is emptied first, then its bytes go to
    the inner transport in one [write], then the inner [flush] runs. *)
Lemma buffered_flush_run (s : t T) data :
  accumulated (wbuf s) data ->
  flush s =
  match TTransportBase.write (PyBytes data) (trans s) with
  | (Return _, x1) =>
      let (r, x2) := TTransportBase.flush x1 in
      (r, mk x2 (BufferIO.new None) (rbuf s) (rbuf_size s))
  | (Raise e, x1) => (Raise e, mk x1 (BufferIO.new None) (rbuf s) (rbuf_size s))
  | (Diverge, x1) => (Diverge, mk x1 (BufferIO.new None) (rbuf s) (rbuf_size s))
  end.
Proof.
  intros Hacc. unfold flush, on_wbuf.
  rewrite (bind_return _ _ _ _ _
             (zoom_run wbuf _ _ s _ _ (BufferIO_getvalue_accumulated _ _ Hacc))).
  destruct s as [x wb rb size]. unfold bind, set_wbuf, modify, on_trans, zoom. cbn.
  destruct (TTransportBase.write (PyBytes data) x) as [[[] | e |] x1]; try reflexivity.
Qed.

End BufferedFacts.

(** C3.  A Buffered Transport with an empty write buffer, over an inner
    transport whose calls are on record: the [write] calls of the caller
    reach the inner transport with no call at all, the inner transport is
    as it was; and [flush] then makes exactly two calls on it, in this
    order: one [write] of the concatenation of the byte strings written, and
    one [flush]. *)
Theorem buffered_flush_writes_once
  {T : Type} `{Transport T} (s0 : TBufferedTransport.t (Spy.t T))
  (bufs : list bytes) (x1 : T) :
  TBufferedTransport.wbuf s0 = BufferIO.new None ->
  write (PyBytes (concat bufs)) (Spy.inner (TBufferedTransport.trans s0))
    = (Return tt, x1) ->
  exists s1 r s2,
    write_each bufs s0 = (Return tt, s1) /\
    TBufferedTransport.trans s1 = TBufferedTransport.trans s0 /\
    TBufferedTransport.flush s1 = (r, s2) /\
    Spy.calls (TBufferedTransport.trans s2) =
      Spy.calls (TBufferedTransport.trans s0)
        ++ [Spy.Write (PyBytes (concat bufs)); Spy.Flush] /\
    TBufferedTransport.wbuf s2 = BufferIO.new None.
Proof.
  intros Hw0 Hinner.
  destruct (buffered_write_each bufs s0 [] ltac:(rewrite Hw0; apply accumulated_new))
    as (b' & Hrun & Hacc).
  cbn [app] in Hacc.
  set (s1 := TBufferedTransport.mk (TBufferedTransport.trans s0) b'
               (TBufferedTransport.rbuf s0) (TBufferedTransport.rbuf_size s0)) in *.
  pose proof (buffered_flush_run s1 (concat bufs) Hacc) as Hf.
  destruct (TBufferedTransport.trans s0) as [log x] eqn:Etr.
  cbn in Hinner. cbn in Hf. unfold Spy.record in Hf. cbn in Hf.
  rewrite Hinner in Hf. cbn in Hf.
  destruct (flush x1) as [r x2] eqn:Eflush.
  eexists s1, r, _. split; [exact Hrun |]. split; [reflexivity |].
  split; [exact Hf |]. cbn. split; [| reflexivity].
  rewrite <- app_assoc. reflexivity.
Qed.

Lemma buffered_flush_writes_once_witness :
  let s0 := TBufferedTransport.init
              (Spy.mk [] (TMemoryBuffer.mk (BufferIO.new None))) 4096 in
  let bufs := [[x70; x69]; [x6e; x67]] in
  exists s1 r s2,
    write_each bufs s0 = (Return tt, s1) /\
    TBufferedTransport.trans s1 = TBufferedTransport.trans s0 /\
    TBufferedTransport.flush s1 = (r, s2) /\
    Spy.calls (TBufferedTransport.trans s2) =
      Spy.calls (TBufferedTransport.trans s0)
        ++ [Spy.Write (PyBytes (concat bufs)); Spy.Flush] /\
    TBufferedTransport.wbuf s2 = BufferIO.new None.
Proof.
  intros s0 bufs.
  apply (buffered_flush_writes_once s0 bufs
           (TMemoryBuffer.mk (BufferIO.mk [x70; x69; x6e; x67] 4 false)));
    reflexivity.
Defined.

(** ** Reading from a buffer *)

Lemma BufferIO_read_open b sz :
  BufferIO.closed b = false ->
  exists b',
    BufferIO.read sz b = (Return (served sz (pending b)), b') /\
    BufferIO.closed b' = false /\
    pending b' = skipn (length (served sz (pending b))) (pending b).
Proof.
  intros Hopen. unfold BufferIO.read, BufferIO.check_closed. rewrite Hopen.
  eexists. split; [reflexivity |]. split; [reflexivity |].
  unfold pending. cbn [BufferIO.contents BufferIO.position].
  rewrite skipn_skipn. f_equal. apply Nat.add_comm.
Qed.

Lemma served_nil sz : served sz [] = [].
Proof. unfold served. destruct (sz <? 0); [reflexivity | apply firstn_nil]. Qed.

Lemma served_nonempty sz data : sz <> 0 -> data <> [] -> served sz data <> [].
Proof.
  intros Hsz Hd. unfold served. destruct (Z.ltb_spec sz 0); [assumption |].
  apply firstn_nonempty; [lia | assumption].
Qed.

Lemma served_prefix sz data :
  served sz data ++ skipn (length (served sz data)) data = data.
Proof.
  unfold served. destruct (sz <? 0).
  - rewrite skipn_all. apply app_nil_r.
  - rewrite length_firstn.
    destruct (Nat.le_gt_cases (Z.to_nat sz) (length data)) as [Hin | Hout].
    + rewrite Nat.min_l by assumption. apply firstn_skipn.
    + rewrite Nat.min_r by lia. rewrite firstn_all2 by lia.
      rewrite skipn_all. apply app_nil_r.
Qed.

Lemma pending_new data : pending (BufferIO.new (Some data)) = data.
Proof. reflexivity. Qed.

(** ** [TFramedTransport] *)

Section FramedFacts.
Context {T : Type} `{Transport T}.
Import TFramedTransport.

Lemma framed_write_bytes (s : t T) data x :
  accumulated (wbuf s) data ->
  exists b', write (PyBytes x) s = (Return tt, mk (trans s) (rbuf s) b') /\
             accumulated b' (data ++ x).
Proof.
  intros Hacc. destruct (BufferIO_write_appends _ _ x Hacc) as (b' & Hw & Hacc').
  exists b'. split; [| exact Hacc'].
  unfold write, on_wbuf.
  rewrite (bind_return _ _ _ _ _ (zoom_run wbuf _ _ s _ _ Hw)). reflexivity.
Qed.

(** [flush], step by step: the buffer is emptied first; the length is packed,
    which raises when it does not fit the field; then header and bytes go to
    the inner transport in one [write]; then the inner [flush] runs. *)
Lemma framed_flush_run (s : t T) data :
  accumulated (wbuf s) data ->
  flush s =
  match struct.pack_i (len data) with
  | Return header =>
      match TTransportBase.write (PyBytes (header ++ data)) (trans s) with
      | (Return _, x1) =>
          let (r, x2) := TTransportBase.flush x1 in
          (r, mk x2 (rbuf s) (BufferIO.new None))
      | (Raise e, x1) => (Raise e, mk x1 (rbuf s) (BufferIO.new None))
      | (Diverge, x1) => (Diverge, mk x1 (rbuf s) (BufferIO.new None))
      end
  | Raise e => (Raise e, mk (trans s) (rbuf s) (BufferIO.new None))
  | Diverge => (Diverge, mk (trans s) (rbuf s) (BufferIO.new None))
  end.
Proof.
  intros Hacc. unfold flush, on_wbuf.
  rewrite (bind_return _ _ _ _ _
             (zoom_run wbuf _ _ s _ _ (BufferIO_getvalue_accumulated _ _ Hacc))).
  destruct s as [x rb wb]. unfold bind, set_wbuf, modify, on_trans, zoom, pure. cbn.
  destruct (struct.pack_i (len data)) as [header | e |]; try reflexivity.
  destruct (TTransportBase.write (PyBytes (header ++ data)) x) as [[[] | e |] x1];
    reflexivity.
Qed.

(** [read(sz)] is served from the read buffer while it has something to
    give. *)
Lemma framed_read_buffered (s : t T) sz :
  BufferIO.closed (rbuf s) = false ->
  served sz (pending (rbuf s)) <> [] ->
  exists b',
    read sz s = (Return (served sz (pending (rbuf s))), mk (trans s) b' (wbuf s)) /\
    BufferIO.closed b' = false /\
    pending b' = skipn (length (served sz (pending (rbuf s)))) (pending (rbuf s)).
Proof.
  intros Hopen Hne. destruct (BufferIO_read_open _ sz Hopen) as (b' & Hr & Hop' & Hp').
  exists b'. split; [| split; assumption].
  unfold read, on_rbuf.
  rewrite (bind_return _ _ _ _ _ (zoom_run rbuf _ _ s _ _ Hr)).
  destruct (Z.eqb_spec (len (served sz (pending (rbuf s)))) 0) as [E | E].
  - apply len_zero_nil in E. contradiction.
  - reflexivity.
Qed.

(** Otherwise it reads a frame, and is served from that. *)
Lemma framed_read_miss (s : t T) sz :
  BufferIO.closed (rbuf s) = false ->
  served sz (pending (rbuf s)) = [] ->
  exists b',
    read sz s = (readFrame ;; on_rbuf (BufferIO.read sz)) (mk (trans s) b' (wbuf s)).
Proof.
  intros Hopen Hnil. destruct (BufferIO_read_open _ sz Hopen) as (b' & Hr & _ & _).
  exists b'. unfold read at 1, on_rbuf at 1.
  rewrite (bind_return _ _ _ _ _ (zoom_run rbuf _ _ s _ _ Hr)).
  rewrite Hnil. reflexivity.
Qed.

End FramedFacts.

(** ** [TFramedTransport] over a source of bytes *)

Section FramedSource.
Context {T : Type} `{Transport T}.
Variable delivers : T -> bytes -> Prop.
Hypothesis source : byte_source delivers.
Import TFramedTransport.

(** [readFrame] takes one frame off the source and makes its payload the
    read buffer. *)
Lemma readFrame_source (s : t T) payload rest :
  delivers (trans s) (frame payload ++ rest) -> len payload <= 2147483647 ->
  exists x',
    readFrame s = (Return tt, mk x' (BufferIO.new (Some payload)) (wbuf s)) /\
    delivers x' rest.
Proof.
  intros Hd Hlen. unfold frame in Hd. rewrite <- !app_assoc in Hd.
  destruct (StructFacts.unpack_pack_i _ _ (StructFacts.pack_i_len payload Hlen))
    as [Hunpack Hlen4].
  destruct (readAll_source delivers source 4 _ _ _ Hd Hlen4) as (x1 & Hr1 & Hd1).
  destruct (readAll_source delivers source (len payload) _ _ _ Hd1 eq_refl)
    as (x2 & Hr2 & Hd2).
  exists x2. split; [| exact Hd2].
  unfold readFrame, on_trans.
  rewrite (bind_return _ _ _ _ _ (zoom_run trans _ _ s _ _ Hr1)).
  unfold pure at 1. unfold bind at 1. rewrite Hunpack.
  destruct s as [x rb wb]. cbn [trans rbuf wbuf] in *.
  rewrite (bind_return _ _ _ _ _ (zoom_run trans _ _ (mk x1 rb wb) _ _ Hr2)).
  reflexivity.
Qed.

(** With nothing left in the source, [readFrame] raises [EOFError] and the
    read buffer stays as it is. *)
Lemma readFrame_exhausted (s : t T) :
  delivers (trans s) [] ->
  exists x', readFrame s = (Raise EOFError, mk x' (rbuf s) (wbuf s)).
Proof.
  intros Hd.
  destruct (readAll_source_short delivers source 4 _ _ Hd ltac:(rewrite len_nil; lia))
    as (x1 & Hr1).
  exists x1. unfold readFrame, on_trans.
  rewrite (bind_raise _ _ _ _ _ (zoom_run trans _ _ s _ _ Hr1)). reflexivity.
Qed.

(** With the source ending inside a frame, [readFrame] raises [EOFError]
    too. *)
Lemma readFrame_cut_short (s : t T) partial :
  delivers (trans s) partial -> cut_short partial ->
  exists s', readFrame s = (Raise EOFError, s').
Proof.
  intros Hd (payload & missing & Hlen & Hframe & Hmissing).
  destruct (StructFacts.unpack_pack_i _ _ (StructFacts.pack_i_len payload Hlen))
    as [Hunpack Hlen4].
  unfold readFrame, on_trans.
  destruct (Z.lt_ge_cases (len partial) 4) as [Hshort | Hlong].
  - destruct (readAll_source_short delivers source 4 _ _ Hd Hshort) as (x1 & Hr1).
    rewrite (bind_raise _ _ _ _ _ (zoom_run trans _ _ s _ _ Hr1)). eexists. reflexivity.
  - unfold frame in Hframe.
    destruct (app_split_prefix _ _ _ _ Hframe ltac:(lia)) as (got & -> & Hpayload).
    destruct (readAll_source delivers source 4 _ _ _ Hd Hlen4) as (x1 & Hr1 & Hd1).
    rewrite (bind_return _ _ _ _ _ (zoom_run trans _ _ s _ _ Hr1)).
    unfold pure at 1. unfold bind at 1. rewrite Hunpack.
    assert (Hless : len got < len payload).
    { rewrite Hpayload, len_app. apply len_nonempty in Hmissing. lia. }
    destruct (readAll_source_short delivers source (len payload) _ _ Hd1 Hless)
      as (x2 & Hr2).
    destruct s as [x rb wb]. cbn [trans rbuf wbuf] in *.
    rewrite (bind_raise _ _ _ _ _ (zoom_run trans _ _ (mk x1 rb wb) _ _ Hr2)).
    eexists. reflexivity.
Qed.

End FramedSource.

(** ** Sending messages and reading them back *)

Lemma wire_cons m msgs : wire (m :: msgs) = frame m ++ wire msgs.
Proof. reflexivity. Qed.

Section SendFacts.
Context {T : Type} `{Transport T}.
Variable collected : T -> bytes -> Prop.
Hypothesis sink : byte_sink collected.
Import TFramedTransport.

(** One message, written and flushed, adds its frame to the sink. *)
Lemma framed_send_one (s : t T) sent msg :
  wbuf s = BufferIO.new None -> collected (trans s) sent ->
  len msg <= 2147483647 ->
  exists x',
    (write (PyBytes msg) ;; flush) s
      = (Return tt, mk x' (rbuf s) (BufferIO.new None)) /\
    collected x' (sent ++ frame msg).
Proof.
  intros Hw Hc Hlen.
  destruct (framed_write_bytes s [] msg ltac:(rewrite Hw; apply accumulated_new))
    as (b' & Hwrite & Hacc).
  cbn [app] in Hacc. rewrite (bind_return _ _ _ _ _ Hwrite).
  rewrite (framed_flush_run (mk (trans s) (rbuf s) b') msg Hacc). cbn [trans rbuf wbuf].
  rewrite (StructFacts.pack_i_len msg Hlen).
  destruct (sink _ _ Hc) as [Hwr _].
  destruct (Hwr (struct.be32 (len msg) ++ msg)) as (x1 & Hx1 & Hc1).
  rewrite Hx1. destruct (sink _ _ Hc1) as [_ (x2 & Hx2 & Hc2)]. rewrite Hx2.
  exists x2. split; [reflexivity | exact Hc2].
Qed.

Lemma framed_send_each msgs : forall (s : t T) sent,
  wbuf s = BufferIO.new None -> collected (trans s) sent ->
  Forall (fun m => len m <= 2147483647) msgs ->
  exists x',
    send_each msgs s = (Return tt, mk x' (rbuf s) (BufferIO.new None)) /\
    collected x' (sent ++ wire msgs).
Proof.
  induction msgs as [| m msgs IH]; intros s sent Hw Hc Hall.
  - exists (trans s). cbn [send_each]. unfold wire. cbn [map concat].
    rewrite app_nil_r. destruct s as [x rb wb]. cbn in *. subst wb.
    split; [reflexivity | exact Hc].
  - inversion Hall as [| ? ? Hm Hrest]; subst.
    destruct (framed_send_one s sent m Hw Hc Hm) as (x1 & Hone & Hc1).
    cbn [send_each].
    change (TTransportBase.write (PyBytes m)) with (write (T:=T) (PyBytes m)).
    change (@TTransportBase.flush (t T) _) with (flush (T:=T)).
    unfold bind at 1. unfold bind at 1 in Hone.
    destruct (write (PyBytes m) s) as [[[] | e |] s1]; try discriminate Hone.
    unfold bind at 1.
    destruct (flush s1) as [[[] | e |] s2]; try discriminate Hone.
    injection Hone as ->.
    destruct (IH (mk x1 (rbuf s) (BufferIO.new None)) (sent ++ frame m)
                eq_refl Hc1 Hrest) as (x' & Hrun & Hc').
    exists x'. rewrite Hrun, wire_cons, app_assoc. split; [reflexivity | exact Hc'].
Qed.

End SendFacts.

Section DrainFacts.
Context {T : Type} `{Transport T}.
Variable delivers : T -> bytes -> Prop.
Hypothesis source : byte_source delivers.
Import TFramedTransport.

Lemma framed_drain fuel : forall sizes i got (s : t T) msgs,
  (forall j, sizes j <> 0) ->
  Forall (fun m => len m <= 2147483647) msgs ->
  BufferIO.closed (rbuf s) = false ->
  delivers (trans s) (wire msgs) ->
  (length (pending (rbuf s)) + reads_needed msgs <= fuel)%nat ->
  exists s',
    read_until_exhausted fuel sizes i got s
      = (Return (got ++ pending (rbuf s) ++ concat msgs), s').
Proof.
  induction fuel as [| fuel IH]; intros sizes i got s msgs Hsz Hall Hopen Hd Hfuel.
  - unfold reads_needed in Hfuel. lia.
  - cbn [read_until_exhausted].
    change (TTransportBase.read (sizes i)) with (read (T:=T) (sizes i)).
    destruct (list_eq_dec Byte.byte_eq_dec (served (sizes i) (pending (rbuf s))) [])
      as [Hnil | Hne].
    + assert (Hp : pending (rbuf s) = []).
      { destruct (pending (rbuf s)) as [| b l] eqn:E; [reflexivity |].
        exfalso. apply (served_nonempty (sizes i) (b :: l) (Hsz i)); [discriminate | exact Hnil]. }
      destruct (framed_read_miss s (sizes i) Hopen Hnil) as (b' & ->).
      rewrite Hp in *. cbn [app].
      destruct msgs as [| m msgs].
      * destruct (readFrame_exhausted delivers source (mk (trans s) b' (wbuf s)) Hd)
          as (x' & Hrf).
        rewrite (bind_raise _ _ _ _ _ Hrf). eexists. rewrite app_nil_r. reflexivity.
      * inversion Hall as [| ? ? Hm Hrest]; subst. rewrite wire_cons in Hd.
        destruct (readFrame_source delivers source (mk (trans s) b' (wbuf s)) m _ Hd Hm)
          as (x' & Hrf & Hd').
        rewrite (bind_return _ _ _ _ _ Hrf).
        destruct (BufferIO_read_open (BufferIO.new (Some m)) (sizes i) eq_refl)
          as (b2 & Hr & Hopen2 & Hp2).
        unfold on_rbuf.
        rewrite (zoom_run rbuf _ _ (mk x' (BufferIO.new (Some m)) (wbuf s)) _ _ Hr).
        rewrite pending_new in *.
        destruct (IH sizes (S i) (got ++ served (sizes i) m) (mk x' b2 (wbuf s)) msgs
                    Hsz Hrest Hopen2 Hd') as (s' & Hrun).
        { cbn [rbuf]. rewrite Hp2, length_skipn.
          unfold reads_needed in *. cbn [concat length] in Hfuel.
          rewrite length_app in Hfuel. cbn [length] in Hfuel. lia. }
        exists s'. cbv beta iota. cbn [trans rbuf wbuf]. rewrite Hrun.
        cbn [rbuf]. rewrite Hp2.
        rewrite <- (app_assoc got), (app_assoc (served (sizes i) m)), served_prefix.
        reflexivity.
    + destruct (framed_read_buffered s (sizes i) Hopen Hne) as (b' & -> & Hopen' & Hp').
      destruct (IH sizes (S i) (got ++ served (sizes i) (pending (rbuf s)))
                  (mk (trans s) b' (wbuf s)) msgs Hsz Hall Hopen' Hd) as (s' & Hrun).
      { cbn [rbuf]. rewrite Hp', length_skipn.
        assert (0 < length (served (sizes i) (pending (rbuf s))))%nat.
        { destruct (served (sizes i) (pending (rbuf s))); [contradiction | cbn; lia]. }
        assert (length (served (sizes i) (pending (rbuf s))) <= length (pending (rbuf s)))%nat.
        { rewrite <- (served_prefix (sizes i) (pending (rbuf s))) at 2.
          rewrite length_app. lia. }
        lia. }
      exists s'. cbv beta iota. cbn [trans rbuf wbuf]. rewrite Hrun.
      cbn [rbuf]. rewrite Hp'.
      rewrite <- (app_assoc got), (app_assoc (served (sizes i) _)), served_prefix.
      reflexivity.
Qed.

End DrainFacts.

(** A message too long for the length field: [flush] raises [struct.error]
    before anything is written, and the message is dropped. *)
Lemma framed_send_too_long {T : Type} `{Transport T}
  (s : TFramedTransport.t T) msg :
  TFramedTransport.wbuf s = BufferIO.new None -> 2147483647 < len msg ->
  (TFramedTransport.write (PyBytes msg) ;; TFramedTransport.flush) s
    = (Raise struct_error,
       TFramedTransport.mk (TFramedTransport.trans s) (TFramedTransport.rbuf s)
         (BufferIO.new None)).
Proof.
  intros Hw Hlen.
  destruct (framed_write_bytes s [] msg ltac:(rewrite Hw; apply accumulated_new))
    as (b' & Hwrite & Hacc).
  rewrite app_nil_l in Hacc. rewrite (bind_return _ _ _ _ _ Hwrite).
  rewrite (framed_flush_run
             (TFramedTransport.mk (TFramedTransport.trans s) (TFramedTransport.rbuf s) b')
             msg Hacc).
  rewrite (StructFacts.pack_i_too_long msg Hlen). reflexivity.
Qed.

Lemma send_each_too_long {T : Type} `{Transport T} (x : T) msg :
  2147483647 < len msg ->
  send_each [msg] (TFramedTransport.init x)
    = (Raise struct_error, TFramedTransport.init x).
Proof.
  intros Hlen. unfold send_each.
  change (TTransportBase.write (PyBytes msg)) with (TFramedTransport.write (T:=T) (PyBytes msg)).
  change (@TTransportBase.flush (TFramedTransport.t T) _) with (TFramedTransport.flush (T:=T)).
  pose proof (framed_send_too_long (TFramedTransport.init x) msg eq_refl Hlen) as Hrun.
  unfold bind at 1. unfold bind at 1 in Hrun.
  destruct (TFramedTransport.write (PyBytes msg) (TFramedTransport.init x))
    as [[[] | e |] s1].
  - unfold bind at 1. rewrite Hrun. reflexivity.
  - exact Hrun.
  - discriminate Hrun.
Qed.

(** Whatever the peer does, the round trip of such a message ends in the
    sender's [struct.error]. *)
Lemma roundtrip_too_long msg sizes fuel :
  2147483647 < len msg -> roundtrip [msg] sizes fuel = Raise struct_error.
Proof.
  intros Hlen. unfold roundtrip. rewrite (send_each_too_long _ msg Hlen). reflexivity.
Qed.

Lemma len_repeat {A : Type} (a : A) (n : Z) : 0 <= n -> len (repeat a (Z.to_nat n)) = n.
Proof. intros Hn. unfold len. rewrite repeat_length. apply Z2Nat.id. exact Hn. Qed.

(** C1, as stated, fails on a message of [2^31] bytes: [flush] raises
    [struct.error], the channel gets nothing, and the round trip does not
    reproduce the message. *)
Lemma framed_round_trip_counterexample :
  send_each [repeat x00 (Z.to_nat 2147483648)]
    (TFramedTransport.init (TMemoryBuffer.mk (BufferIO.new None)))
  = (Raise struct_error,
     TFramedTransport.init (TMemoryBuffer.mk (BufferIO.new None))) /\
  roundtrip [repeat x00 (Z.to_nat 2147483648)] (fun _ => 4096) 1
  = Raise struct_error.
Proof.
  assert (Hlen : 2147483647 < len (repeat x00 (Z.to_nat 2147483648))).
  { rewrite len_repeat; [reflexivity | discriminate]. }
  split.
  - exact (send_each_too_long _ _ Hlen).
  - exact (roundtrip_too_long _ _ _ Hlen).
Qed.

(** C1, amended.  Messages of at most [2^31 - 1] bytes each, sent one by
    one with [write] and [flush] through a Framed Transport over any sink of
    bytes, put their frames on the channel; and a peer Framed Transport over
    any source that delivers those bytes, read until it is exhausted with
    requests of any sizes other than zero, returns the concatenation of the
    messages, however the source cuts its reads. *)
Theorem framed_round_trip
  {W : Type} `{Transport W} {R : Type} `{Transport R}
  (collected : W -> bytes -> Prop) (delivers : R -> bytes -> Prop)
  (w0 : W) (r0 : R) (msgs : list bytes) (sizes : nat -> Z) (fuel : nat) :
  byte_sink collected -> byte_source delivers ->
  collected w0 [] -> delivers r0 (wire msgs) ->
  Forall (fun m => len m <= 2147483647) msgs ->
  (forall j, sizes j <> 0) ->
  (reads_needed msgs <= fuel)%nat ->
  exists sender receiver,
    send_each msgs (TFramedTransport.init w0) = (Return tt, sender) /\
    collected (TFramedTransport.trans sender) (wire msgs) /\
    read_until_exhausted fuel sizes 0 [] (TFramedTransport.init r0)
      = (Return (concat msgs), receiver).
Proof.
  intros Hsink Hsource Hw0 Hr0 Hall Hsizes Hfuel.
  destruct (framed_send_each collected Hsink msgs (TFramedTransport.init w0) []
              eq_refl Hw0 Hall) as (x' & Hsend & Hc).
  destruct (framed_drain delivers Hsource fuel sizes 0%nat [] (TFramedTransport.init r0)
              msgs Hsizes Hall eq_refl Hr0 Hfuel) as (receiver & Hread).
  eexists _, receiver. split; [exact Hsend |]. split; [exact Hc |]. exact Hread.
Qed.

Lemma framed_round_trip_witness :
  let msgs := [[x70; x69]; []; [x6e; x67]] in
  exists sender receiver,
    send_each msgs (TFramedTransport.init (TMemoryBuffer.mk (BufferIO.new None)))
      = (Return tt, sender) /\
    Memory.collected (TFramedTransport.trans sender) (wire msgs) /\
    read_until_exhausted 8 (fun _ => 3) 0 []
      (TFramedTransport.init (TMemoryBuffer.mk (BufferIO.new (Some (wire msgs)))))
      = (Return (concat msgs), receiver).
Proof.
  intros msgs.
  apply (framed_round_trip Memory.collected Memory.delivers
           (TMemoryBuffer.mk (BufferIO.new None))
           (TMemoryBuffer.mk (BufferIO.new (Some (wire msgs)))) msgs (fun _ => 3) 8).
  - exact MemoryFacts.is_sink.
  - exact MemoryFacts.is_source.
  - exact MemoryFacts.collected_init.
  - apply MemoryFacts.delivers_init.
  - repeat constructor; vm_compute; discriminate.
  - intros j. discriminate.
  - vm_compute. lia.
Defined.

(** The round trip through memory buffers, computed. *)
Example roundtrip_ping :
  roundtrip [[x70; x69]; []; [x6e; x67]] (fun _ => 3) 8
  = Return [x70; x69; x6e; x67].
Proof. reflexivity. Qed.

(** Requests of zero bytes lose whole frames: each one replaces the read
    buffer with the next frame without serving anything. *)
Example roundtrip_zero_sized_reads :
  roundtrip [[x70; x69]; [x6e; x67]] (fun _ => 0) 8 = Return [].
Proof. reflexivity. Qed.

(** ** [TFramedTransport.cstringio_refill] *)

(** C10.  With [len(prefix) >= reqlen] the loop of [refill] is not entered,
    whatever the number of turns it is given: no call is made on the inner
    transport, which stays as it is; the read buffer becomes a new buffer
    that holds exactly [prefix], at position 0, whatever the old one still
    had to give; that buffer is returned. *)
Theorem framed_refill_enough
  {T : Type} `{Transport T} (s : TFramedTransport.t (Spy.t T))
  (prefix : bytes) (reqlen : Z) (fuel : nat) :
  reqlen <= len prefix ->
  exists s',
    TFramedTransport.cstringio_refill fuel prefix reqlen s
      = (Return (BufferIO.new (Some prefix)), s') /\
    TFramedTransport.trans s' = TFramedTransport.trans s /\
    Spy.calls (TFramedTransport.trans s') = Spy.calls (TFramedTransport.trans s) /\
    TFramedTransport.rbuf s' = BufferIO.new (Some prefix) /\
    pending (TFramedTransport.rbuf s') = prefix /\
    TFramedTransport.wbuf s' = TFramedTransport.wbuf s.
Proof.
  intros Hlen.
  exists (TFramedTransport.mk (TFramedTransport.trans s) (BufferIO.new (Some prefix))
            (TFramedTransport.wbuf s)).
  split; [| repeat split].
  destruct fuel; cbn [TFramedTransport.cstringio_refill];
    (destruct (Z.ltb_spec (len prefix) reqlen); [lia | reflexivity]).
Qed.

Lemma framed_refill_enough_witness :
  let s := TFramedTransport.mk
             (Spy.mk [] (TMemoryBuffer.mk (BufferIO.new (Some [x00; x00; x00; x01; x21]))))
             (BufferIO.mk [x61; x62; x63; x64] 1 false) (BufferIO.new None) in
  exists s',
    TFramedTransport.cstringio_refill 0 [x61; x62] 2 s
      = (Return (BufferIO.new (Some [x61; x62])), s') /\
    TFramedTransport.trans s' = TFramedTransport.trans s /\
    Spy.calls (TFramedTransport.trans s') = Spy.calls (TFramedTransport.trans s) /\
    TFramedTransport.rbuf s' = BufferIO.new (Some [x61; x62]) /\
    pending (TFramedTransport.rbuf s') = [x61; x62] /\
    TFramedTransport.wbuf s' = TFramedTransport.wbuf s.
Proof.
  intros s. apply (framed_refill_enough s [x61; x62] 2 0). vm_compute. discriminate.
Defined.

Section FramedRefill.
Context {T : Type} `{Transport T}.
Variable delivers : T -> bytes -> Prop.
Hypothesis source : byte_source delivers.
Import TFramedTransport.

Lemma cstringio_refill_unfold fuel prefix reqlen :
  cstringio_refill (T:=T) fuel prefix reqlen =
  if len prefix <? reqlen then
    match fuel with
    | O => diverge
    | S fuel' =>
        readFrame ;;
        payload <- on_rbuf BufferIO.getvalue ;;
        cstringio_refill fuel' (prefix ++ payload) reqlen
    end
  else
    set_rbuf (BufferIO.new (Some prefix)) ;;
    gets rbuf.
Proof. destruct fuel; reflexivity. Qed.

(** [refill] reads whole frames, appending each payload, until the buffer is
    long enough. *)
Lemma framed_refill_frames used : forall fuel prefix reqlen (s : t T) rest,
  Forall (fun m => len m <= 2147483647) used ->
  delivers (trans s) (wire used ++ rest) ->
  frames_needed (len prefix) reqlen used ->
  (length used <= fuel)%nat ->
  exists x',
    cstringio_refill fuel prefix reqlen s
      = (Return (BufferIO.new (Some (prefix ++ concat used))),
         mk x' (BufferIO.new (Some (prefix ++ concat used))) (wbuf s)) /\
    delivers x' rest.
Proof.
  induction used as [| m used IH]; intros fuel prefix reqlen s rest Hall Hd Hneed Hfuel;
    rewrite cstringio_refill_unfold; cbn [frames_needed] in Hneed.
  - destruct (Z.ltb_spec (len prefix) reqlen); [lia |].
    exists (trans s). cbn [concat]. rewrite app_nil_r. split; [reflexivity | exact Hd].
  - destruct Hneed as [Hlt Hneed]. destruct (Z.ltb_spec (len prefix) reqlen); [| lia].
    destruct fuel as [| fuel]; [cbn [length] in Hfuel; lia |].
    inversion Hall as [| ? ? Hm Hrest]; subst.
    rewrite wire_cons, <- app_assoc in Hd.
    destruct (readFrame_source delivers source s m _ Hd Hm) as (x1 & Hrf & Hd1).
    rewrite (bind_return _ _ _ _ _ Hrf).
    unfold on_rbuf at 1. unfold bind at 1. unfold zoom at 1. cbn [rbuf BufferIO.getvalue].
    change (BufferIO.getvalue (BufferIO.new (Some m)))
      with (Return m, BufferIO.new (Some m)).
    cbv beta iota. rewrite <- len_app in Hneed.
    destruct (IH fuel (prefix ++ m) reqlen (mk x1 (BufferIO.new (Some m)) (wbuf s)) rest
                Hrest Hd1 Hneed ltac:(cbn [length] in Hfuel; lia)) as (x' & Hrun & Hd').
    exists x'. cbn [trans rbuf wbuf] in *. rewrite Hrun. cbn [concat].
    rewrite <- app_assoc. split; [reflexivity | exact Hd'].
Qed.

(** When the frames run out before that, it raises [EOFError]. *)
Lemma framed_refill_short payloads partial : forall fuel prefix reqlen (s : t T),
  Forall (fun m => len m <= 2147483647) payloads ->
  delivers (trans s) (wire payloads ++ partial) -> cut_short partial ->
  len prefix + len (concat payloads) < reqlen ->
  (length payloads < fuel)%nat ->
  exists s', cstringio_refill fuel prefix reqlen s = (Raise EOFError, s').
Proof.
  induction payloads as [| m payloads IH];
    intros fuel prefix reqlen s Hall Hd Hcut Hshort Hfuel;
    rewrite cstringio_refill_unfold;
    (destruct fuel as [| fuel]; [cbn [length] in Hfuel; lia |]).
  - cbn [concat] in Hshort. rewrite len_nil in Hshort.
    destruct (Z.ltb_spec (len prefix) reqlen); [| lia].
    destruct (readFrame_cut_short delivers source s partial Hd Hcut) as (x' & Hrf).
    rewrite (bind_raise _ _ _ _ _ Hrf). eexists. reflexivity.
  - cbn [concat] in Hshort. rewrite len_app in Hshort. pose proof (len_nonneg m).
    pose proof (len_nonneg (concat payloads)).
    destruct (Z.ltb_spec (len prefix) reqlen); [| lia].
    inversion Hall as [| ? ? Hm Hrest]; subst.
    rewrite wire_cons, <- app_assoc in Hd.
    destruct (readFrame_source delivers source s m _ Hd Hm) as (x1 & Hrf & Hd1).
    rewrite (bind_return _ _ _ _ _ Hrf).
    unfold on_rbuf at 1. unfold bind at 1. unfold zoom at 1. cbn [rbuf BufferIO.getvalue].
    change (BufferIO.getvalue (BufferIO.new (Some m)))
      with (Return m, BufferIO.new (Some m)).
    cbv beta iota.
    apply IH; [exact Hrest | exact Hd1 | exact Hcut | rewrite len_app; lia
              | cbn [length] in Hfuel; lia].
Qed.

End FramedRefill.

(** ** [TSaslClientTransport] over a source of bytes *)

Section SaslSource.
Context {T : Type} `{Transport T} {C : Type} `{SASLClient C}.
Variable delivers : T -> bytes -> Prop.
Hypothesis source : byte_source delivers.
Import TSaslClientTransport.

(** [_read_frame] takes one frame off the source, un-wraps its payload and
    makes the result the read buffer. *)
Lemma sasl_read_frame_source (s : t T C) encoded decoded c1 rest :
  delivers (transport s) (frame encoded ++ rest) -> len encoded <= 2147483647 ->
  unwrap encoded (sasl s) = (Return decoded, c1) ->
  exists x',
    _read_frame s = (Return tt, mk x' c1 (wbuf s) (BufferIO.new (Some decoded))) /\
    delivers x' rest.
Proof.
  intros Hd Hlen Hun. unfold frame in Hd. rewrite <- !app_assoc in Hd.
  destruct (StructFacts.unpack_pack_i _ _ (StructFacts.pack_i_len encoded Hlen))
    as [Hunpack Hlen4].
  destruct (readAll_source delivers source 4 _ _ _ Hd Hlen4) as (x1 & Hr1 & Hd1).
  destruct (readAll_source delivers source (len encoded) _ _ _ Hd1 eq_refl)
    as (x2 & Hr2 & Hd2).
  exists x2. split; [| exact Hd2].
  unfold _read_frame, on_transport.
  rewrite (bind_return _ _ _ _ _ (zoom_run transport _ _ s _ _ Hr1)).
  unfold pure at 1. unfold bind at 1. rewrite Hunpack.
  destruct s as [x c wb rb]. cbn [transport sasl rbuf wbuf] in *.
  rewrite (bind_return _ _ _ _ _ (zoom_run transport _ _ (mk x1 c wb rb) _ _ Hr2)).
  cbn [transport sasl rbuf wbuf]. unfold on_sasl.
  rewrite (bind_return _ _ _ _ _ (zoom_run sasl _ _ (mk x2 c wb rb) _ _ Hun)).
  reflexivity.
Qed.

Lemma sasl_read_frame_exhausted (s : t T C) :
  delivers (transport s) [] ->
  exists x', _read_frame s = (Raise EOFError, mk x' (sasl s) (wbuf s) (rbuf s)).
Proof.
  intros Hd.
  destruct (readAll_source_short delivers source 4 _ _ Hd ltac:(rewrite len_nil; lia))
    as (x1 & Hr1).
  exists x1. unfold _read_frame, on_transport.
  rewrite (bind_raise _ _ _ _ _ (zoom_run transport _ _ s _ _ Hr1)). reflexivity.
Qed.

Lemma sasl_read_frame_cut_short (s : t T C) partial :
  delivers (transport s) partial -> cut_short partial ->
  exists s', _read_frame s = (Raise EOFError, s').
Proof.
  intros Hd (payload & missing & Hlen & Hframe & Hmissing).
  destruct (StructFacts.unpack_pack_i _ _ (StructFacts.pack_i_len payload Hlen))
    as [Hunpack Hlen4].
  unfold _read_frame, on_transport.
  destruct (Z.lt_ge_cases (len partial) 4) as [Hshort | Hlong].
  - destruct (readAll_source_short delivers source 4 _ _ Hd Hshort) as (x1 & Hr1).
    rewrite (bind_raise _ _ _ _ _ (zoom_run transport _ _ s _ _ Hr1)).
    eexists. reflexivity.
  - unfold frame in Hframe.
    destruct (app_split_prefix _ _ _ _ Hframe ltac:(lia)) as (got & -> & Hpayload).
    destruct (readAll_source delivers source 4 _ _ _ Hd Hlen4) as (x1 & Hr1 & Hd1).
    rewrite (bind_return _ _ _ _ _ (zoom_run transport _ _ s _ _ Hr1)).
    unfold pure at 1. unfold bind at 1. rewrite Hunpack.
    assert (Hless : len got < len payload).
    { rewrite Hpayload, len_app. apply len_nonempty in Hmissing. lia. }
    destruct (readAll_source_short delivers source (len payload) _ _ Hd1 Hless)
      as (x2 & Hr2).
    destruct s as [x c wb rb]. cbn [transport sasl rbuf wbuf] in *.
    rewrite (bind_raise _ _ _ _ _ (zoom_run transport _ _ (mk x1 c wb rb) _ _ Hr2)).
    eexists. reflexivity.
Qed.

Lemma sasl_refill_unfold fuel prefix reqlen :
  cstringio_refill (T:=T) (C:=C) fuel prefix reqlen =
  if len prefix <? reqlen then
    match fuel with
    | O => diverge
    | S fuel' =>
        _read_frame ;;
        payload <- on_rbuf BufferIO.getvalue ;;
        cstringio_refill fuel' (prefix ++ payload) reqlen
    end
  else
    set_rbuf (BufferIO.new (Some prefix)) ;;
    gets rbuf.
Proof. destruct fuel; reflexivity. Qed.

Lemma sasl_refill_frames frames : forall payloads fuel prefix reqlen (s : t T C) c' rest,
  Forall (fun m => len m <= 2147483647) frames ->
  delivers (transport s) (wire frames ++ rest) ->
  unwraps (sasl s) frames payloads c' ->
  frames_needed (len prefix) reqlen payloads ->
  (length frames <= fuel)%nat ->
  exists x',
    cstringio_refill fuel prefix reqlen s
      = (Return (BufferIO.new (Some (prefix ++ concat payloads))),
         mk x' c' (wbuf s) (BufferIO.new (Some (prefix ++ concat payloads)))) /\
    delivers x' rest.
Proof.
  induction frames as [| e frames IH];
    intros payloads fuel prefix reqlen s c' rest Hall Hd Hun Hneed Hfuel;
    rewrite sasl_refill_unfold; inversion Hun; subst; cbn [frames_needed] in Hneed.
  - destruct (Z.ltb_spec (len prefix) reqlen); [lia |].
    exists (transport s). cbn [concat]. rewrite app_nil_r.
    destruct s; split; [reflexivity | exact Hd].
  - destruct Hneed as [Hlt Hneed]. destruct (Z.ltb_spec (len prefix) reqlen); [| lia].
    destruct fuel as [| fuel]; [cbn [length] in Hfuel; lia |].
    inversion Hall as [| ? ? Hm Hrest]; subst.
    rewrite wire_cons, <- app_assoc in Hd.
    match goal with Hu : unwrap e _ = _ |- _ =>
      destruct (sasl_read_frame_source s e _ _ _ Hd Hm Hu) as (x1 & Hrf & Hd1) end.
    rewrite (bind_return _ _ _ _ _ Hrf).
    unfold on_rbuf at 1. unfold bind at 1. unfold zoom at 1. cbn [rbuf BufferIO.getvalue].
    change (BufferIO.getvalue (BufferIO.new (Some decoded)))
      with (Return decoded, BufferIO.new (Some decoded)).
    cbv beta iota. rewrite <- len_app in Hneed.
    match goal with Hu : unwraps c1 _ _ _ |- _ =>
      destruct (IH payloads0 fuel (prefix ++ decoded) reqlen
                  (mk x1 c1 (wbuf s) (BufferIO.new (Some decoded))) c' rest
                  Hrest Hd1 Hu Hneed ltac:(cbn [length] in Hfuel; lia))
        as (x' & Hrun & Hd') end.
    exists x'. cbn [transport sasl rbuf wbuf] in *. rewrite Hrun. cbn [concat].
    rewrite <- app_assoc. split; [reflexivity | exact Hd'].
Qed.

Lemma sasl_refill_short frames partial :
  forall payloads fuel prefix reqlen (s : t T C) c',
  Forall (fun m => len m <= 2147483647) frames ->
  delivers (transport s) (wire frames ++ partial) -> cut_short partial ->
  unwraps (sasl s) frames payloads c' ->
  len prefix + len (concat payloads) < reqlen ->
  (length frames < fuel)%nat ->
  exists s', cstringio_refill fuel prefix reqlen s = (Raise EOFError, s').
Proof.
  induction frames as [| e frames IH];
    intros payloads fuel prefix reqlen s c' Hall Hd Hcut Hun Hshort Hfuel;
    rewrite sasl_refill_unfold; inversion Hun; subst;
    (destruct fuel as [| fuel]; [cbn [length] in Hfuel; lia |]).
  - cbn [concat] in Hshort. rewrite len_nil in Hshort.
    destruct (Z.ltb_spec (len prefix) reqlen); [| lia].
    destruct (sasl_read_frame_cut_short s partial Hd Hcut) as (x' & Hrf).
    rewrite (bind_raise _ _ _ _ _ Hrf). eexists. reflexivity.
  - cbn [concat] in Hshort. rewrite len_app in Hshort. pose proof (len_nonneg decoded).
    pose proof (len_nonneg (concat payloads0)).
    destruct (Z.ltb_spec (len prefix) reqlen); [| lia].
    inversion Hall as [| ? ? Hm Hrest]; subst.
    rewrite wire_cons, <- app_assoc in Hd.
    match goal with Hu : unwrap e _ = _ |- _ =>
      destruct (sasl_read_frame_source s e _ _ _ Hd Hm Hu) as (x1 & Hrf & Hd1) end.
    rewrite (bind_return _ _ _ _ _ Hrf).
    unfold on_rbuf at 1. unfold bind at 1. unfold zoom at 1. cbn [rbuf BufferIO.getvalue].
    change (BufferIO.getvalue (BufferIO.new (Some decoded)))
      with (Return decoded, BufferIO.new (Some decoded)).
    cbv beta iota.
    match goal with Hu : unwraps c1 _ _ _ |- _ =>
      apply (IH payloads0 fuel (prefix ++ decoded) reqlen
               (mk x1 c1 (wbuf s) (BufferIO.new (Some decoded))) c' Hrest Hd1 Hcut Hu) end;
      [rewrite len_app; lia | cbn [length] in Hfuel; lia].
Qed.

End SaslSource.

(** C7.  [refill(prefix, reqlen)] of the Framed and of the
    Security-Negotiated transport, over any source of bytes.  When the source
    delivers the frames of the payloads [used] (and whatever after them), and
    these are the frames needed, each read with the buffer still shorter
    than [reqlen] and the last making it long enough, [refill] returns a new
    buffer holding [prefix] followed by the payloads, installs it as the read
    buffer and leaves the rest in the source; for the Security-Negotiated
    transport the payloads are what the capability's [unwrap] makes of the
    frames, one after the other.  When the source ends, at the end of a
    frame or inside one, with all its whole frames read and the buffer still
    short, [refill] raises [EOFError]. *)
Theorem refill_reads_whole_frames
  {T : Type} `{Transport T} {C : Type} `{SASLClient C}
  (delivers : T -> bytes -> Prop) :
  byte_source delivers ->
  (forall (s : TFramedTransport.t T) used rest prefix reqlen fuel,
      Forall (fun m => len m <= 2147483647) used ->
      delivers (TFramedTransport.trans s) (wire used ++ rest) ->
      frames_needed (len prefix) reqlen used ->
      (length used <= fuel)%nat ->
      exists s',
        TFramedTransport.cstringio_refill fuel prefix reqlen s
          = (Return (BufferIO.new (Some (prefix ++ concat used))), s') /\
        TFramedTransport.rbuf s' = BufferIO.new (Some (prefix ++ concat used)) /\
        delivers (TFramedTransport.trans s') rest) /\
  (forall (s : TFramedTransport.t T) payloads partial prefix reqlen fuel,
      Forall (fun m => len m <= 2147483647) payloads ->
      delivers (TFramedTransport.trans s) (wire payloads ++ partial) ->
      cut_short partial ->
      len prefix + len (concat payloads) < reqlen ->
      (length payloads < fuel)%nat ->
      exists s',
        TFramedTransport.cstringio_refill fuel prefix reqlen s = (Raise EOFError, s')) /\
  (forall (s : TSaslClientTransport.t T C) frames payloads c' rest prefix reqlen fuel,
      Forall (fun m => len m <= 2147483647) frames ->
      delivers (TSaslClientTransport.transport s) (wire frames ++ rest) ->
      unwraps (TSaslClientTransport.sasl s) frames payloads c' ->
      frames_needed (len prefix) reqlen payloads ->
      (length frames <= fuel)%nat ->
      exists s',
        TSaslClientTransport.cstringio_refill fuel prefix reqlen s
          = (Return (BufferIO.new (Some (prefix ++ concat payloads))), s') /\
        TSaslClientTransport.rbuf s' = BufferIO.new (Some (prefix ++ concat payloads)) /\
        TSaslClientTransport.sasl s' = c' /\
        delivers (TSaslClientTransport.transport s') rest) /\
  (forall (s : TSaslClientTransport.t T C) frames partial payloads c' prefix reqlen fuel,
      Forall (fun m => len m <= 2147483647) frames ->
      delivers (TSaslClientTransport.transport s) (wire frames ++ partial) ->
      cut_short partial ->
      unwraps (TSaslClientTransport.sasl s) frames payloads c' ->
      len prefix + len (concat payloads) < reqlen ->
      (length frames < fuel)%nat ->
      exists s',
        TSaslClientTransport.cstringio_refill fuel prefix reqlen s
          = (Raise EOFError, s')).
Proof.
  intros Hsource. repeat split.
  - intros s used rest prefix reqlen fuel Hall Hd Hneed Hfuel.
    destruct (framed_refill_frames delivers Hsource used fuel prefix reqlen s rest
                Hall Hd Hneed Hfuel) as (x' & Hrun & Hd').
    eexists. split; [exact Hrun |]. split; [reflexivity | exact Hd'].
  - intros s payloads partial prefix reqlen fuel Hall Hd Hcut Hshort Hfuel.
    exact (framed_refill_short delivers Hsource payloads partial fuel prefix reqlen s
             Hall Hd Hcut Hshort Hfuel).
  - intros s frames payloads c' rest prefix reqlen fuel Hall Hd Hun Hneed Hfuel.
    destruct (sasl_refill_frames delivers Hsource frames payloads fuel prefix reqlen s
                c' rest Hall Hd Hun Hneed Hfuel) as (x' & Hrun & Hd').
    eexists. split; [exact Hrun |]. repeat split. exact Hd'.
  - intros s frames partial payloads c' prefix reqlen fuel Hall Hd Hcut Hun Hshort Hfuel.
    exact (sasl_refill_short delivers Hsource frames partial payloads fuel prefix reqlen
             s c' Hall Hd Hcut Hun Hshort Hfuel).
Qed.

Lemma cut_short_nil : cut_short [].
Proof.
  exists [], (frame []). split; [rewrite len_nil; lia |].
  split; [reflexivity | discriminate].
Qed.

(** Two frames, ["pi"] and ["ng"], then a third: a refill to four bytes from
    the prefix ["x"] reads the first two frames only, and a refill to nine
    bytes meets the end.  The same through the stand-in capability, whose
    [unwrap] drops the first byte of a frame. *)
Lemma refill_reads_whole_frames_witness :
  let used := [[x70; x69]; [x6e; x67]] in
  let rest := frame [x21] in
  let framed := TFramedTransport.init
                  (TMemoryBuffer.mk (BufferIO.new (Some (wire used ++ rest)))) in
  let frames := [[x2a; x70; x69]; [x2a; x6e; x67]] in
  let secure := TSaslClientTransport.init
                  (TMemoryBuffer.mk (BufferIO.new (Some (wire frames ++ []))))
                  (Fixture.mk_client 0) in
  (exists s',
      TFramedTransport.cstringio_refill 2 [x78] 4 framed
        = (Return (BufferIO.new (Some ([x78] ++ concat used))), s') /\
      TFramedTransport.rbuf s' = BufferIO.new (Some ([x78] ++ concat used)) /\
      Memory.delivers (TFramedTransport.trans s') rest) /\
  (exists s',
      TFramedTransport.cstringio_refill 4 [x78] 9
        (TFramedTransport.init
           (TMemoryBuffer.mk (BufferIO.new (Some (wire (used ++ [[x21]]) ++ [])))))
        = (Raise EOFError, s')) /\
  (exists s',
      TSaslClientTransport.cstringio_refill 2 [x78] 4 secure
        = (Return (BufferIO.new (Some ([x78] ++ concat used))), s') /\
      TSaslClientTransport.rbuf s' = BufferIO.new (Some ([x78] ++ concat used)) /\
      TSaslClientTransport.sasl s' = Fixture.mk_client 0 /\
      Memory.delivers (TSaslClientTransport.transport s') []) /\
  (exists s',
      TSaslClientTransport.cstringio_refill 3 [x78] 9 secure = (Raise EOFError, s')).
Proof.
  intros used rest framed frames secure.
  destruct (refill_reads_whole_frames (C:=Fixture.client) Memory.delivers
              MemoryFacts.is_source) as (Hframed & Hframed_short & Hsecure & Hsecure_short).
  assert (Hun : unwraps (Fixture.mk_client 0) frames used (Fixture.mk_client 0)).
  { eapply unwraps_next; [reflexivity |].
    eapply unwraps_next; [reflexivity |]. apply unwraps_none. }
  split; [| split; [| split]].
  - apply (Hframed framed used rest [x78] 4 2%nat).
    + repeat constructor; vm_compute; discriminate.
    + apply MemoryFacts.delivers_init.
    + vm_compute. repeat split; discriminate.
    + vm_compute. lia.
  - apply (Hframed_short _ (used ++ [[x21]]) [] [x78] 9 4%nat).
    + repeat constructor; vm_compute; discriminate.
    + apply MemoryFacts.delivers_init.
    + exact cut_short_nil.
    + vm_compute. reflexivity.
    + vm_compute. lia.
  - apply (Hsecure secure frames used (Fixture.mk_client 0) [] [x78] 4 2%nat).
    + repeat constructor; vm_compute; discriminate.
    + apply MemoryFacts.delivers_init.
    + exact Hun.
    + vm_compute. repeat split; discriminate.
    + vm_compute. lia.
  - apply (Hsecure_short secure frames [] used (Fixture.mk_client 0) [x78] 9 3%nat).
    + repeat constructor; vm_compute; discriminate.
    + apply MemoryFacts.delivers_init.
    + exact cut_short_nil.
    + exact Hun.
    + vm_compute. reflexivity.
    + vm_compute. lia.
Defined.

(** ** The empty frame *)

Lemma frame_nil : frame [] = [x00; x00; x00; x00].
Proof. reflexivity. Qed.

(** C8.  [flush] of a Framed Transport whose write buffer is empty makes one
    [write] call on the inner transport, of the four bytes 00 00 00 00, and
    then, that call having returned, one [flush] call.  A peer whose read
    buffer has nothing left to give and whose source delivers these four
    bytes returns the empty byte string from [read], whatever the size asked
    for, having taken exactly the four bytes off the source: it does not go
    on to the bytes that follow.  Its next [read] takes the following frame
    and is served from it. *)
Theorem framed_empty_frame
  {T : Type} `{Transport T} {R : Type} `{Transport R}
  (x : Spy.t T) (rb : BufferIO.t) (x1 : T)
  (delivers : R -> bytes -> Prop) (s : TFramedTransport.t R) (sz : Z)
  (following : bytes) :
  write (PyBytes [x00; x00; x00; x00]) (Spy.inner x) = (Return tt, x1) ->
  byte_source delivers ->
  BufferIO.closed (TFramedTransport.rbuf s) = false ->
  pending (TFramedTransport.rbuf s) = [] ->
  delivers (TFramedTransport.trans s) ([x00; x00; x00; x00] ++ following) ->
  (exists r s',
      TFramedTransport.flush (TFramedTransport.mk x rb (BufferIO.new None)) = (r, s') /\
      Spy.calls (TFramedTransport.trans s')
        = Spy.calls x ++ [Spy.Write (PyBytes [x00; x00; x00; x00]); Spy.Flush]) /\
  (exists s1,
      TFramedTransport.read sz s = (Return [], s1) /\
      delivers (TFramedTransport.trans s1) following /\
      forall payload rest,
        following = frame payload ++ rest -> len payload <= 2147483647 ->
        exists s2,
          TFramedTransport.read sz s1 = (Return (served sz payload), s2) /\
          delivers (TFramedTransport.trans s2) rest).
Proof.
  intros Hwrite Hsource Hopen Hpend Hd. split.
  - pose proof (framed_flush_run (TFramedTransport.mk x rb (BufferIO.new None)) []
                  accumulated_new) as Hrun.
    change (struct.pack_i (len [])) with (Return [x00; x00; x00; x00]) in Hrun.
    cbv beta iota in Hrun. rewrite app_nil_r in Hrun.
    destruct x as [log x0]. cbn in Hwrite.
    cbn [TFramedTransport.trans TFramedTransport.rbuf] in Hrun.
    cbn [TTransportBase.write Spy.transport] in Hrun. unfold Spy.record at 1 in Hrun.
    cbn [Spy.inner Spy.calls] in Hrun. rewrite Hwrite in Hrun.
    cbn [TTransportBase.flush Spy.transport] in Hrun. unfold Spy.record in Hrun.
    cbn [Spy.inner Spy.calls] in Hrun.
    destruct (flush x1) as [r x2].
    eexists r, _. split; [exact Hrun |]. cbn. rewrite <- app_assoc. reflexivity.
  - assert (Hnil : served sz (pending (TFramedTransport.rbuf s)) = [])
      by (rewrite Hpend; apply served_nil).
    destruct (framed_read_miss s sz Hopen Hnil) as (b' & Hread).
    rewrite <- frame_nil in Hd.
    destruct (readFrame_source delivers Hsource
                (TFramedTransport.mk (TFramedTransport.trans s) b' (TFramedTransport.wbuf s))
                [] _ Hd ltac:(rewrite len_nil; lia)) as (x' & Hrf & Hd').
    rewrite (bind_return _ _ _ _ _ Hrf) in Hread.
    set (s1 := TFramedTransport.mk x' (BufferIO.mk [] 0 false) (TFramedTransport.wbuf s)).
    assert (Hread1 : TFramedTransport.read sz s = (Return [], s1)).
    { rewrite Hread. unfold TFramedTransport.on_rbuf, zoom, BufferIO.read,
        BufferIO.check_closed. cbn.
      destruct (sz <? 0); cbn; rewrite ?firstn_nil; reflexivity. }
    exists s1. split; [exact Hread1 |]. split; [exact Hd' |].
    intros payload rest -> Hlen.
    assert (Hnil1 : served sz (pending (TFramedTransport.rbuf s1)) = [])
      by apply served_nil.
    destruct (framed_read_miss s1 sz eq_refl Hnil1) as (b1 & Hread2).
    destruct (readFrame_source delivers Hsource
                (TFramedTransport.mk (TFramedTransport.trans s1) b1 (TFramedTransport.wbuf s1))
                payload rest Hd' Hlen) as (x2 & Hrf2 & Hd2).
    rewrite (bind_return _ _ _ _ _ Hrf2) in Hread2.
    destruct (BufferIO_read_open (BufferIO.new (Some payload)) sz eq_refl)
      as (b2 & Hr & _ & _).
    unfold TFramedTransport.on_rbuf in Hread2.
    rewrite (zoom_run TFramedTransport.rbuf _ _
               (TFramedTransport.mk x2 (BufferIO.new (Some payload)) _) _ _ Hr) in Hread2.
    rewrite pending_new in Hread2.
    eexists. split; [exact Hread2 | exact Hd2].
Qed.

Lemma framed_empty_frame_witness :
  let x := Spy.mk [] (TMemoryBuffer.mk (BufferIO.new None)) in
  let following := frame [x70; x69] in
  let s := TFramedTransport.init
             (TMemoryBuffer.mk (BufferIO.new (Some ([x00; x00; x00; x00] ++ following)))) in
  (exists r s',
      TFramedTransport.flush (TFramedTransport.mk x (BufferIO.new (Some [])) (BufferIO.new None))
        = (r, s') /\
      Spy.calls (TFramedTransport.trans s')
        = Spy.calls x ++ [Spy.Write (PyBytes [x00; x00; x00; x00]); Spy.Flush]) /\
  (exists s1,
      TFramedTransport.read 10 s = (Return [], s1) /\
      Memory.delivers (TFramedTransport.trans s1) following /\
      forall payload rest,
        following = frame payload ++ rest -> len payload <= 2147483647 ->
        exists s2,
          TFramedTransport.read 10 s1 = (Return (served 10 payload), s2) /\
          Memory.delivers (TFramedTransport.trans s2) rest).
Proof.
  intros x following s.
  apply (framed_empty_frame x (BufferIO.new (Some []))
           (TMemoryBuffer.mk (BufferIO.mk [x00; x00; x00; x00] 4 false))
           Memory.delivers s 10 following).
  - reflexivity.
  - exact MemoryFacts.is_source.
  - reflexivity.
  - reflexivity.
  - apply MemoryFacts.delivers_init.
Defined.

(** ** [TSaslClientTransport]: the write side *)

Section SaslFacts.
Context {T : Type} `{Transport T} {C : Type} `{SASLClient C}.
Import TSaslClientTransport.

Lemma sasl_write_bytes (s : t T C) data x :
  accumulated (wbuf s) data ->
  exists b', write (PyBytes x) s = (Return tt, mk (transport s) (sasl s) b' (rbuf s)) /\
             accumulated b' (data ++ x).
Proof.
  intros Hacc. destruct (BufferIO_write_appends _ _ x Hacc) as (b' & Hw & Hacc').
  exists b'. split; [| exact Hacc'].
  unfold write, on_wbuf.
  rewrite (bind_return _ _ _ _ _ (zoom_run wbuf _ _ s _ _ Hw)). reflexivity.
Qed.

(** [flush], step by step: the bytes are wrapped and the length of the
    result is packed; then the join of the two bytes objects raises
    [TypeError].  The inner transport is not reached and the write buffer is
    as it was. *)
Lemma sasl_flush_run (s : t T C) data :
  accumulated (wbuf s) data ->
  flush s =
  match wrap data (sasl s) with
  | (Return encoded, c1) =>
      match struct.pack_i (len encoded) with
      | Return header => (Raise TypeError, mk (transport s) c1 (wbuf s) (rbuf s))
      | Raise e => (Raise e, mk (transport s) c1 (wbuf s) (rbuf s))
      | Diverge => (Diverge, mk (transport s) c1 (wbuf s) (rbuf s))
      end
  | (Raise e, c1) => (Raise e, mk (transport s) c1 (wbuf s) (rbuf s))
  | (Diverge, c1) => (Diverge, mk (transport s) c1 (wbuf s) (rbuf s))
  end.
Proof.
  intros Hacc. unfold flush, on_wbuf.
  rewrite (bind_return _ _ _ _ _
             (zoom_run wbuf _ _ s _ _ (BufferIO_getvalue_accumulated _ _ Hacc))).
  destruct s as [x c wb rb].
  unfold bind, set_wbuf, modify, on_transport, on_sasl, zoom, pure. cbn.
  destruct (wrap data c) as [[encoded | e |] c1]; cbn; [| reflexivity ..].
  destruct (struct.pack_i (len encoded)) as [header | e |]; reflexivity.
Qed.

End SaslFacts.

(** [flush] with the inner transport and the capability on record, [wrap]
    returning bytes whose length can be packed. *)
Lemma sasl_flush_recorded
  {T : Type} `{Transport T} {C : Type} `{SASLClient C}
  (s : TSaslClientTransport.t (Spy.t T) (SaslSpy.t C))
  (data encoded : bytes) (c1 : C) :
  accumulated (TSaslClientTransport.wbuf s) data ->
  wrap data (SaslSpy.inner (TSaslClientTransport.sasl s)) = (Return encoded, c1) ->
  len encoded <= 2147483647 ->
  TSaslClientTransport.flush s
    = (Raise TypeError,
       TSaslClientTransport.mk (TSaslClientTransport.transport s)
         (SaslSpy.mk (SaslSpy.calls (TSaslClientTransport.sasl s) ++ [SaslSpy.Wrap data]) c1)
         (TSaslClientTransport.wbuf s) (TSaslClientTransport.rbuf s)).
Proof.
  intros Hacc Hwrap Hlen.
  rewrite (sasl_flush_run s data Hacc).
  destruct s as [x [clog c] wb rb].
  cbn [TSaslClientTransport.transport TSaslClientTransport.sasl TSaslClientTransport.wbuf
         TSaslClientTransport.rbuf SaslSpy.inner SaslSpy.calls] in *.
  cbn [wrap SaslSpy.client]. unfold SaslSpy.record.
  cbn [SaslSpy.inner SaslSpy.calls]. rewrite Hwrap.
  rewrite (StructFacts.pack_i_len encoded Hlen). reflexivity.
Qed.

(** ** When the write buffer is emptied *)

(** C6, as stated, fails: a Buffered and a Framed Transport over a memory
    buffer that has been closed, one byte written.  [flush] raises the
    [ValueError] of the inner [write], and the transport is left as it was
    created, the write buffer empty: the byte is gone. *)
Lemma flush_failure_counterexample :
  let closed_inner := TMemoryBuffer.mk (BufferIO.mk [] 0 true) in
  (TBufferedTransport.write (PyBytes [x70]) ;; TBufferedTransport.flush)
    (TBufferedTransport.init closed_inner 4096)
  = (Raise ValueError, TBufferedTransport.init closed_inner 4096) /\
  (TFramedTransport.write (PyBytes [x70]) ;; TFramedTransport.flush)
    (TFramedTransport.init closed_inner)
  = (Raise ValueError, TFramedTransport.init closed_inner) /\
  TBufferedTransport.wbuf
    (snd (TBufferedTransport.write (PyBytes [x70])
            (TBufferedTransport.init closed_inner 4096)))
  = BufferIO.mk [x70] 1 false.
Proof. repeat split. Qed.

Lemma spy_write_calls {T : Type} `{Transport T} (x : Spy.t T) buf r x' :
  write buf x = (r, x') -> Spy.calls x' = Spy.calls x ++ [Spy.Write buf].
Proof.
  destruct x as [log x0]. cbn. unfold Spy.record. cbn.
  destruct (write buf x0). intros [= _ <-]. reflexivity.
Qed.

Lemma spy_flush_calls {T : Type} `{Transport T} (x : Spy.t T) r x' :
  flush x = (r, x') -> Spy.calls x' = Spy.calls x ++ [Spy.Flush].
Proof.
  destruct x as [log x0]. cbn. unfold Spy.record. cbn.
  destruct (flush x0). intros [= _ <-]. reflexivity.
Qed.

(** C6, amended.  The Buffered and the Framed Transport replace the write
    buffer by an empty one before they call the inner transport: after
    [flush], whatever its outcome, the write buffer is empty.  The
    Security-Negotiated Transport replaces it last: it is empty after a
    [flush] that returns, and as it was after one that does not.  In all
    three the inner transport gets, of the bytes buffered, nothing or all of
    them in one [write] call (framed, and wrapped first, as the transport
    does).  A [write] of the Buffered Transport that raises leaves the write
    buffer empty. *)
Theorem write_buffer_after_flush
  {T : Type} `{Transport T} {C : Type} `{SASLClient C} :
  (forall (s : TBufferedTransport.t (Spy.t T)) data r s',
      accumulated (TBufferedTransport.wbuf s) data ->
      TBufferedTransport.flush s = (r, s') ->
      TBufferedTransport.wbuf s' = BufferIO.new None /\
      exists after,
        Spy.calls (TBufferedTransport.trans s')
          = Spy.calls (TBufferedTransport.trans s) ++ Spy.Write (PyBytes data) :: after /\
        (after = [] \/ after = [Spy.Flush])) /\
  (forall (s : TFramedTransport.t (Spy.t T)) data r s',
      accumulated (TFramedTransport.wbuf s) data ->
      TFramedTransport.flush s = (r, s') ->
      TFramedTransport.wbuf s' = BufferIO.new None /\
      (Spy.calls (TFramedTransport.trans s') = Spy.calls (TFramedTransport.trans s) \/
       exists after,
         Spy.calls (TFramedTransport.trans s')
           = Spy.calls (TFramedTransport.trans s) ++ Spy.Write (PyBytes (frame data)) :: after /\
         (after = [] \/ after = [Spy.Flush]))) /\
  (forall (s : TSaslClientTransport.t (Spy.t T) C) data r s',
      accumulated (TSaslClientTransport.wbuf s) data ->
      TSaslClientTransport.flush s = (r, s') ->
      (r = Return tt -> TSaslClientTransport.wbuf s' = BufferIO.new None) /\
      (r <> Return tt -> TSaslClientTransport.wbuf s' = TSaslClientTransport.wbuf s) /\
      (Spy.calls (TSaslClientTransport.transport s')
         = Spy.calls (TSaslClientTransport.transport s) \/
       exists encoded c1 after,
         wrap data (TSaslClientTransport.sasl s) = (Return encoded, c1) /\
         Spy.calls (TSaslClientTransport.transport s')
           = Spy.calls (TSaslClientTransport.transport s)
               ++ Spy.Write (PyBytes (frame encoded)) :: after /\
         (after = [] \/ after = [Spy.Flush]))) /\
  (forall (s : TBufferedTransport.t T) buf e s',
      TBufferedTransport.write buf s = (Raise e, s') ->
      TBufferedTransport.wbuf s' = BufferIO.new None).
Proof.
  split; [| split; [| split]].
  - intros s data r s' Hacc Hrun. rewrite (buffered_flush_run s data Hacc) in Hrun.
    destruct (write (PyBytes data) (TBufferedTransport.trans s)) as [[[] | e |] x1] eqn:Ew;
      apply spy_write_calls in Ew.
    + destruct (flush x1) as [r0 x2] eqn:Ef. apply spy_flush_calls in Ef.
      injection Hrun as <- <-. split; [reflexivity |].
      exists [Spy.Flush]. cbn [TBufferedTransport.trans].
      rewrite Ef, Ew, <- app_assoc. split; [reflexivity | right; reflexivity].
    + injection Hrun as <- <-. split; [reflexivity |].
      exists []. split; [exact Ew | left; reflexivity].
    + injection Hrun as <- <-. split; [reflexivity |].
      exists []. split; [exact Ew | left; reflexivity].
  - intros s data r s' Hacc Hrun. rewrite (framed_flush_run s data Hacc) in Hrun.
    unfold struct.pack_i in Hrun. unfold frame.
    destruct ((-2147483648 <=? len data) && (len data <=? 2147483647)).
    + destruct (write (PyBytes (struct.be32 (len data) ++ data)) (TFramedTransport.trans s))
        as [[[] | e |] x1] eqn:Ew; apply spy_write_calls in Ew.
      * destruct (flush x1) as [r0 x2] eqn:Ef. apply spy_flush_calls in Ef.
        injection Hrun as <- <-. split; [reflexivity |]. right.
        exists [Spy.Flush]. cbn [TFramedTransport.trans].
        rewrite Ef, Ew, <- app_assoc. split; [reflexivity | right; reflexivity].
      * injection Hrun as <- <-. split; [reflexivity |]. right.
        exists []. split; [exact Ew | left; reflexivity].
      * injection Hrun as <- <-. split; [reflexivity |]. right.
        exists []. split; [exact Ew | left; reflexivity].
    + injection Hrun as <- <-. split; [reflexivity | left; reflexivity].
  - intros s data r s' Hacc Hrun. rewrite (sasl_flush_run s data Hacc) in Hrun.
    destruct (wrap data (TSaslClientTransport.sasl s)) as [[encoded | e |] c1] eqn:Ewrap;
      [| injection Hrun as <- <-;
         (split; [discriminate | split; [reflexivity | left; reflexivity]]) ..].
    destruct (struct.pack_i (len encoded)) as [header | e |];
      injection Hrun as <- <-;
      (split; [discriminate | split; [reflexivity | left; reflexivity]]).
  - intros s buf e s' Hrun. apply buffered_write_failure in Hrun. subst s'. reflexivity.
Qed.

Lemma write_buffer_after_flush_witness :
  let closed_inner := Spy.mk [] (TMemoryBuffer.mk (BufferIO.mk [] 0 true)) in
  let s := TBufferedTransport.mk closed_inner (BufferIO.mk [x70] 1 false)
             (BufferIO.new (Some [])) 4096 in
  let s' := TBufferedTransport.mk
              (Spy.mk [Spy.Write (PyBytes [x70])] (TMemoryBuffer.mk (BufferIO.mk [] 0 true)))
              (BufferIO.new None) (BufferIO.new (Some [])) 4096 in
  TBufferedTransport.wbuf s' = BufferIO.new None /\
  exists after,
    Spy.calls (TBufferedTransport.trans s')
      = Spy.calls (TBufferedTransport.trans s) ++ Spy.Write (PyBytes [x70]) :: after /\
    (after = [] \/ after = [Spy.Flush]).
Proof.
  intros closed_inner s s'.
  destruct (write_buffer_after_flush (T:=TMemoryBuffer.t) (C:=Fixture.client))
    as (Hbuffered & _).
  apply (Hbuffered s [x70] (Raise ValueError) s'); reflexivity.
Defined.

(** ** The handshake *)

Section HandshakeFacts.
Context {T : Type} `{Transport T} {C : Type} `{SASLClient C}.
Import TSaslClientTransport.

Lemma negotiate_unfold fuel :
  negotiate (T:=T) (C:=C) (S fuel) =
  ('(status, challenge) <- recv_sasl_msg ;;
   if status =? OK then
     response <- on_sasl (process (Some challenge)) ;;
     send_sasl_msg OK response ;;
     negotiate fuel
   else if status =? COMPLETE then
     done <- gets (fun self => complete (sasl self)) ;;
     if negb done then
       raise (TTransportException TTransportException.NOT_OPEN ErroneousComplete)
     else ret tt
   else
     raise (TTransportException TTransportException.NOT_OPEN
              (BadStatus status challenge))).
Proof. reflexivity. Qed.

(** After any number of [OK] rounds, a message whose status is not [OK], and
    is not a [COMPLETE] that the capability confirms, ends the loop with
    [NOT_OPEN], in the state the reception of the message left. *)
Lemma negotiate_refuses (s s2 : t T C) n : ok_rounds s n s2 ->
  forall status challenge s3 fuel,
  recv_sasl_msg s2 = (Return (status, challenge), s3) ->
  status <> OK -> (status = COMPLETE -> complete (sasl s3) = false) ->
  (n < fuel)%nat ->
  negotiate fuel s = (Raise (refusal status challenge), s3).
Proof.
  induction 1 as [s | s challenge0 s1 response sa sb n s4 Hrecv Hproc Hsend Hrounds IH];
    intros status challenge s3 fuel Hlast Hnok Hcomplete Hfuel;
    (destruct fuel as [| fuel]; [lia |]); rewrite negotiate_unfold.
  - rewrite (bind_return _ _ _ _ _ Hlast). cbv beta iota.
    destruct (Z.eqb_spec status OK) as [E | _]; [contradiction |].
    unfold refusal.
    destruct (Z.eqb_spec status COMPLETE) as [E | _].
    + specialize (Hcomplete E). unfold bind, gets. rewrite Hcomplete. reflexivity.
    + reflexivity.
  - rewrite (bind_return _ _ _ _ _ Hrecv). cbv beta iota.
    change (OK =? OK) with true. cbv iota.
    rewrite (bind_return _ _ _ _ _ Hproc), (bind_return _ _ _ _ _ Hsend).
    apply IH; [assumption .. | lia].
Qed.

(** The same for [open], once its statements before the loop have run. *)
Lemma open_refuses (s0 s1 s2 : t T C) n status challenge s3 fuel :
  greet s0 = (Return tt, s1) -> ok_rounds s1 n s2 ->
  recv_sasl_msg s2 = (Return (status, challenge), s3) ->
  status <> OK -> (status = COMPLETE -> complete (sasl s3) = false) ->
  (n < fuel)%nat ->
  open fuel s0 = (Raise (refusal status challenge), s3).
Proof.
  intros Hgreet Hrounds Hlast Hnok Hcomplete Hfuel. unfold open.
  rewrite (bind_return _ _ _ _ _ Hgreet).
  exact (negotiate_refuses _ _ _ Hrounds _ _ _ _ Hlast Hnok Hcomplete Hfuel).
Qed.

End HandshakeFacts.

(** ** What the handshake puts on the inner transport *)

Section HandshakeTraffic.
Context {T : Type} `{Transport T} {C : Type} `{SASLClient C}.
Import TSaslClientTransport.

Lemma handshake_only_refl (s : t (Spy.t T) (SaslSpy.t C)) : handshake_only s s.
Proof.
  repeat split; try (exists []; rewrite app_nil_r; split; [reflexivity | constructor]).
Qed.

Lemma handshake_only_trans (s1 s2 s3 : t (Spy.t T) (SaslSpy.t C)) :
  handshake_only s1 s2 -> handshake_only s2 s3 -> handshake_only s1 s3.
Proof.
  intros ((c1 & E1 & F1) & (d1 & G1 & P1) & W1 & R1)
         ((c2 & E2 & F2) & (d2 & G2 & P2) & W2 & R2).
  repeat split.
  - exists (c1 ++ c2). rewrite E2, E1, app_assoc. split; [reflexivity |].
    apply Forall_app. split; assumption.
  - exists (d1 ++ d2). rewrite G2, G1, app_assoc. split; [reflexivity |].
    apply Forall_app. split; assumption.
  - congruence.
  - congruence.
Qed.

Lemma keeps_ret {A : Type} (a : A) : keeps_to_handshake (T:=T) (C:=C) (ret a).
Proof. intros s r s' [= _ <-]. apply handshake_only_refl. Qed.

Lemma keeps_raise {A : Type} e : keeps_to_handshake (T:=T) (C:=C) (A:=A) (raise e).
Proof. intros s r s' [= _ <-]. apply handshake_only_refl. Qed.

Lemma keeps_pure {A : Type} (o : outcome A) : keeps_to_handshake (T:=T) (C:=C) (pure o).
Proof. intros s r s' [= _ <-]. apply handshake_only_refl. Qed.

Lemma keeps_gets {A : Type} (f : t (Spy.t T) (SaslSpy.t C) -> A) : keeps_to_handshake (gets f).
Proof. intros s r s' [= _ <-]. apply handshake_only_refl. Qed.

Lemma keeps_bind {A B : Type} (m : M (t (Spy.t T) (SaslSpy.t C)) A)
  (k : A -> M (t (Spy.t T) (SaslSpy.t C)) B) :
  keeps_to_handshake m -> (forall a, keeps_to_handshake (k a)) ->
  keeps_to_handshake (bind m k).
Proof.
  intros Hm Hk s r s'. unfold bind.
  destruct (m s) as [[a | e |] s1] eqn:E; specialize (Hm _ _ _ E).
  - intros Hrun. exact (handshake_only_trans _ _ _ Hm (Hk a _ _ _ Hrun)).
  - intros [= _ <-]. exact Hm.
  - intros [= _ <-]. exact Hm.
Qed.

Lemma calls_all_record {A : Type} (P : Spy.call -> Prop) c (m : M T A) :
  P c -> calls_all P (Spy.record c m).
Proof.
  intros Hc [log x] r x'. unfold Spy.record. cbn. destruct (m x) as [r0 x0].
  intros [= _ <-]. exists [c]. split; [reflexivity | repeat constructor; exact Hc].
Qed.

Lemma calls_all_readAll_loop fuel : forall sz have buff,
  calls_all (T:=T) handshake_call (readAll_loop fuel sz have buff).
Proof.
  induction fuel as [| fuel IH]; intros sz have buff x r x';
    rewrite readAll_loop_unfold; destruct (have <? sz);
    try (intros [= _ <-]; exists []; rewrite app_nil_r; split; [reflexivity | constructor]).
  unfold bind. destruct (TTransportBase.read (sz - have) x) as [[chunk | e |] x1] eqn:E;
    apply (calls_all_record handshake_call (Spy.Read (sz - have)) _ I) in E;
    destruct E as (c1 & E1 & F1).
  - destruct (len chunk =? 0).
    + intros [= _ <-]. exists c1. split; assumption.
    + intros Hrun. destruct (IH _ _ _ _ _ _ Hrun) as (c2 & E2 & F2).
      exists (c1 ++ c2). rewrite E2, E1, app_assoc. split; [reflexivity |].
      apply Forall_app. split; assumption.
  - intros [= _ <-]. exists c1. split; assumption.
  - intros [= _ <-]. exists c1. split; assumption.
Qed.

Lemma calls_all_readAll sz : calls_all (T:=T) handshake_call (readAll sz).
Proof. apply calls_all_readAll_loop. Qed.

Lemma keeps_on_transport {A : Type} (m : M (Spy.t T) A) :
  calls_all handshake_call m -> keeps_to_handshake (C:=C) (on_transport m).
Proof.
  intros Hm [x c wb rb] r s'. unfold on_transport, zoom. cbn.
  destruct (m x) as [r0 x0] eqn:E. intros [= _ <-].
  destruct (Hm _ _ _ E) as (calls & Ec & Fc).
  repeat split; cbn.
  - exists calls. split; assumption.
  - exists []. rewrite app_nil_r. split; [reflexivity | constructor].
Qed.

Lemma keeps_process challenge :
  keeps_to_handshake (T:=T) (C:=C) (on_sasl (process challenge)).
Proof.
  intros [x [clog c] wb rb] r s'. unfold on_sasl, zoom. cbn. unfold SaslSpy.record. cbn.
  destruct (process challenge c) as [r0 c0]. intros [= _ <-].
  repeat split; cbn.
  - exists []. rewrite app_nil_r. split; [reflexivity | constructor].
  - exists [SaslSpy.Process challenge]. split; [reflexivity | repeat constructor].
Qed.

Lemma keeps_send_sasl_msg status body :
  status = START \/ status = OK ->
  keeps_to_handshake (T:=T) (C:=C) (send_sasl_msg status body).
Proof.
  intros Hstatus. unfold send_sasl_msg.
  intros s r s'. unfold bind at 1. unfold pure at 1.
  destruct (struct.pack_BI status (len body)) as [header | e |] eqn:Epack;
    try (intros [= _ <-]; apply handshake_only_refl).
  revert s r s'. apply keeps_bind; [| intros _].
  - apply keeps_on_transport. apply calls_all_record.
    exists status, body, header. repeat split; assumption.
  - apply keeps_on_transport. apply calls_all_record. exact I.
Qed.

Lemma keeps_recv_sasl_msg : keeps_to_handshake (T:=T) (C:=C) recv_sasl_msg.
Proof.
  unfold recv_sasl_msg. apply keeps_bind; [| intros header].
  - apply keeps_on_transport, calls_all_readAll.
  - apply keeps_bind; [apply keeps_pure | intros [status length]].
    destruct (length >? 0).
    + apply keeps_bind; [| intros payload; apply keeps_ret].
      apply keeps_on_transport, calls_all_readAll.
    + apply keeps_ret.
Qed.

Lemma keeps_negotiate fuel : keeps_to_handshake (T:=T) (C:=C) (negotiate fuel).
Proof.
  induction fuel as [| fuel IH].
  - intros s r s' [= _ <-]. apply handshake_only_refl.
  - rewrite negotiate_unfold.
    apply keeps_bind; [apply keeps_recv_sasl_msg | intros [status challenge]].
    destruct (status =? OK).
    + apply keeps_bind; [apply keeps_process | intros response].
      apply keeps_bind; [| intros _; exact IH].
      apply keeps_send_sasl_msg. right. reflexivity.
    + destruct (status =? COMPLETE); [| apply keeps_raise].
      apply keeps_bind; [apply keeps_gets | intros done].
      destruct (negb done); [apply keeps_raise | apply keeps_ret].
Qed.

Lemma keeps_greet : keeps_to_handshake (T:=T) (C:=C) greet.
Proof.
  unfold greet. apply keeps_bind; [| intros opened].
  - apply keeps_on_transport. apply calls_all_record. exact I.
  - apply keeps_bind; [| intros _].
    + destruct (negb opened); [| apply keeps_ret].
      apply keeps_on_transport. apply calls_all_record. exact I.
    + apply keeps_bind; [apply keeps_gets | intros name].
      apply keeps_bind; [apply keeps_send_sasl_msg; left; reflexivity | intros _].
      apply keeps_bind; [apply keeps_process | intros token].
      apply keeps_send_sasl_msg. right. reflexivity.
Qed.

(** Whatever the outcome of [open], it has put nothing but handshake
    messages on the inner transport and has not called [wrap]. *)
Lemma keeps_open fuel : keeps_to_handshake (T:=T) (C:=C) (open fuel).
Proof.
  unfold open. apply keeps_bind; [apply keeps_greet | intros _; apply keeps_negotiate].
Qed.

End HandshakeTraffic.

(** C4.  [open] of the Security-Negotiated Transport, the inner transport and
    the capability on record.  Its statements before the loop have run; the
    loop has gone through any number of [OK] rounds; then a message arrives
    whose status is not [OK] and either is not [COMPLETE] ([BAD], [ERROR] or
    any other number) or is [COMPLETE] while the capability reports that the
    negotiation is not complete.  Then [open] raises a [TTransportException]
    of type [NOT_OPEN]; the transport is left in the state the reception of
    that message left it in; and from the beginning of [open] to there the
    inner transport has had handshake messages written to it only, the
    capability's [wrap] has not been called, and the buffers are untouched:
    no data frame has been sent. *)
Theorem sasl_open_refuses
  {T : Type} `{Transport T} {C : Type} `{SASLClient C}
  (s0 s1 s2 s3 : TSaslClientTransport.t (Spy.t T) (SaslSpy.t C))
  (n fuel : nat) (status : Z) (challenge : pyobject) :
  TSaslClientTransport.greet s0 = (Return tt, s1) ->
  ok_rounds s1 n s2 ->
  TSaslClientTransport.recv_sasl_msg s2 = (Return (status, challenge), s3) ->
  status <> TSaslClientTransport.OK ->
  (status = TSaslClientTransport.COMPLETE ->
   complete (TSaslClientTransport.sasl s3) = false) ->
  (n < fuel)%nat ->
  TSaslClientTransport.open fuel s0
    = (Raise (TTransportException TTransportException.NOT_OPEN
                (if status =? TSaslClientTransport.COMPLETE then ErroneousComplete
                 else BadStatus status challenge)),
       s3) /\
  handshake_only s0 s3.
Proof.
  intros Hgreet Hrounds Hlast Hnok Hcomplete Hfuel.
  pose proof (open_refuses s0 s1 s2 n status challenge s3 fuel
                Hgreet Hrounds Hlast Hnok Hcomplete Hfuel) as Hopen.
  split; [exact Hopen |]. exact (keeps_open fuel _ _ _ Hopen).
Qed.

(** One [OK] round, then a message of status [BAD]. *)
Lemma sasl_open_refuses_witness :
  TSaslClientTransport.open 2 Rehearsal.refused_start
    = (Raise (TTransportException TTransportException.NOT_OPEN
                (BadStatus TSaslClientTransport.BAD (PyBytes [x6e; x6f]))),
       Rehearsal.refused_end) /\
  handshake_only Rehearsal.refused_start Rehearsal.refused_end.
Proof.
  apply (sasl_open_refuses Rehearsal.refused_start Rehearsal.refused_greeted
           Rehearsal.refused_answered Rehearsal.refused_end
           1 2 TSaslClientTransport.BAD (PyBytes [x6e; x6f])).
  - vm_compute. reflexivity.
  - apply (ok_rounds_more Rehearsal.refused_greeted (PyBytes [x63]) Rehearsal.refused_received
             [x63] Rehearsal.refused_processed Rehearsal.refused_answered 0
             Rehearsal.refused_answered).
    + vm_compute. reflexivity.
    + vm_compute. reflexivity.
    + vm_compute. reflexivity.
    + apply ok_rounds_none.
  - vm_compute. reflexivity.
  - discriminate.
  - discriminate.
  - lia.
Defined.

(** The other refusal: [COMPLETE] from the server while the capability has a
    round to go. *)
Example open_complete_too_early :
  fst (TSaslClientTransport.open 1
         (TSaslClientTransport.init
            (Fixture.mk_link [x05; x00; x00; x00; x00] [] true) (Fixture.mk_client 2)))
  = Raise (TTransportException TTransportException.NOT_OPEN ErroneousComplete).
Proof. reflexivity. Qed.

(** And the handshake that succeeds. *)
Example open_succeeds :
  fst (TSaslClientTransport.open 2
         (TSaslClientTransport.init
            (Fixture.mk_link ([x02; x00; x00; x00; x01; x63] ++ [x05; x00; x00; x00; x00])
               [] true)
            (Fixture.mk_client 2)))
  = Return tt.
Proof. reflexivity. Qed.

(** ** [TFileObjectTransport] *)

(** C9.  Whatever the wrapped file object and whatever calls have been made on
    the File-Backed Transport, [isOpen] returns [True] and changes nothing; so
    it does once [close] has been called, too. *)
Theorem file_object_transport_is_always_open
  {F : Type} `{FileObject F} (fileobj : F) (requests : list request) :
  let s := after requests (TFileObjectTransport.init fileobj) in
  TFileObjectTransport.isOpen s = (Return true, s) /\
  TFileObjectTransport.isOpen (snd (TFileObjectTransport.close s))
    = (Return true, snd (TFileObjectTransport.close s)).
Proof.
  intros s. split.
  - generalize s. intros s'. reflexivity.
  - destruct (TFileObjectTransport.close s) as [r s']. reflexivity.
Qed.

(** Over an in-memory stream: after [close] the stream is closed and [read]
    raises, while [isOpen] goes on returning [True]. *)
Example file_object_closed_yet_open :
  let s := after [DoWrite (PyBytes [x70]); DoClose]
             (TFileObjectTransport.init (BufferIO.new None)) in
  BufferIO.closed (TFileObjectTransport.fileobj s) = true /\
  fst (TFileObjectTransport.read 1 s) = Raise ValueError /\
  fst (TFileObjectTransport.isOpen s) = Return true.
Proof. repeat split. Qed.

(** ** [flush] after the handshake *)

Lemma sasl_write_each_accumulates
  {T : Type} `{Transport T} {C : Type} `{SASLClient C} (bufs : list bytes) :
  forall (s : TSaslClientTransport.t T C) data,
  accumulated (TSaslClientTransport.wbuf s) data ->
  exists b',
    sasl_write_each bufs s
      = (Return tt,
         TSaslClientTransport.mk (TSaslClientTransport.transport s)
           (TSaslClientTransport.sasl s) b' (TSaslClientTransport.rbuf s)) /\
    accumulated b' (data ++ concat bufs).
Proof.
  induction bufs as [| x bufs IH]; intros s data Hacc.
  - exists (TSaslClientTransport.wbuf s). cbn [concat sasl_write_each]. rewrite app_nil_r.
    destruct s; split; [reflexivity | exact Hacc].
  - destruct (sasl_write_bytes s data x Hacc) as (b1 & Hw & Hacc1).
    cbn [sasl_write_each]. rewrite (bind_return _ _ _ _ _ Hw).
    destruct (IH (TSaslClientTransport.mk (TSaslClientTransport.transport s)
                    (TSaslClientTransport.sasl s) b1 (TSaslClientTransport.rbuf s))
                (data ++ x) Hacc1) as (b' & Hrun & Hacc').
    exists b'. cbn [concat]. rewrite app_assoc. split; assumption.
Qed.

(** C5, as the code runs.  The Security-Negotiated Transport, created with
    an empty write buffer, the inner transport and the capability on record.
    [open] has returned: the handshake has succeeded.  The caller writes
    byte strings and calls [flush].  The capability's [wrap] is called once,
    on the bytes written, in order, and the length of the wrapped bytes is
    packed; then [flush] raises [TypeError], at the join of the two bytes
    objects with a text separator.  The inner transport has had no call:
    nothing is written to it and it is not flushed; and the write buffer
    still holds the bytes written. *)
Theorem sasl_flush_raises_at_join
  {T : Type} `{Transport T} {C : Type} `{SASLClient C}
  (s0 s1 : TSaslClientTransport.t (Spy.t T) (SaslSpy.t C)) (fuel : nat)
  (bufs : list bytes) (encoded : bytes) (c1 : C) :
  TSaslClientTransport.wbuf s0 = BufferIO.new None ->
  TSaslClientTransport.open fuel s0 = (Return tt, s1) ->
  wrap (concat bufs) (SaslSpy.inner (TSaslClientTransport.sasl s1)) = (Return encoded, c1) ->
  len encoded <= 2147483647 ->
  exists s2 s3,
    sasl_write_each bufs s1 = (Return tt, s2) /\
    TSaslClientTransport.flush s2 = (Raise TypeError, s3) /\
    SaslSpy.calls (TSaslClientTransport.sasl s3)
      = SaslSpy.calls (TSaslClientTransport.sasl s1) ++ [SaslSpy.Wrap (concat bufs)] /\
    struct.pack_i (len encoded) = Return (struct.be32 (len encoded)) /\
    TSaslClientTransport.transport s3 = TSaslClientTransport.transport s1 /\
    accumulated (TSaslClientTransport.wbuf s3) (concat bufs).
Proof.
  intros Hw0 Hopen Hwrap Hlen.
  destruct (keeps_open fuel _ _ _ Hopen) as (_ & _ & Hwbuf & _).
  destruct (sasl_write_each_accumulates bufs s1 []
              ltac:(rewrite Hwbuf, Hw0; apply accumulated_new)) as (b' & Hrun & Hacc).
  rewrite app_nil_l in Hacc.
  set (s2 := TSaslClientTransport.mk (TSaslClientTransport.transport s1)
               (TSaslClientTransport.sasl s1) b' (TSaslClientTransport.rbuf s1)) in *.
  pose proof (sasl_flush_recorded s2 (concat bufs) encoded c1 Hacc Hwrap Hlen) as Hf.
  exists s2. eexists. split; [exact Hrun |]. split; [exact Hf |].
  cbn [TSaslClientTransport.transport TSaslClientTransport.sasl TSaslClientTransport.wbuf
         SaslSpy.calls s2].
  split; [reflexivity |]. split; [exact (StructFacts.pack_i_len encoded Hlen) |].
  split; [reflexivity | exact Hacc].
Qed.

(** One [OK] round and [COMPLETE], then ["pi"] and ["ng"] written and
    [flush] called. *)
Lemma sasl_flush_raises_at_join_witness :
  let s1 := Rehearsal.accepted_opened in
  let bufs := [[x70; x69]; [x6e; x67]] in
  let encoded := [x2a; x70; x69; x6e; x67] in
  exists s2 s3,
    sasl_write_each bufs s1 = (Return tt, s2) /\
    TSaslClientTransport.flush s2 = (Raise TypeError, s3) /\
    SaslSpy.calls (TSaslClientTransport.sasl s3)
      = SaslSpy.calls (TSaslClientTransport.sasl s1) ++ [SaslSpy.Wrap (concat bufs)] /\
    struct.pack_i (len encoded) = Return (struct.be32 (len encoded)) /\
    TSaslClientTransport.transport s3 = TSaslClientTransport.transport s1 /\
    accumulated (TSaslClientTransport.wbuf s3) (concat bufs).
Proof.
  intros s1 bufs encoded.
  apply (sasl_flush_raises_at_join Rehearsal.accepted_start s1 2 bufs encoded
           (Fixture.mk_client 0)).
  - reflexivity.
  - vm_compute. reflexivity.
  - vm_compute. reflexivity.
  - vm_compute. discriminate.
Defined.

(** ** The scenarios of the specification, computed *)

Example pack_i_4 : struct.pack_i 4 = Return [x00; x00; x00; x04].
Proof. reflexivity. Qed.

Example pack_i_minus_2 : struct.pack_i (-2) = Return [xff; xff; xff; xfe].
Proof. reflexivity. Qed.

Example unpack_i_minus_2 : struct.unpack_i [xff; xff; xff; xfe] = Return (-2).
Proof. reflexivity. Qed.

Example pack_i_too_big : struct.pack_i 2147483648 = Raise struct_error.
Proof. reflexivity. Qed.

(** A memory buffer seeded with ["hello"]: [read(3)] gives ["hel"], then
    [read(10)] gives ["lo"], then [read(1)] gives the empty string; and
    [readAll(1)] there raises [EOFError]. *)
Example memory_hello :
  let hello := [x68; x65; x6c; x6c; x6f] in
  let s0 := TMemoryBuffer.mk (BufferIO.new (Some hello)) in
  let s1 := snd (TMemoryBuffer.read 3 s0) in
  let s2 := snd (TMemoryBuffer.read 10 s1) in
  fst (TMemoryBuffer.read 3 s0) = Return [x68; x65; x6c] /\
  fst (TMemoryBuffer.read 10 s1) = Return [x6c; x6f] /\
  fst (TMemoryBuffer.read 1 s2) = Return [] /\
  fst (readAll 1 s2) = Raise EOFError.
Proof. vm_compute. repeat split. Qed.

(** A Framed Transport over a memory buffer: [write(b"ping")] then [flush()]
    leaves 00 00 00 04 "ping" in the buffer. *)
Example framed_ping :
  let ping := [x70; x69; x6e; x67] in
  let s := snd (send_each [ping] (TFramedTransport.init (TMemoryBuffer.mk (BufferIO.new None)))) in
  fst (TMemoryBuffer.getvalue (TFramedTransport.trans s))
  = Return ([x00; x00; x00; x04] ++ ping).
Proof. vm_compute. reflexivity. Qed.

(** A frame whose length field is negative is read as an empty frame:
    [readAll] of a negative count returns at once. *)
Example framed_negative_length :
  let s := TFramedTransport.init
             (TMemoryBuffer.mk (BufferIO.new (Some [xff; xff; xff; xff; x70]))) in
  fst (TFramedTransport.read 4 s) = Return [].
Proof. vm_compute. reflexivity. Qed.

(** * Further properties *)

(** ** [readAll] on sources and streams *)

(** X1.  Over a source of bytes, however it cuts its reads, [readAll(sz)]
    returns exactly the next [sz] bytes and leaves the source at the byte
    after them; when fewer than [sz] bytes are left it raises [EOFError]. *)
Theorem readAll_takes_next_bytes
  {T : Type} `{Transport T} (delivers : T -> bytes -> Prop) (s : T) (w : bytes)
  (sz : Z) :
  byte_source delivers -> delivers s w -> 0 <= sz ->
  (sz <= len w ->
   exists s', readAll sz s = (Return (firstn (Z.to_nat sz) w), s') /\
              delivers s' (skipn (Z.to_nat sz) w)) /\
  (len w < sz -> exists s', readAll sz s = (Raise EOFError, s')).
Proof.
  intros Hsource Hd Hsz. split.
  - intros Hle. apply (readAll_source delivers Hsource).
    + rewrite firstn_skipn. exact Hd.
    + unfold len in *. rewrite length_firstn. lia.
  - intros Hlt. exact (readAll_source_short delivers Hsource sz s w Hd Hlt).
Qed.

Lemma readAll_takes_next_bytes_witness :
  let hello := [x68; x65; x6c; x6c; x6f] in
  let s := TMemoryBuffer.mk (BufferIO.new (Some hello)) in
  (3 <= len hello ->
   exists s', readAll 3 s = (Return (firstn (Z.to_nat 3) hello), s') /\
              Memory.delivers s' (skipn (Z.to_nat 3) hello)) /\
  (len hello < 3 -> exists s', readAll 3 s = (Raise EOFError, s')).
Proof.
  intros hello s.
  apply (readAll_takes_next_bytes Memory.delivers s hello 3).
  - exact MemoryFacts.is_source.
  - apply MemoryFacts.delivers_init.
  - lia.
Defined.

Lemma source_is_stream {T : Type} `{Transport T} (delivers : T -> bytes -> Prop) :
  byte_source delivers -> byte_stream delivers.
Proof.
  intros Hs s w k Hd Hk Hw.
  destruct (Hs s w k Hd Hk) as (chunk & w' & s' & Hr & Hlen & Hne & Hsplit & Hd').
  exists chunk, w', s'. repeat split; try assumption. exact (Hne Hw).
Qed.

Section StreamFacts.
Context {T : Type} `{Transport T}.
Variable delivers : T -> bytes -> Prop.
Hypothesis stream : byte_stream delivers.

Lemma readAll_loop_stream fuel : forall sz have buff s a b,
  delivers s (a ++ b) -> sz - have <= Z.of_nat fuel -> len a = sz - have ->
  exists s', readAll_loop fuel sz have buff s = (Return (buff ++ a), s') /\
             delivers s' b.
Proof.
  induction fuel as [| fuel IH]; intros sz have buff s a b Hd Hfuel Ha;
    rewrite readAll_loop_unfold; pose proof (len_nonneg a) as Hna;
    destruct (Z.ltb_spec have sz) as [Hlt | Hge]; try lia.
  - assert (a = []) by (apply len_zero_nil; lia). subst a.
    exists s. rewrite app_nil_r. split; [reflexivity | exact Hd].
  - assert (Hne : a ++ b <> []).
    { intros E. apply app_eq_nil in E. destruct E as [-> _]. rewrite len_nil in Ha. lia. }
    destruct (stream s (a ++ b) (sz - have) Hd ltac:(lia) Hne)
      as (chunk & w' & s1 & Hr & Hk & Hc & Hw & Hd1).
    rewrite (bind_return _ _ _ _ _ Hr). apply len_nonempty in Hc.
    destruct (Z.eqb_spec (len chunk) 0) as [E0 | E0]; [lia |].
    symmetry in Hw.
    destruct (app_split_prefix _ _ _ _ Hw ltac:(lia)) as (a' & -> & ->).
    rewrite len_app in Ha.
    destruct (IH sz (have + len chunk) (buff ++ chunk) s1 a' b Hd1 ltac:(lia) ltac:(lia))
      as (s' & Hrun & Hd').
    exists s'. rewrite Hrun, <- app_assoc. split; [reflexivity | exact Hd'].
  - assert (a = []) by (apply len_zero_nil; lia). subst a.
    exists s. rewrite app_nil_r. split; [reflexivity | exact Hd].
Qed.

Lemma readAll_stream sz s a b :
  delivers s (a ++ b) -> len a = sz ->
  exists s', readAll sz s = (Return a, s') /\ delivers s' b.
Proof.
  intros Hd Ha. unfold readAll. pose proof (len_nonneg a).
  exact (readAll_loop_stream (Z.to_nat sz) sz 0 [] s a b Hd ltac:(lia) ltac:(lia)).
Qed.

End StreamFacts.

(** ** [TBufferedTransport]: the read side *)

Lemma len_served sz (data : bytes) : 0 <= sz -> len (served sz data) <= sz.
Proof.
  intros Hsz. unfold served. destruct (Z.ltb_spec sz 0); [lia |].
  apply len_firstn. exact Hsz.
Qed.

Lemma BufferIO_read_run b sz :
  BufferIO.closed b = false ->
  BufferIO.read sz b
  = (Return (served sz (pending b)),
     BufferIO.mk (BufferIO.contents b)
       (BufferIO.position b + length (served sz (pending b))) false).
Proof.
  intros Hopen. unfold BufferIO.read, BufferIO.check_closed. rewrite Hopen. reflexivity.
Qed.

Section BufferedReadFacts.
Context {T : Type} `{Transport T}.
Import TBufferedTransport.

(** [read(sz)] is served from the read buffer while it has something to give:
    the inner transport is not touched. *)
Lemma buffered_read_hit (s : t T) sz :
  BufferIO.closed (rbuf s) = false ->
  served sz (pending (rbuf s)) <> [] ->
  exists b',
    read sz s = (Return (served sz (pending (rbuf s))),
                 mk (trans s) (wbuf s) b' (rbuf_size s)) /\
    BufferIO.closed b' = false /\
    pending b' = skipn (length (served sz (pending (rbuf s)))) (pending (rbuf s)).
Proof.
  intros Hopen Hne. destruct (BufferIO_read_open _ sz Hopen) as (b' & Hr & Hop' & Hp').
  exists b'. split; [| split; assumption].
  unfold read, on_rbuf.
  rewrite (bind_return _ _ _ _ _ (zoom_run rbuf _ _ s _ _ Hr)).
  destruct (Z.eqb_spec (len (served sz (pending (rbuf s)))) 0) as [E | E].
  - apply len_zero_nil in E. contradiction.
  - reflexivity.
Qed.

(** Otherwise the inner transport is read once, for [max(sz, rbuf_size)]
    bytes; what it returns replaces the read buffer, and the call is served
    from that. *)
Lemma buffered_read_miss (s : t T) sz :
  BufferIO.closed (rbuf s) = false ->
  served sz (pending (rbuf s)) = [] ->
  read sz s =
  match TTransportBase.read (Z.max sz (rbuf_size s)) (trans s) with
  | (Return data, x') =>
      (Return (served sz data),
       mk x' (wbuf s) (BufferIO.mk data (length (served sz data)) false) (rbuf_size s))
  | (Raise e, x') =>
      (Raise e, mk x' (wbuf s)
                  (BufferIO.mk (BufferIO.contents (rbuf s))
                     (BufferIO.position (rbuf s) + 0) false) (rbuf_size s))
  | (Diverge, x') =>
      (Diverge, mk x' (wbuf s)
                  (BufferIO.mk (BufferIO.contents (rbuf s))
                     (BufferIO.position (rbuf s) + 0) false) (rbuf_size s))
  end.
Proof.
  intros Hopen Hnil. pose proof (BufferIO_read_run (rbuf s) sz Hopen) as Hr.
  rewrite Hnil in Hr. cbn [length] in Hr.
  unfold read, on_rbuf at 1.
  rewrite (bind_return _ _ _ _ _ (zoom_run rbuf _ _ s _ _ Hr)).
  cbn [len length Z.of_nat Z.eqb negb].
  destruct s as [x wb rb size]. cbn [rbuf trans wbuf rbuf_size] in *.
  unfold bind, gets, on_trans, zoom. cbn [rbuf trans wbuf rbuf_size].
  destruct (TTransportBase.read (Z.max sz size) x) as [[data | e |] x']; reflexivity.
Qed.

End BufferedReadFacts.

(** X2.  A Buffered Transport over a source of bytes is a source of bytes:
    [read(k)], for [k > 0], returns at most [k] of the next bytes, in order,
    first those its read buffer holds and then those of the inner transport,
    none lost and none repeated, and returns nothing only when nothing is
    left. *)
Theorem buffered_read_is_source
  {T : Type} `{Transport T} (inner : T -> bytes -> Prop) :
  byte_source inner -> byte_source (buffered_delivers inner).
Proof.
  intros Hsource s w k (Hopen & w' & Hd & Hw) Hk.
  destruct (list_eq_dec Byte.byte_eq_dec
              (served k (pending (TBufferedTransport.rbuf s))) []) as [Hnil | Hne].
  - assert (Hp : pending (TBufferedTransport.rbuf s) = []).
    { destruct (pending (TBufferedTransport.rbuf s)) as [| b l] eqn:E; [reflexivity |].
      exfalso. apply (served_nonempty k (b :: l)); [lia | discriminate | exact Hnil]. }
    rewrite Hp in Hw. cbn [app] in Hw. subst w'.
    pose proof (buffered_read_miss s k Hopen Hnil) as Hrun.
    destruct (Hsource _ w (Z.max k (TBufferedTransport.rbuf_size s)) Hd ltac:(lia))
      as (data & w2 & x' & Hr & _ & Hne & Hsplit & Hd').
    rewrite Hr in Hrun.
    exists (served k data), (skipn (length (served k data)) data ++ w2).
    eexists. split; [exact Hrun |].
    split; [apply len_served; lia |].
    split; [intros Hw; apply served_nonempty; [lia | exact (Hne Hw)] |].
    split; [rewrite app_assoc, served_prefix; exact Hsplit |].
    split; [reflexivity |]. exists w2. split; [exact Hd' | reflexivity].
  - destruct (buffered_read_hit s k Hopen Hne) as (b' & Hrun & Hopen' & Hp').
    exists (served k (pending (TBufferedTransport.rbuf s))),
           (skipn (length (served k (pending (TBufferedTransport.rbuf s))))
              (pending (TBufferedTransport.rbuf s)) ++ w').
    eexists. split; [exact Hrun |].
    split; [apply len_served; lia |].
    split; [intros _; exact Hne |].
    split; [rewrite app_assoc, served_prefix; exact Hw |].
    split; [exact Hopen' |]. exists w'. split; [exact Hd |].
    cbn [TBufferedTransport.rbuf]. rewrite Hp'. reflexivity.
Qed.

(** A buffer of two bytes already read ahead, three more in the memory
    buffer under it. *)
Lemma buffered_read_is_source_witness :
  let s := TBufferedTransport.mk
             (TMemoryBuffer.mk (BufferIO.new (Some [x6c; x6c; x6f])))
             (BufferIO.new None) (BufferIO.new (Some [x68; x65])) 4096 in
  exists chunk w' s',
    TTransportBase.read 4 s = (Return chunk, s') /\ len chunk <= 4 /\
    ([x68; x65; x6c; x6c; x6f] <> [] -> chunk <> []) /\
    [x68; x65; x6c; x6c; x6f] = chunk ++ w' /\
    buffered_delivers Memory.delivers s' w'.
Proof.
  intros s.
  apply (buffered_read_is_source Memory.delivers MemoryFacts.is_source s
           [x68; x65; x6c; x6c; x6f] 4).
  - split; [reflexivity |]. exists [x6c; x6c; x6f]. split; [| reflexivity].
    apply MemoryFacts.delivers_init.
  - lia.
Defined.

(** X3.  [read(sz)] of a Buffered Transport, the inner transport on record:
    while the read buffer has something to give for the request, no call is
    made on the inner transport; when it has not, exactly one call is made,
    a [read] of [max(sz, rbuf_size)] bytes. *)
Theorem buffered_read_inner_calls
  {T : Type} `{Transport T} (s : TBufferedTransport.t (Spy.t T)) (sz : Z)
  (r : outcome bytes) (s' : TBufferedTransport.t (Spy.t T)) :
  BufferIO.closed (TBufferedTransport.rbuf s) = false ->
  TBufferedTransport.read sz s = (r, s') ->
  Spy.calls (TBufferedTransport.trans s') =
  match served sz (pending (TBufferedTransport.rbuf s)) with
  | [] => Spy.calls (TBufferedTransport.trans s)
            ++ [Spy.Read (Z.max sz (TBufferedTransport.rbuf_size s))]
  | _ => Spy.calls (TBufferedTransport.trans s)
  end.
Proof.
  intros Hopen Hrun.
  destruct (served sz (pending (TBufferedTransport.rbuf s))) as [| b l] eqn:E.
  - rewrite (buffered_read_miss s sz Hopen E) in Hrun.
    destruct (TBufferedTransport.trans s) as [log x] eqn:Etr.
    cbn [TTransportBase.read Spy.transport] in Hrun. unfold Spy.record in Hrun.
    cbn [Spy.inner Spy.calls] in Hrun.
    destruct (TTransportBase.read (Z.max sz (TBufferedTransport.rbuf_size s)) x)
      as [[data | e |] x']; injection Hrun as <- <-; reflexivity.
  - destruct (buffered_read_hit s sz Hopen ltac:(rewrite E; discriminate))
      as (b' & Hhit & _).
    rewrite Hhit in Hrun. injection Hrun as <- <-. reflexivity.
Qed.

Lemma buffered_read_inner_calls_witness :
  let s := TBufferedTransport.init
             (Spy.mk [] (TMemoryBuffer.mk (BufferIO.new (Some [x68; x65; x6c])))) 4096 in
  let s' := TBufferedTransport.mk
              (Spy.mk [Spy.Read 4096] (TMemoryBuffer.mk (BufferIO.mk [x68; x65; x6c] 3 false)))
              (BufferIO.new None) (BufferIO.mk [x68; x65; x6c] 2 false) 4096 in
  Spy.calls (TBufferedTransport.trans s') =
  match served 2 (pending (TBufferedTransport.rbuf s)) with
  | [] => Spy.calls (TBufferedTransport.trans s)
            ++ [Spy.Read (Z.max 2 (TBufferedTransport.rbuf_size s))]
  | _ => Spy.calls (TBufferedTransport.trans s)
  end.
Proof.
  intros s s'.
  apply (buffered_read_inner_calls s 2 (Return [x68; x65]) s'); reflexivity.
Defined.

(** X4.  [read(0)] of a Buffered Transport: the read buffer gives nothing for
    a request of no bytes, so the inner transport is read and what it returns
    replaces the read buffer; the bytes the read buffer still held are
    dropped, and the call returns the empty string. *)
Theorem buffered_read_zero_drops_buffer
  {T : Type} `{Transport T} (s : TBufferedTransport.t T) (data : bytes) (x' : T) :
  BufferIO.closed (TBufferedTransport.rbuf s) = false ->
  TTransportBase.read (Z.max 0 (TBufferedTransport.rbuf_size s))
    (TBufferedTransport.trans s) = (Return data, x') ->
  TBufferedTransport.read 0 s
  = (Return [],
     TBufferedTransport.mk x' (TBufferedTransport.wbuf s) (BufferIO.new (Some data))
       (TBufferedTransport.rbuf_size s)).
Proof.
  intros Hopen Hinner.
  rewrite (buffered_read_miss s 0 Hopen eq_refl), Hinner. reflexivity.
Qed.

(** Two bytes still in the read buffer, ["hel"] under it: after [read(0)] the
    two bytes are gone. *)
Lemma buffered_read_zero_drops_buffer_witness :
  let s := TBufferedTransport.mk
             (TMemoryBuffer.mk (BufferIO.new (Some [x68; x65; x6c])))
             (BufferIO.new None) (BufferIO.new (Some [x70; x69])) 4096 in
  TBufferedTransport.read 0 s
  = (Return [],
     TBufferedTransport.mk (TMemoryBuffer.mk (BufferIO.mk [x68; x65; x6c] 3 false))
       (TBufferedTransport.wbuf s) (BufferIO.new (Some [x68; x65; x6c]))
       (TBufferedTransport.rbuf_size s)).
Proof.
  intros s.
  apply (buffered_read_zero_drops_buffer s [x68; x65; x6c]
           (TMemoryBuffer.mk (BufferIO.mk [x68; x65; x6c] 3 false))); reflexivity.
Defined.

(** ** [TBufferedTransport.cstringio_refill] *)

Section BufferedRefill.
Context {T : Type} `{Transport T}.
Variable inner : T -> bytes -> Prop.
Hypothesis source : byte_source inner.
Import TBufferedTransport.

(** The second half of [refill]: top up with [readAll], install, return. *)
Lemma buffered_refill_top_up (x : T) wb rb size retstring reqlen w :
  inner x w ->
  let rest :=
    (retstring <-
       (if len retstring <? reqlen then
          more <- on_trans (readAll (reqlen - len retstring)) ;;
          ret (retstring ++ more)
        else ret retstring) ;;
     set_rbuf (BufferIO.new (Some retstring)) ;;
     gets rbuf) in
  (reqlen <= len retstring + len w ->
   exists a b x',
     w = a ++ b /\
     rest (mk x wb rb size)
       = (Return (BufferIO.new (Some (retstring ++ a))),
          mk x' wb (BufferIO.new (Some (retstring ++ a))) size) /\
     reqlen <= len (retstring ++ a) /\ inner x' b) /\
  (len retstring + len w < reqlen ->
   exists s', rest (mk x wb rb size) = (Raise EOFError, s')).
Proof.
  intros Hd rest. subst rest. destruct (Z.ltb_spec (len retstring) reqlen) as [Hlt | Hge].
  - split.
    + intros Henough.
      set (n := reqlen - len retstring).
      assert (Hn : len (firstn (Z.to_nat n) w) = n).
      { unfold len in *. rewrite length_firstn. subst n. lia. }
      destruct (readAll_source inner source n x (firstn (Z.to_nat n) w)
                  (skipn (Z.to_nat n) w) ltac:(rewrite firstn_skipn; exact Hd) Hn)
        as (x' & Hr & Hd').
      exists (firstn (Z.to_nat n) w), (skipn (Z.to_nat n) w), x'.
      split; [symmetry; apply firstn_skipn |].
      split; [| split; [rewrite len_app; lia | exact Hd']].
      unfold on_trans.
      rewrite (bind_return _ _ _ _ (mk x' wb rb size)
                 (bind_return _ _ _ _ _ (zoom_run trans _ _ (mk x wb rb size) _ _ Hr))).
      reflexivity.
    + intros Hshort.
      destruct (readAll_source_short inner source (reqlen - len retstring) x w Hd
                  ltac:(lia)) as (x' & Hr).
      eexists. unfold on_trans.
      rewrite (bind_raise _ _ _ _ _
                 (bind_raise _ _ _ _ _ (zoom_run trans _ _ (mk x wb rb size) _ _ Hr))).
      reflexivity.
  - split.
    + intros _. exists [], w, x. rewrite app_nil_r.
      split; [reflexivity |]. split; [reflexivity |]. split; [lia | exact Hd].
    + intros Hshort. pose proof (len_nonneg w). lia.
Qed.

(** The first half: one read ahead when [reqlen] is below the buffer size. *)
Lemma buffered_refill_read_ahead (x : T) wb rb size partialread reqlen chunk x1 :
  reqlen < size -> TTransportBase.read size x = (Return chunk, x1) ->
  cstringio_refill partialread reqlen (mk x wb rb size)
  = (retstring <-
       (if len (partialread ++ chunk) <? reqlen then
          more <- on_trans (readAll (reqlen - len (partialread ++ chunk))) ;;
          ret ((partialread ++ chunk) ++ more)
        else ret (partialread ++ chunk)) ;;
     set_rbuf (BufferIO.new (Some retstring)) ;;
     gets rbuf) (mk x1 wb rb size).
Proof.
  intros Hover Hr. unfold cstringio_refill.
  unfold bind at 1. unfold gets at 1. cbn [rbuf_size].
  destruct (Z.ltb_spec reqlen size); [| lia].
  unfold on_trans at 1.
  rewrite (bind_return _ _ _ _ (mk x1 wb rb size)
             (bind_return _ _ _ _ _ (zoom_run trans _ _ (mk x wb rb size) _ _ Hr))).
  reflexivity.
Qed.

Lemma buffered_refill_no_read_ahead (x : T) wb rb size partialread reqlen :
  size <= reqlen ->
  cstringio_refill partialread reqlen (mk x wb rb size)
  = (retstring <-
       (if len partialread <? reqlen then
          more <- on_trans (readAll (reqlen - len partialread)) ;;
          ret (partialread ++ more)
        else ret partialread) ;;
     set_rbuf (BufferIO.new (Some retstring)) ;;
     gets rbuf) (mk x wb rb size).
Proof.
  intros Hexact. unfold cstringio_refill.
  unfold bind at 1. unfold gets at 1. cbn [rbuf_size].
  destruct (Z.ltb_spec reqlen size); [lia |]. reflexivity.
Qed.

End BufferedRefill.

(** X5.  [refill(partialread, reqlen)] of a Buffered Transport with a
    positive buffer size, over a source of bytes.  When [partialread] and
    what the source still delivers make up [reqlen] bytes, [refill] returns a
    new buffer, installed as the read buffer, that holds [partialread]
    followed by the next bytes of the source, at least [reqlen] bytes in all,
    and the source is left at the byte after them; when they do not, it
    raises [EOFError]. *)
Theorem buffered_refill_from_source
  {T : Type} `{Transport T} (inner : T -> bytes -> Prop)
  (s : TBufferedTransport.t T) (partialread w : bytes) (reqlen : Z) :
  byte_source inner -> inner (TBufferedTransport.trans s) w ->
  0 < TBufferedTransport.rbuf_size s ->
  (reqlen <= len partialread + len w ->
   exists a b s',
     w = a ++ b /\
     TBufferedTransport.cstringio_refill partialread reqlen s
       = (Return (BufferIO.new (Some (partialread ++ a))), s') /\
     TBufferedTransport.rbuf s' = BufferIO.new (Some (partialread ++ a)) /\
     reqlen <= len (partialread ++ a) /\
     inner (TBufferedTransport.trans s') b) /\
  (len partialread + len w < reqlen ->
   exists s',
     TBufferedTransport.cstringio_refill partialread reqlen s = (Raise EOFError, s')).
Proof.
  intros Hsource Hd Hsize. destruct s as [x wb rb size].
  cbn [TBufferedTransport.trans TBufferedTransport.rbuf_size] in *.
  destruct (Z.ltb_spec reqlen size) as [Hover | Hexact].
  - destruct (Hsource x w size Hd Hsize) as (chunk & w1 & x1 & Hr & _ & _ & Hw & Hd1).
    rewrite !(buffered_refill_read_ahead x wb rb size partialread reqlen chunk x1 Hover Hr).
    destruct (buffered_refill_top_up inner Hsource x1 wb rb size (partialread ++ chunk)
                reqlen w1 Hd1) as [Hgood Hbad].
    subst w. pose proof (len_app chunk w1) as E1.
    pose proof (len_app partialread chunk) as E2. split.
    + intros Henough. destruct (Hgood ltac:(lia)) as (a & b & x' & Hw1 & Hrun & Hlen & Hd').
      exists (chunk ++ a), b. eexists.
      split; [rewrite Hw1, app_assoc; reflexivity |].
      rewrite !(app_assoc partialread chunk a).
      split; [exact Hrun |]. split; [reflexivity |]. split; [exact Hlen | exact Hd'].
    + intros Hshort. exact (Hbad ltac:(lia)).
  - rewrite !(buffered_refill_no_read_ahead x wb rb size partialread reqlen Hexact).
    destruct (buffered_refill_top_up inner Hsource x wb rb size partialread reqlen w Hd)
      as [Hgood Hbad].
    split.
    + intros Henough. destruct (Hgood Henough) as (a & b & x' & Hw1 & Hrun & Hlen & Hd').
      exists a, b. eexists. split; [exact Hw1 |]. split; [exact Hrun |].
      split; [reflexivity |]. split; [exact Hlen | exact Hd'].
    + exact Hbad.
Qed.

Lemma buffered_refill_from_source_witness :
  let w := [x6c; x6c; x6f] in
  let s := TBufferedTransport.init (TMemoryBuffer.mk (BufferIO.new (Some w))) 2 in
  (4 <= len [x68; x65] + len w ->
   exists a b s',
     w = a ++ b /\
     TBufferedTransport.cstringio_refill [x68; x65] 4 s
       = (Return (BufferIO.new (Some ([x68; x65] ++ a))), s') /\
     TBufferedTransport.rbuf s' = BufferIO.new (Some ([x68; x65] ++ a)) /\
     4 <= len ([x68; x65] ++ a) /\
     Memory.delivers (TBufferedTransport.trans s') b) /\
  (len [x68; x65] + len w < 4 ->
   exists s',
     TBufferedTransport.cstringio_refill [x68; x65] 4 s = (Raise EOFError, s')).
Proof.
  intros w s.
  apply (buffered_refill_from_source Memory.delivers s [x68; x65] w 4).
  - exact MemoryFacts.is_source.
  - apply MemoryFacts.delivers_init.
  - reflexivity.
Defined.

(** ** [TMemoryBuffer] *)

Lemma memory_write_each (bufs : list bytes) : forall (s : TMemoryBuffer.t) data,
  Memory.collected s data ->
  exists s', write_each bufs s = (Return tt, s') /\
             Memory.collected s' (data ++ concat bufs).
Proof.
  induction bufs as [| x bufs IH]; intros s data Hc.
  - exists s. cbn [write_each concat]. rewrite app_nil_r. split; [reflexivity | exact Hc].
  - destruct (MemoryFacts.is_sink s data Hc) as [Hw _].
    destruct (Hw x) as (s1 & Hrun & Hc1).
    cbn [write_each]. rewrite (bind_return _ _ _ _ _ Hrun).
    destruct (IH s1 (data ++ x) Hc1) as (s' & Hrun' & Hc').
    exists s'. cbn [concat]. rewrite app_assoc. split; assumption.
Qed.

(** X6.  A memory buffer created without a value and written to: [getvalue]
    returns the byte strings written, concatenated in order; and [read],
    whatever the size asked for, returns the empty string: what has been
    written cannot be read back from the same buffer. *)
Theorem memory_written_not_readable (bufs : list bytes) :
  exists s0 s,
    TMemoryBuffer.init None 0 = Return s0 /\
    write_each bufs s0 = (Return tt, s) /\
    TMemoryBuffer.getvalue s = (Return (concat bufs), s) /\
    forall sz, exists s', TMemoryBuffer.read sz s = (Return [], s').
Proof.
  exists (TMemoryBuffer.mk (BufferIO.new None)).
  destruct (memory_write_each bufs (TMemoryBuffer.mk (BufferIO.new None)) []
              MemoryFacts.collected_init) as (s & Hrun & Hc).
  exists s. cbn [app] in Hc. split; [reflexivity |]. split; [exact Hrun |].
  destruct s as [b]. unfold Memory.collected, accumulated in Hc. cbn in Hc. subst b.
  split; [reflexivity |]. intros sz.
  unfold TMemoryBuffer.read, TMemoryBuffer.on_buffer, zoom.
  cbn [TMemoryBuffer._buffer].
  rewrite (BufferIO_read_run (BufferIO.mk (concat bufs) (length (concat bufs)) false)
             sz eq_refl).
  unfold pending.
  cbn [BufferIO.contents BufferIO.position]. rewrite skipn_all, served_nil.
  eexists. reflexivity.
Qed.

(** X7.  A memory buffer created with a value and a start offset.  A negative
    offset raises [ValueError].  Otherwise the buffer holds the value
    ([getvalue] returns all of it) and delivers it from the offset on:
    [readAll] of what is left returns it, after which [read] returns the
    empty string, without error, and [readAll] of a positive count raises
    [EOFError]. *)
Theorem memory_seeded_reads (value : bytes) (offset : Z) :
  (offset < 0 -> TMemoryBuffer.init (Some value) offset = Raise ValueError) /\
  (0 <= offset ->
   let rest := skipn (Z.to_nat offset) value in
   exists s s',
     TMemoryBuffer.init (Some value) offset = Return s /\
     TMemoryBuffer.getvalue s = (Return value, s) /\
     readAll (len rest) s = (Return rest, s') /\
     forall k, 0 < k ->
       (exists s'', TMemoryBuffer.read k s' = (Return [], s'')) /\
       (exists s'', readAll k s' = (Raise EOFError, s''))).
Proof.
  split.
  - intros Hneg. unfold TMemoryBuffer.init.
    destruct (Z.eqb_spec offset 0); [lia |].
    unfold TMemoryBuffer.on_buffer, zoom, BufferIO.seek, BufferIO.check_closed.
    cbn [TMemoryBuffer._buffer BufferIO.new BufferIO.closed].
    destruct (Z.ltb_spec offset 0); [reflexivity | lia].
  - intros Hpos rest.
    set (s := TMemoryBuffer.mk (BufferIO.mk value (Z.to_nat offset) false)).
    assert (Hinit : TMemoryBuffer.init (Some value) offset = Return s).
    { unfold TMemoryBuffer.init. destruct (Z.eqb_spec offset 0) as [-> | Hnz];
        [reflexivity |].
      unfold TMemoryBuffer.on_buffer, zoom, BufferIO.seek, BufferIO.check_closed.
      cbn [TMemoryBuffer._buffer BufferIO.new BufferIO.closed].
      destruct (Z.ltb_spec offset 0); [lia | reflexivity]. }
    assert (Hd : Memory.delivers s (rest ++ [])).
    { rewrite app_nil_r. split; reflexivity. }
    destruct (readAll_source Memory.delivers MemoryFacts.is_source (len rest) s rest []
                Hd eq_refl) as (s' & Hread & Hd').
    exists s, s'. split; [exact Hinit |]. split; [reflexivity |].
    split; [exact Hread |]. intros k Hk. split.
    + destruct (MemoryFacts.is_source s' [] k Hd' Hk)
        as (chunk & w' & s'' & Hr & _ & _ & Hsplit & _).
      symmetry in Hsplit. apply app_eq_nil in Hsplit. destruct Hsplit as [-> _].
      exists s''. exact Hr.
    + exact (readAll_source_short Memory.delivers MemoryFacts.is_source k s' [] Hd'
               ltac:(rewrite len_nil; lia)).
Qed.

Lemma memory_perform_closed (r : request) (s : TMemoryBuffer.t) :
  BufferIO.closed (TMemoryBuffer._buffer (perform r s))
  = BufferIO.closed (TMemoryBuffer._buffer s) || is_close r.
Proof.
  destruct s as [[c p cl]]. destruct r; cbn [perform is_close];
    try (cbn; rewrite orb_false_r; reflexivity).
  - cbn. apply eq_sym, orb_true_r.
  - cbn. unfold TMemoryBuffer.read, TMemoryBuffer.on_buffer, zoom, BufferIO.read,
      BufferIO.check_closed. cbn. destruct cl; cbn; reflexivity.
  - cbn. unfold TMemoryBuffer.write, TMemoryBuffer.on_buffer, zoom, bind, BufferIO.write,
      BufferIO.check_closed. cbn.
    destruct cl; cbn; [reflexivity |]. destruct buf as [[| b l] | t |]; cbn; reflexivity.
Qed.

(** X8.  [isOpen] of a memory buffer, after any calls made on it, returns
    [True] if and only if the buffer was open to begin with and [close] is
    not among the calls: nothing but [close] closes it, no call opens it
    again, [open] least of all. *)
Theorem memory_open_until_closed (requests : list request) (s : TMemoryBuffer.t) :
  fst (TMemoryBuffer.isOpen (after requests s))
  = Return (negb (BufferIO.closed (TMemoryBuffer._buffer s)
                  || existsb is_close requests)).
Proof.
  revert s. induction requests as [| r requests IH]; intros s.
  - cbn. rewrite orb_false_r. reflexivity.
  - change (after (r :: requests) s) with (after requests (perform r s)).
    rewrite IH, memory_perform_closed. cbn [existsb]. rewrite orb_assoc. reflexivity.
Qed.

(** ** [TFramedTransport]: more on frames *)

Lemma framed_write_each {T : Type} `{Transport T} (bufs : list bytes) :
  forall (s : TFramedTransport.t T) data,
  accumulated (TFramedTransport.wbuf s) data ->
  exists b',
    write_each bufs s
      = (Return tt,
         TFramedTransport.mk (TFramedTransport.trans s) (TFramedTransport.rbuf s) b') /\
    accumulated b' (data ++ concat bufs).
Proof.
  induction bufs as [| x bufs IH]; intros s data Hacc.
  - exists (TFramedTransport.wbuf s). cbn [concat write_each]. rewrite app_nil_r.
    destruct s; split; [reflexivity | exact Hacc].
  - destruct (framed_write_bytes s data x Hacc) as (b1 & Hw & Hacc1).
    cbn [write_each].
    change (TTransportBase.write (PyBytes x)) with (TFramedTransport.write (T:=T) (PyBytes x)).
    rewrite (bind_return _ _ _ _ _ Hw).
    destruct (IH (TFramedTransport.mk (TFramedTransport.trans s) (TFramedTransport.rbuf s) b1)
                (data ++ x) Hacc1) as (b' & Hrun & Hacc').
    exists b'. cbn [concat]. rewrite app_assoc. split; assumption.
Qed.

(** X9.  The [write] calls a Framed Transport gets between two [flush] calls
    make one frame: over any sink of bytes, with the write buffer empty to
    begin with, the writes leave the sink as it is, and [flush] adds to it
    one frame whose payload is the concatenation, in order, of the byte
    strings written (of at most [2^31 - 1] bytes in all), leaving the write
    buffer empty. *)
Theorem framed_writes_make_one_frame
  {T : Type} `{Transport T} (collected : T -> bytes -> Prop)
  (s0 : TFramedTransport.t T) (sent : bytes) (bufs : list bytes) :
  byte_sink collected ->
  TFramedTransport.wbuf s0 = BufferIO.new None ->
  collected (TFramedTransport.trans s0) sent ->
  len (concat bufs) <= 2147483647 ->
  exists s1 s2,
    write_each bufs s0 = (Return tt, s1) /\
    TFramedTransport.trans s1 = TFramedTransport.trans s0 /\
    TFramedTransport.flush s1 = (Return tt, s2) /\
    collected (TFramedTransport.trans s2) (sent ++ frame (concat bufs)) /\
    TFramedTransport.wbuf s2 = BufferIO.new None.
Proof.
  intros Hsink Hw0 Hc Hlen.
  destruct (framed_write_each bufs s0 [] ltac:(rewrite Hw0; apply accumulated_new))
    as (b' & Hrun & Hacc).
  cbn [app] in Hacc.
  pose proof (framed_flush_run
                (TFramedTransport.mk (TFramedTransport.trans s0)
                   (TFramedTransport.rbuf s0) b') (concat bufs) Hacc) as Hf.
  rewrite (StructFacts.pack_i_len _ Hlen) in Hf.
  cbn [TFramedTransport.trans TFramedTransport.rbuf] in Hf.
  destruct (Hsink _ _ Hc) as [Hwr _].
  destruct (Hwr (struct.be32 (len (concat bufs)) ++ concat bufs)) as (x1 & Hx1 & Hc1).
  rewrite Hx1 in Hf. destruct (Hsink _ _ Hc1) as [_ (x2 & Hx2 & Hc2)]. rewrite Hx2 in Hf.
  eexists. eexists. split; [exact Hrun |]. split; [reflexivity |].
  split; [exact Hf |]. split; [exact Hc2 | reflexivity].
Qed.

Lemma framed_writes_make_one_frame_witness :
  let s0 := TFramedTransport.init (TMemoryBuffer.mk (BufferIO.new None)) in
  let bufs := [[x70; x69]; []; [x6e; x67]] in
  exists s1 s2,
    write_each bufs s0 = (Return tt, s1) /\
    TFramedTransport.trans s1 = TFramedTransport.trans s0 /\
    TFramedTransport.flush s1 = (Return tt, s2) /\
    Memory.collected (TFramedTransport.trans s2) ([] ++ frame (concat bufs)) /\
    TFramedTransport.wbuf s2 = BufferIO.new None.
Proof.
  intros s0 bufs.
  apply (framed_writes_make_one_frame Memory.collected s0 [] bufs).
  - exact MemoryFacts.is_sink.
  - reflexivity.
  - exact MemoryFacts.collected_init.
  - vm_compute. discriminate.
Defined.

Section FramedEdges.
Context {T : Type} `{Transport T}.
Variable delivers : T -> bytes -> Prop.
Hypothesis source : byte_source delivers.
Import TFramedTransport.

(** A length field that reads as a negative number: [readAll] of a negative
    count returns the empty string at once, and the frame is taken for an
    empty one. *)
Lemma readFrame_negative (s : t T) n rest :
  -2147483648 <= n < 0 ->
  delivers (trans s) (struct.be32 n ++ rest) ->
  exists x',
    readFrame s = (Return tt, mk x' (BufferIO.new (Some [])) (wbuf s)) /\
    delivers x' rest.
Proof.
  intros Hn Hd.
  assert (Hpack : struct.pack_i n = Return (struct.be32 n)).
  { unfold struct.pack_i. destruct (Z.leb_spec (-2147483648) n); [| lia].
    destruct (Z.leb_spec n 2147483647); [reflexivity | lia]. }
  destruct (StructFacts.unpack_pack_i _ _ Hpack) as [Hunpack Hlen4].
  destruct (readAll_source delivers source 4 _ _ _ Hd Hlen4) as (x1 & Hr1 & Hd1).
  exists x1. split; [| exact Hd1].
  unfold readFrame, on_trans.
  rewrite (bind_return _ _ _ _ _ (zoom_run trans _ _ s _ _ Hr1)).
  unfold pure at 1. unfold bind at 1. rewrite Hunpack.
  destruct s as [x rb wb]. cbn [trans rbuf wbuf] in *.
  rewrite (bind_return _ _ _ _ _
             (zoom_run trans _ _ (mk x1 rb wb) _ _ (readAll_nonpositive n x1 ltac:(lia)))).
  reflexivity.
Qed.

End FramedEdges.

(** X10.  A frame whose length field is negative is not refused: a Framed
    Transport whose read buffer has nothing left and whose source delivers
    the four bytes of a negative length followed by anything returns the
    empty string from [read], without error, having taken the four bytes of
    the length, and those only, off the source. *)
Theorem framed_negative_length_is_empty_frame
  {T : Type} `{Transport T} (delivers : T -> bytes -> Prop)
  (s : TFramedTransport.t T) (n sz : Z) (rest : bytes) :
  byte_source delivers ->
  BufferIO.closed (TFramedTransport.rbuf s) = false ->
  pending (TFramedTransport.rbuf s) = [] ->
  -2147483648 <= n < 0 ->
  delivers (TFramedTransport.trans s) (struct.be32 n ++ rest) ->
  exists s',
    TFramedTransport.read sz s = (Return [], s') /\
    delivers (TFramedTransport.trans s') rest /\
    pending (TFramedTransport.rbuf s') = [].
Proof.
  intros Hsource Hopen Hpend Hn Hd.
  assert (Hnil : served sz (pending (TFramedTransport.rbuf s)) = [])
    by (rewrite Hpend; apply served_nil).
  destruct (framed_read_miss s sz Hopen Hnil) as (b' & Hread).
  destruct (readFrame_negative delivers Hsource
              (TFramedTransport.mk (TFramedTransport.trans s) b' (TFramedTransport.wbuf s))
              n rest Hn Hd) as (x' & Hrf & Hd').
  rewrite (bind_return _ _ _ _ _ Hrf) in Hread.
  unfold TFramedTransport.on_rbuf in Hread.
  rewrite (zoom_run TFramedTransport.rbuf _ _
             (TFramedTransport.mk x' (BufferIO.new (Some [])) _) _ _
             (BufferIO_read_run (BufferIO.new (Some [])) sz eq_refl)) in Hread.
  rewrite pending_new, served_nil in Hread.
  eexists. split; [exact Hread |]. split; [exact Hd' | reflexivity].
Qed.

Lemma framed_negative_length_is_empty_frame_witness :
  let s := TFramedTransport.init
             (TMemoryBuffer.mk (BufferIO.new (Some (struct.be32 (-7) ++ [x70; x69])))) in
  exists s',
    TFramedTransport.read 4 s = (Return [], s') /\
    Memory.delivers (TFramedTransport.trans s') [x70; x69] /\
    pending (TFramedTransport.rbuf s') = [].
Proof.
  intros s.
  apply (framed_negative_length_is_empty_frame Memory.delivers s (-7) 4 [x70; x69]).
  - exact MemoryFacts.is_source.
  - reflexivity.
  - reflexivity.
  - lia.
  - apply MemoryFacts.delivers_init.
Defined.

Section FramedStream.
Context {T : Type} `{Transport T}.
Variable inner : T -> bytes -> Prop.
Hypothesis source : byte_source inner.
Import TFramedTransport.

(** A read on a Framed Transport that has nothing buffered and meets a
    frame: the frame becomes the read buffer and the call is served from
    it. *)
Lemma framed_read_next_frame (s : t T) sz payload rest :
  BufferIO.closed (rbuf s) = false ->
  served sz (pending (rbuf s)) = [] ->
  inner (trans s) (frame payload ++ rest) -> len payload <= 2147483647 ->
  exists x',
    read sz s
      = (Return (served sz payload),
         mk x' (BufferIO.mk payload (length (served sz payload)) false) (wbuf s)) /\
    inner x' rest.
Proof.
  intros Hopen Hnil Hd Hlen.
  destruct (framed_read_miss s sz Hopen Hnil) as (b' & Hread).
  destruct (readFrame_source inner source (mk (trans s) b' (wbuf s)) payload rest Hd Hlen)
    as (x' & Hrf & Hd').
  rewrite (bind_return _ _ _ _ _ Hrf) in Hread. unfold on_rbuf in Hread.
  rewrite (zoom_run rbuf _ _ (mk x' (BufferIO.new (Some payload)) _) _ _
             (BufferIO_read_run (BufferIO.new (Some payload)) sz eq_refl)) in Hread.
  rewrite pending_new in Hread. exists x'. split; [exact Hread | exact Hd'].
Qed.

(** Over frames none of which is empty, a Framed Transport is a stream of the
    payloads. *)
Lemma framed_is_stream tail : byte_stream (framed_delivers inner tail).
Proof.
  intros s w k (Hopen & payloads & Hall & Hd & Hw) Hk Hne.
  destruct (list_eq_dec Byte.byte_eq_dec (served k (pending (rbuf s))) []) as [Hnil | Hgot].
  - assert (Hp : pending (rbuf s) = []).
    { destruct (pending (rbuf s)) as [| b l] eqn:E; [reflexivity |].
      exfalso. apply (served_nonempty k (b :: l)); [lia | discriminate | exact Hnil]. }
    rewrite Hp in Hw. cbn [app] in Hw.
    destruct payloads as [| m payloads]; [subst w; contradiction |].
    inversion Hall as [| ? ? [Hm Hlen] Hrest]; subst.
    rewrite wire_cons, <- app_assoc in Hd.
    destruct (framed_read_next_frame s k m _ Hopen Hnil Hd Hlen) as (x' & Hread & Hd').
    exists (served k m), (skipn (length (served k m)) m ++ concat payloads).
    eexists. split; [exact Hread |].
    split; [apply len_served; lia |].
    split; [apply served_nonempty; [lia | exact Hm] |].
    split; [cbn [concat]; rewrite app_assoc, served_prefix; reflexivity |].
    split; [reflexivity |]. exists payloads.
    split; [exact Hrest |]. split; [exact Hd' | reflexivity].
  - destruct (framed_read_buffered s k Hopen Hgot) as (b' & Hread & Hopen' & Hp').
    exists (served k (pending (rbuf s))),
           (skipn (length (served k (pending (rbuf s)))) (pending (rbuf s))
              ++ concat payloads).
    eexists. split; [exact Hread |].
    split; [apply len_served; lia |]. split; [exact Hgot |].
    split; [rewrite app_assoc, served_prefix; exact Hw |].
    split; [exact Hopen' |]. exists payloads.
    split; [exact Hall |]. split; [exact Hd |]. cbn [rbuf]. rewrite Hp'. reflexivity.
Qed.

End FramedStream.

(** X11.  A logical read spans frames: over a source that delivers frames
    none of which is empty, [readAll(sz)] on the Framed Transport returns
    exactly the next [sz] bytes of the payloads, taken from the read buffer
    and then from as many frames as it takes, and leaves the transport at
    the byte after them. *)
Theorem framed_readAll_spans_frames
  {T : Type} `{Transport T} (inner : T -> bytes -> Prop) (tail : bytes)
  (s : TFramedTransport.t T) (a b : bytes) (sz : Z) :
  byte_source inner ->
  framed_delivers inner tail s (a ++ b) -> len a = sz ->
  exists s', readAll sz s = (Return a, s') /\ framed_delivers inner tail s' b.
Proof.
  intros Hsource Hd Ha.
  exact (readAll_stream (framed_delivers inner tail) (framed_is_stream inner Hsource tail)
           sz s a b Hd Ha).
Qed.

(** Three bytes out of the frames ["pi"] and ["ng"]. *)
Lemma framed_readAll_spans_frames_witness :
  let payloads := [[x70; x69]; [x6e; x67]] in
  let s := TFramedTransport.init
             (TMemoryBuffer.mk (BufferIO.new (Some (wire payloads ++ [])))) in
  exists s',
    readAll 3 s = (Return [x70; x69; x6e], s') /\
    framed_delivers Memory.delivers [] s' [x67].
Proof.
  intros payloads s.
  apply (framed_readAll_spans_frames Memory.delivers [] s [x70; x69; x6e] [x67] 3).
  - exact MemoryFacts.is_source.
  - split; [reflexivity |]. exists payloads.
    split; [repeat constructor; try discriminate; vm_compute; discriminate |].
    split; [apply MemoryFacts.delivers_init | reflexivity].
  - reflexivity.
Defined.

(** X12.  An empty frame ends a logical read: with nothing buffered and an
    empty frame next in the source, [readAll] of a positive count on the
    Framed Transport raises [EOFError], whatever follows the empty frame;
    the empty frame, and it only, has been taken off the source. *)
Theorem framed_readAll_stops_at_empty_frame
  {T : Type} `{Transport T} (inner : T -> bytes -> Prop)
  (s : TFramedTransport.t T) (sz : Z) (rest : bytes) :
  byte_source inner ->
  BufferIO.closed (TFramedTransport.rbuf s) = false ->
  pending (TFramedTransport.rbuf s) = [] ->
  inner (TFramedTransport.trans s) (frame [] ++ rest) ->
  0 < sz ->
  exists s', readAll sz s = (Raise EOFError, s') /\
             inner (TFramedTransport.trans s') rest.
Proof.
  intros Hsource Hopen Hpend Hd Hsz.
  assert (Hnil : served sz (pending (TFramedTransport.rbuf s)) = [])
    by (rewrite Hpend; apply served_nil).
  destruct (framed_read_next_frame inner Hsource s sz [] rest Hopen Hnil Hd
              ltac:(rewrite len_nil; lia)) as (x' & Hread & Hd').
  rewrite served_nil in Hread.
  unfold readAll. destruct (Z.to_nat sz) as [| fuel] eqn:Efuel; [lia |].
  rewrite readAll_loop_unfold. destruct (Z.ltb_spec 0 sz); [| lia].
  rewrite Z.sub_0_r.
  change (TTransportBase.read sz) with (TFramedTransport.read (T:=T) sz).
  rewrite (bind_return _ _ _ _ _ Hread). cbn [len length Z.of_nat Z.eqb].
  eexists. split; [reflexivity | exact Hd'].
Qed.

(** An empty frame, then the frame ["pi"]: [readAll(2)] does not reach it. *)
Lemma framed_readAll_stops_at_empty_frame_witness :
  let s := TFramedTransport.init
             (TMemoryBuffer.mk (BufferIO.new (Some (frame [] ++ frame [x70; x69])))) in
  exists s', readAll 2 s = (Raise EOFError, s') /\
             Memory.delivers (TFramedTransport.trans s') (frame [x70; x69]).
Proof.
  intros s.
  apply (framed_readAll_stops_at_empty_frame Memory.delivers s 2 (frame [x70; x69])).
  - exact MemoryFacts.is_source.
  - reflexivity.
  - reflexivity.
  - apply MemoryFacts.delivers_init.
  - lia.
Defined.

(** X13.  [read(0)] of a Framed Transport: the read buffer gives nothing for
    a request of no bytes, so the next frame is read and becomes the read
    buffer; the bytes of the frame before that had not been read yet are
    dropped, and the call returns the empty string. *)
Theorem framed_read_zero_drops_frame
  {T : Type} `{Transport T} (inner : T -> bytes -> Prop)
  (s : TFramedTransport.t T) (payload rest : bytes) :
  byte_source inner ->
  BufferIO.closed (TFramedTransport.rbuf s) = false ->
  inner (TFramedTransport.trans s) (frame payload ++ rest) ->
  len payload <= 2147483647 ->
  exists x',
    TFramedTransport.read 0 s
      = (Return [],
         TFramedTransport.mk x' (BufferIO.new (Some payload)) (TFramedTransport.wbuf s)) /\
    inner x' rest.
Proof.
  intros Hsource Hopen Hd Hlen.
  exact (framed_read_next_frame inner Hsource s 0 payload rest Hopen eq_refl Hd Hlen).
Qed.

(** ["st"] of the frame ["lost"] still unread, the frame ["pi"] next. *)
Lemma framed_read_zero_drops_frame_witness :
  let s := TFramedTransport.mk
             (TMemoryBuffer.mk (BufferIO.new (Some (frame [x70; x69] ++ []))))
             (BufferIO.mk [x6c; x6f; x73; x74] 2 false) (BufferIO.new None) in
  exists x',
    TFramedTransport.read 0 s
      = (Return [],
         TFramedTransport.mk x' (BufferIO.new (Some [x70; x69])) (TFramedTransport.wbuf s)) /\
    Memory.delivers x' [].
Proof.
  intros s.
  apply (framed_read_zero_drops_frame Memory.delivers s [x70; x69] []).
  - exact MemoryFacts.is_source.
  - reflexivity.
  - apply MemoryFacts.delivers_init.
  - vm_compute. discriminate.
Defined.

(** ** Handshake messages *)

Module SaslMsgFacts.
Import struct.

Lemma Z_of_byte_of_Z_small status :
  0 <= status <= 255 -> Z_of_byte (byte_of_Z status) = status.
Proof.
  intros Hs. rewrite StructFacts.Z_of_byte_of_Z.
  change 255 with (Z.ones 8). rewrite Z.land_ones by lia.
  apply Z.mod_small. change (2 ^ 8) with 256. lia.
Qed.

Lemma pack_BI_run status n :
  0 <= status <= 255 -> 0 <= n <= 4294967295 ->
  pack_BI status n = Return (byte_of_Z status :: be32 n).
Proof.
  intros Hs Hn. unfold pack_BI.
  destruct (Z.leb_spec 0 status); [| lia]. destruct (Z.leb_spec status 255); [| lia].
  destruct (Z.leb_spec 0 n); [| lia]. destruct (Z.leb_spec n 4294967295); [| lia].
  reflexivity.
Qed.

Lemma unpack_BI_run status n :
  0 <= status <= 255 -> 0 <= n <= 4294967295 ->
  unpack_BI (byte_of_Z status :: be32 n) = Return (status, n).
Proof.
  intros Hs Hn. pose proof (StructFacts.of_be32_be32 n) as E. unfold be32 in *.
  unfold unpack_BI. rewrite E, (Z_of_byte_of_Z_small status Hs).
  rewrite Z.mod_small by lia. reflexivity.
Qed.

End SaslMsgFacts.

Section SaslMessages.
Context {T : Type} `{Transport T} {C : Type} `{SASLClient C}.
Import TSaslClientTransport.

(** What [send_sasl_msg] puts in a sink. *)
Lemma send_sasl_msg_sink (collected : T -> bytes -> Prop) (s : t T C) status body sent :
  byte_sink collected -> collected (transport s) sent ->
  0 <= status <= 255 -> len body <= 4294967295 ->
  exists x',
    send_sasl_msg status body s = (Return tt, mk x' (sasl s) (wbuf s) (rbuf s)) /\
    collected x' (sent ++ sasl_msg status body).
Proof.
  intros Hsink Hc Hs Hlen. pose proof (len_nonneg body).
  unfold send_sasl_msg. unfold pure at 1. unfold bind at 1.
  rewrite (SaslMsgFacts.pack_BI_run status (len body) Hs ltac:(lia)).
  destruct (Hsink _ _ Hc) as [Hwr _].
  destruct (Hwr ((struct.byte_of_Z status :: struct.be32 (len body)) ++ body))
    as (x1 & Hx1 & Hc1).
  destruct (Hsink _ _ Hc1) as [_ (x2 & Hx2 & Hc2)].
  exists x2. split; [| exact Hc2]. unfold on_transport.
  rewrite (bind_return _ _ _ _ _ (zoom_run transport _ _ s _ _ Hx1)).
  destruct s as [x c wb rb]. cbn [transport sasl wbuf rbuf] in *.
  rewrite (zoom_run transport _ _ (mk x1 c wb rb) _ _ Hx2). reflexivity.
Qed.

(** What [recv_sasl_msg] makes of a message in a source. *)
Lemma recv_sasl_msg_source (delivers : T -> bytes -> Prop) (s : t T C) status body rest :
  byte_source delivers -> delivers (transport s) (sasl_msg status body ++ rest) ->
  0 <= status <= 255 -> len body <= 4294967295 ->
  exists x',
    recv_sasl_msg s
      = (Return (status, received_body body), mk x' (sasl s) (wbuf s) (rbuf s)) /\
    delivers x' rest.
Proof.
  intros Hsource Hd Hs Hlen. pose proof (len_nonneg body) as Hnn.
  unfold sasl_msg in Hd. rewrite <- app_assoc in Hd.
  destruct (readAll_source delivers Hsource 5 _ _ _ Hd eq_refl) as (x1 & Hr1 & Hd1).
  unfold recv_sasl_msg, on_transport.
  rewrite (bind_return _ _ _ _ _ (zoom_run transport _ _ s _ _ Hr1)).
  unfold pure at 1. unfold bind at 1.
  rewrite (SaslMsgFacts.unpack_BI_run status (len body) Hs ltac:(lia)).
  destruct s as [x c wb rb]. cbn [transport sasl wbuf rbuf] in *.
  destruct (Z.gtb_spec (len body) 0) as [Hpos | Hzero].
  - destruct (readAll_source delivers Hsource (len body) _ _ _ Hd1 eq_refl)
      as (x2 & Hr2 & Hd2).
    exists x2. split; [| exact Hd2].
    rewrite (bind_return _ _ _ _ _ (zoom_run transport _ _ (mk x1 c wb rb) _ _ Hr2)).
    destruct body; [cbn in Hpos; lia | reflexivity].
  - assert (body = []) by (apply len_zero_nil; lia). subst body.
    exists x1. split; [reflexivity | exact Hd1].
Qed.

End SaslMessages.

(** X14.  Handshake messages sent and received: what
    [send_sasl_msg(status, body)] writes, for a status of one byte and a body
    shorter than [2^32] bytes, is the status byte, the length of the body in
    four bytes and the body; and [recv_sasl_msg] on a transport whose source
    delivers these bytes returns the same status and, when the body is not
    empty, the same body, leaving the source at the byte after the message.
    An empty body does not come back as it was sent: for it [recv_sasl_msg]
    returns the empty text string, not the empty bytes object. *)
Theorem sasl_msg_round_trip
  {W : Type} `{Transport W} {CW : Type} `{SASLClient CW}
  {R : Type} `{Transport R} {CR : Type} `{SASLClient CR}
  (collected : W -> bytes -> Prop) (delivers : R -> bytes -> Prop)
  (sender : TSaslClientTransport.t W CW) (receiver : TSaslClientTransport.t R CR)
  (status : Z) (body sent rest : bytes) :
  byte_sink collected -> byte_source delivers ->
  collected (TSaslClientTransport.transport sender) sent ->
  delivers (TSaslClientTransport.transport receiver) (sasl_msg status body ++ rest) ->
  0 <= status <= 255 -> len body <= 4294967295 ->
  exists sender' receiver',
    TSaslClientTransport.send_sasl_msg status body sender = (Return tt, sender') /\
    collected (TSaslClientTransport.transport sender') (sent ++ sasl_msg status body) /\
    TSaslClientTransport.recv_sasl_msg receiver
      = (Return (status, received_body body), receiver') /\
    (body <> [] -> received_body body = PyBytes body) /\
    (body = [] -> received_body body = PyStr String.EmptyString) /\
    delivers (TSaslClientTransport.transport receiver') rest.
Proof.
  intros Hsink Hsource Hc Hd Hs Hlen.
  destruct (send_sasl_msg_sink collected sender status body sent Hsink Hc Hs Hlen)
    as (x' & Hsend & Hc').
  destruct (recv_sasl_msg_source delivers receiver status body rest Hsource Hd Hs Hlen)
    as (y' & Hrecv & Hd').
  eexists. eexists. split; [exact Hsend |]. split; [exact Hc' |].
  split; [exact Hrecv |]. split; [| split; [| exact Hd']].
  - destruct body; [intros Hne; exfalso; apply Hne; reflexivity | reflexivity].
  - intros ->. reflexivity.
Qed.

(** The message [COMPLETE], which has no body. *)
Lemma sasl_msg_round_trip_witness :
  let sender := TSaslClientTransport.init (TMemoryBuffer.mk (BufferIO.new None))
                  (Fixture.mk_client 0) in
  let receiver := TSaslClientTransport.init
                    (TMemoryBuffer.mk (BufferIO.new (Some (sasl_msg 5 [] ++ [x21]))))
                    (Fixture.mk_client 0) in
  exists sender' receiver',
    TSaslClientTransport.send_sasl_msg 5 [] sender = (Return tt, sender') /\
    Memory.collected (TSaslClientTransport.transport sender') ([] ++ sasl_msg 5 []) /\
    TSaslClientTransport.recv_sasl_msg receiver
      = (Return (5, received_body []), receiver') /\
    (@nil byte <> [] -> received_body [] = PyBytes []) /\
    (@nil byte = [] -> received_body [] = PyStr String.EmptyString) /\
    Memory.delivers (TSaslClientTransport.transport receiver') [x21].
Proof.
  intros sender receiver.
  apply (sasl_msg_round_trip Memory.collected Memory.delivers sender receiver
           5 [] [] [x21]).
  - exact MemoryFacts.is_sink.
  - exact MemoryFacts.is_source.
  - exact MemoryFacts.collected_init.
  - apply MemoryFacts.delivers_init.
  - lia.
  - vm_compute. discriminate.
Defined.

(** ** The handshake that succeeds *)

Section HandshakeAccepts.
Context {T : Type} `{Transport T} {C : Type} `{SASLClient C}.
Import TSaslClientTransport.

Lemma negotiate_accepts (s s2 : t T C) n : ok_rounds s n s2 ->
  forall challenge s3 fuel,
  recv_sasl_msg s2 = (Return (COMPLETE, challenge), s3) ->
  complete (sasl s3) = true ->
  (n < fuel)%nat ->
  negotiate fuel s = (Return tt, s3).
Proof.
  induction 1 as [s | s challenge0 s1 response sa sb n s4 Hrecv Hproc Hsend Hrounds IH];
    intros challenge s3 fuel Hlast Hcomplete Hfuel;
    (destruct fuel as [| fuel]; [lia |]); rewrite negotiate_unfold.
  - rewrite (bind_return _ _ _ _ _ Hlast). cbv beta iota.
    change (COMPLETE =? OK) with false. change (COMPLETE =? COMPLETE) with true.
    cbv iota. unfold bind, gets. rewrite Hcomplete. reflexivity.
  - rewrite (bind_return _ _ _ _ _ Hrecv). cbv beta iota.
    change (OK =? OK) with true. cbv iota.
    rewrite (bind_return _ _ _ _ _ Hproc), (bind_return _ _ _ _ _ Hsend).
    apply (IH challenge); [assumption .. | lia].
Qed.

End HandshakeAccepts.

(** X15.  [open] of the Security-Negotiated Transport succeeds exactly on
    [COMPLETE] confirmed by the capability: its statements before the loop
    having run, after any number of [OK] rounds, the arrival of a message of
    status [COMPLETE] while the capability reports the negotiation complete
    makes [open] return, in the state the reception left; nothing but
    handshake messages has been written, [wrap] has not been called, and the
    buffers are as they were. *)
Theorem sasl_open_accepts
  {T : Type} `{Transport T} {C : Type} `{SASLClient C}
  (s0 s1 s2 s3 : TSaslClientTransport.t (Spy.t T) (SaslSpy.t C))
  (n fuel : nat) (challenge : pyobject) :
  TSaslClientTransport.greet s0 = (Return tt, s1) ->
  ok_rounds s1 n s2 ->
  TSaslClientTransport.recv_sasl_msg s2
    = (Return (TSaslClientTransport.COMPLETE, challenge), s3) ->
  complete (TSaslClientTransport.sasl s3) = true ->
  (n < fuel)%nat ->
  TSaslClientTransport.open fuel s0 = (Return tt, s3) /\
  handshake_only s0 s3.
Proof.
  intros Hgreet Hrounds Hlast Hcomplete Hfuel.
  assert (Hopen : TSaslClientTransport.open fuel s0 = (Return tt, s3)).
  { unfold TSaslClientTransport.open. rewrite (bind_return _ _ _ _ _ Hgreet).
    exact (negotiate_accepts _ _ _ Hrounds _ _ _ Hlast Hcomplete Hfuel). }
  split; [exact Hopen | exact (keeps_open fuel _ _ _ Hopen)].
Qed.

(** One [OK] round, then [COMPLETE]. *)
Lemma sasl_open_accepts_witness :
  TSaslClientTransport.open 2 Rehearsal.accepted_start
    = (Return tt, Accepted.completed) /\
  handshake_only Rehearsal.accepted_start Accepted.completed.
Proof.
  apply (sasl_open_accepts Rehearsal.accepted_start Accepted.greeted
           Accepted.answered Accepted.completed 1 2 (PyStr String.EmptyString)).
  - vm_compute. reflexivity.
  - apply (ok_rounds_more Accepted.greeted (PyBytes [x63]) Accepted.received
             [x63] Accepted.processed Accepted.answered 0 Accepted.answered).
    + vm_compute. reflexivity.
    + vm_compute. reflexivity.
    + vm_compute. reflexivity.
    + apply ok_rounds_none.
  - vm_compute. reflexivity.
  - vm_compute. reflexivity.
  - lia.
Defined.

(** [send_sasl_msg] with the inner transport on record, over a sink. *)
Lemma send_sasl_msg_recorded
  {T : Type} `{Transport T} {C : Type} `{SASLClient C}
  (collected : T -> bytes -> Prop) log (x : T) (c : C) wb rb status body sent :
  byte_sink collected -> collected x sent ->
  0 <= status <= 255 -> len body <= 4294967295 ->
  exists x',
    TSaslClientTransport.send_sasl_msg status body
      (TSaslClientTransport.mk (Spy.mk log x) c wb rb)
    = (Return tt,
       TSaslClientTransport.mk
         (Spy.mk (log ++ [Spy.Write (PyBytes (sasl_msg status body)); Spy.Flush]) x')
         c wb rb) /\
    collected x' (sent ++ sasl_msg status body).
Proof.
  intros Hsink Hc Hs Hlen. pose proof (len_nonneg body).
  destruct (Hsink _ _ Hc) as [Hwr _].
  destruct (Hwr (sasl_msg status body)) as (x1 & Hx1 & Hc1).
  destruct (Hsink _ _ Hc1) as [_ (x2 & Hx2 & Hc2)].
  exists x2. split; [| exact Hc2].
  unfold TSaslClientTransport.send_sasl_msg. unfold pure at 1. unfold bind at 1.
  rewrite (SaslMsgFacts.pack_BI_run status (len body) Hs ltac:(lia)).
  fold (sasl_msg status body).
  unfold bind, TSaslClientTransport.on_transport, zoom.
  cbn [TSaslClientTransport.transport TSaslClientTransport.sasl TSaslClientTransport.wbuf
         TSaslClientTransport.rbuf TTransportBase.write TTransportBase.flush Spy.transport].
  unfold Spy.record. cbn [Spy.inner Spy.calls]. rewrite Hx1.
  cbv beta iota. cbn [Spy.inner Spy.calls TSaslClientTransport.transport
                        TSaslClientTransport.sasl TSaslClientTransport.wbuf
                        TSaslClientTransport.rbuf].
  rewrite Hx2. rewrite <- app_assoc. reflexivity.
Qed.

(** X16.  The beginning of [open], the inner transport on record and a sink
    of bytes: the inner transport is asked whether it is open and is opened
    only if it is not; then the message of status [START] with the name of
    the mechanism is written and flushed, the capability processes no
    challenge, and the message of status [OK] with the response it gave is
    written and flushed.  These are all the calls made. *)
Theorem sasl_greeting
  {T : Type} `{Transport T} {C : Type} `{SASLClient C}
  (collected : T -> bytes -> Prop)
  (s : TSaslClientTransport.t (Spy.t T) C)
  (opened : bool) (x1 x2 : T) (sent token : bytes) (c1 : C) :
  byte_sink collected ->
  isOpen (Spy.inner (TSaslClientTransport.transport s)) = (Return opened, x1) ->
  (if opened then x2 = x1 else TTransportBase.open x1 = (Return tt, x2)) ->
  collected x2 sent ->
  process None (TSaslClientTransport.sasl s) = (Return token, c1) ->
  len (mechanism (TSaslClientTransport.sasl s)) <= 4294967295 ->
  len token <= 4294967295 ->
  exists s',
    TSaslClientTransport.greet s = (Return tt, s') /\
    Spy.calls (TSaslClientTransport.transport s')
      = Spy.calls (TSaslClientTransport.transport s)
          ++ Spy.IsOpen :: (if opened then [] else [Spy.Open])
          ++ [Spy.Write (PyBytes (sasl_msg TSaslClientTransport.START
                                    (mechanism (TSaslClientTransport.sasl s))));
              Spy.Flush;
              Spy.Write (PyBytes (sasl_msg TSaslClientTransport.OK token));
              Spy.Flush] /\
    collected (Spy.inner (TSaslClientTransport.transport s'))
      (sent ++ sasl_msg TSaslClientTransport.START
                 (mechanism (TSaslClientTransport.sasl s))
            ++ sasl_msg TSaslClientTransport.OK token) /\
    TSaslClientTransport.sasl s' = c1.
Proof.
  intros Hsink HisOpen Hopen Hc Hproc Hlen1 Hlen2.
  destruct s as [[log x] c wb rb].
  cbn [TSaslClientTransport.transport TSaslClientTransport.sasl Spy.inner Spy.calls] in *.
  assert (Hstart : 0 <= TSaslClientTransport.START <= 255)
    by (unfold TSaslClientTransport.START; lia).
  assert (Hok : 0 <= TSaslClientTransport.OK <= 255)
    by (unfold TSaslClientTransport.OK; lia).
  set (log2 := log ++ Spy.IsOpen :: (if opened then [] else [Spy.Open])).
  destruct (send_sasl_msg_recorded collected log2 x2 c wb rb TSaslClientTransport.START
              (mechanism c) sent Hsink Hc Hstart Hlen1) as (x3 & Hsend1 & Hc3).
  destruct (send_sasl_msg_recorded collected
              (log2 ++ [Spy.Write (PyBytes (sasl_msg TSaslClientTransport.START
                                              (mechanism c))); Spy.Flush])
              x3 c1 wb rb TSaslClientTransport.OK token _ Hsink Hc3 Hok Hlen2)
    as (x4 & Hsend2 & Hc4).
  assert (Hstep1 : TSaslClientTransport.on_transport TTransportBase.isOpen
                     (TSaslClientTransport.mk (Spy.mk log x) c wb rb)
                   = (Return opened,
                      TSaslClientTransport.mk (Spy.mk (log ++ [Spy.IsOpen]) x1) c wb rb)).
  { unfold TSaslClientTransport.on_transport, zoom.
    cbn [TSaslClientTransport.transport TSaslClientTransport.sasl
           TSaslClientTransport.wbuf TSaslClientTransport.rbuf
           TTransportBase.isOpen Spy.transport].
    unfold Spy.record. cbn [Spy.inner Spy.calls]. rewrite HisOpen. reflexivity. }
  assert (Hstep2 : (if negb opened
                    then TSaslClientTransport.on_transport TTransportBase.open
                    else ret tt)
                     (TSaslClientTransport.mk (Spy.mk (log ++ [Spy.IsOpen]) x1) c wb rb)
                   = (Return tt, TSaslClientTransport.mk (Spy.mk log2 x2) c wb rb)).
  { subst log2. destruct opened; cbn [negb].
    - subst x2. reflexivity.
    - unfold TSaslClientTransport.on_transport, zoom.
      cbn [TSaslClientTransport.transport TSaslClientTransport.sasl
             TSaslClientTransport.wbuf TSaslClientTransport.rbuf
             TTransportBase.open Spy.transport].
      unfold Spy.record. cbn [Spy.inner Spy.calls]. rewrite Hopen.
      rewrite <- app_assoc. reflexivity. }
  assert (Hstep4 : TSaslClientTransport.on_sasl (process None)
                     (TSaslClientTransport.mk
                        (Spy.mk (log2 ++ [Spy.Write (PyBytes
                                   (sasl_msg TSaslClientTransport.START (mechanism c)));
                                          Spy.Flush]) x3) c wb rb)
                   = (Return token,
                      TSaslClientTransport.mk
                        (Spy.mk (log2 ++ [Spy.Write (PyBytes
                                   (sasl_msg TSaslClientTransport.START (mechanism c)));
                                          Spy.Flush]) x3) c1 wb rb)).
  { unfold TSaslClientTransport.on_sasl, zoom.
    cbn [TSaslClientTransport.transport TSaslClientTransport.sasl
           TSaslClientTransport.wbuf TSaslClientTransport.rbuf].
    rewrite Hproc. reflexivity. }
  eexists. split.
  - unfold TSaslClientTransport.greet.
    rewrite (bind_return _ _ _ _ _ Hstep1), (bind_return _ _ _ _ _ Hstep2).
    unfold bind at 1. unfold gets at 1. cbn [TSaslClientTransport.sasl].
    rewrite (bind_return _ _ _ _ _ Hsend1), (bind_return _ _ _ _ _ Hstep4).
    exact Hsend2.
  - cbn [TSaslClientTransport.transport TSaslClientTransport.sasl Spy.inner Spy.calls].
    split; [subst log2; rewrite <- !app_assoc; reflexivity |].
    split; [rewrite <- app_assoc in Hc4; exact Hc4 | reflexivity].
Qed.

(** The inner transport already open: no [open] call. *)
Lemma sasl_greeting_witness :
  let x := TMemoryBuffer.mk (BufferIO.new None) in
  let s := TSaslClientTransport.init (Spy.mk [] x) (Fixture.mk_client 2) in
  exists s',
    TSaslClientTransport.greet s = (Return tt, s') /\
    Spy.calls (TSaslClientTransport.transport s')
      = Spy.calls (TSaslClientTransport.transport s)
          ++ Spy.IsOpen :: (if true then [] else [Spy.Open])
          ++ [Spy.Write (PyBytes (sasl_msg TSaslClientTransport.START
                                    (mechanism (TSaslClientTransport.sasl s))));
              Spy.Flush;
              Spy.Write (PyBytes (sasl_msg TSaslClientTransport.OK [x74]));
              Spy.Flush] /\
    Memory.collected (Spy.inner (TSaslClientTransport.transport s'))
      ([] ++ sasl_msg TSaslClientTransport.START
                 (mechanism (TSaslClientTransport.sasl s))
          ++ sasl_msg TSaslClientTransport.OK [x74]) /\
    TSaslClientTransport.sasl s' = Fixture.mk_client 1.
Proof.
  intros x s.
  apply (sasl_greeting Memory.collected s true x x [] [x74] (Fixture.mk_client 1)).
  - exact MemoryFacts.is_sink.
  - reflexivity.
  - reflexivity.
  - exact MemoryFacts.collected_init.
  - reflexivity.
  - vm_compute. discriminate.
  - vm_compute. discriminate.
Defined.

(** ** Data through the Security-Negotiated Transport *)

Section SaslData.
Context {T : Type} `{Transport T} {C : Type} `{SASLClient C}.
Import TSaslClientTransport.

(** [read] with nothing buffered, a frame next in the source: the frame is
    un-wrapped, becomes the read buffer, and the call is served from it. *)
Lemma sasl_read_next_frame (delivers : T -> bytes -> Prop) (s : t T C) sz
  encoded decoded c1 rest :
  byte_source delivers ->
  BufferIO.closed (rbuf s) = false ->
  served sz (pending (rbuf s)) = [] ->
  delivers (transport s) (frame encoded ++ rest) -> len encoded <= 2147483647 ->
  unwrap encoded (sasl s) = (Return decoded, c1) ->
  exists x',
    read sz s
      = (Return (served sz decoded),
         mk x' c1 (wbuf s) (BufferIO.mk decoded (length (served sz decoded)) false)) /\
    delivers x' rest.
Proof.
  intros Hsource Hopen Hnil Hd Hlen Hun.
  pose proof (BufferIO_read_run (rbuf s) sz Hopen) as Hr. rewrite Hnil in Hr.
  unfold read at 1, on_rbuf at 1.
  rewrite (bind_return _ _ _ _ _ (zoom_run rbuf _ _ s _ _ Hr)).
  cbn [len length Z.of_nat Z.eqb negb].
  destruct (sasl_read_frame_source delivers Hsource
              (mk (transport s) (sasl s) (wbuf s)
                 (BufferIO.mk (BufferIO.contents (rbuf s))
                    (BufferIO.position (rbuf s) + length (@nil byte)) false))
              encoded decoded c1 rest Hd Hlen Hun) as (x' & Hrf & Hd').
  rewrite (bind_return _ _ _ _ _ Hrf). unfold on_rbuf.
  rewrite (zoom_run rbuf _ _ (mk x' c1 _ (BufferIO.new (Some decoded))) _ _
             (BufferIO_read_run (BufferIO.new (Some decoded)) sz eq_refl)).
  rewrite pending_new. exists x'. split; [reflexivity | exact Hd'].
Qed.

End SaslData.

(** X17.  [read] of the Security-Negotiated Transport, the capability on
    record, with nothing buffered for the request and a frame of at most
    [2^31 - 1] bytes next in the source: the frame, and it only, is taken
    off the source; the capability's [unwrap] is called once, on the payload
    of the frame; the un-wrapped bytes become the read buffer, and the call
    is served from them, at most [sz] bytes for a request of [sz >= 0]
    bytes, what is left staying in the read buffer.  The write buffer is as
    it was. *)
Theorem sasl_read_unwraps_next_frame
  {T : Type} `{Transport T} {C : Type} `{SASLClient C}
  (delivers : T -> bytes -> Prop)
  (s : TSaslClientTransport.t T (SaslSpy.t C))
  (encoded decoded rest : bytes) (c1 : C) (sz : Z) :
  byte_source delivers ->
  BufferIO.closed (TSaslClientTransport.rbuf s) = false ->
  served sz (pending (TSaslClientTransport.rbuf s)) = [] ->
  delivers (TSaslClientTransport.transport s) (frame encoded ++ rest) ->
  len encoded <= 2147483647 ->
  unwrap encoded (SaslSpy.inner (TSaslClientTransport.sasl s)) = (Return decoded, c1) ->
  exists s',
    TSaslClientTransport.read sz s = (Return (served sz decoded), s') /\
    delivers (TSaslClientTransport.transport s') rest /\
    TSaslClientTransport.sasl s'
      = SaslSpy.mk (SaslSpy.calls (TSaslClientTransport.sasl s) ++ [SaslSpy.Unwrap encoded])
          c1 /\
    pending (TSaslClientTransport.rbuf s')
      = skipn (length (served sz decoded)) decoded /\
    TSaslClientTransport.wbuf s' = TSaslClientTransport.wbuf s.
Proof.
  intros Hsource Hopen Hnil Hd Hlen Hun.
  assert (Hun' : unwrap encoded (TSaslClientTransport.sasl s)
                 = (Return decoded,
                    SaslSpy.mk (SaslSpy.calls (TSaslClientTransport.sasl s)
                                  ++ [SaslSpy.Unwrap encoded]) c1)).
  { cbn [unwrap SaslSpy.client]. unfold SaslSpy.record. rewrite Hun. reflexivity. }
  destruct (sasl_read_next_frame delivers s sz encoded decoded _ rest Hsource Hopen
              Hnil Hd Hlen Hun') as (x' & Hread & Hd').
  eexists. split; [exact Hread |]. split; [exact Hd' |].
  split; [reflexivity |]. split; reflexivity.
Qed.

Lemma sasl_read_unwraps_next_frame_witness :
  let decoded := [x70; x69; x6e; x67] in
  let encoded := x2a :: decoded in
  let s := TSaslClientTransport.init
             (TMemoryBuffer.mk (BufferIO.new (Some (frame encoded ++ [x21]))))
             (SaslSpy.mk [] (Fixture.mk_client 0)) in
  exists s',
    TSaslClientTransport.read 3 s = (Return (served 3 decoded), s') /\
    Memory.delivers (TSaslClientTransport.transport s') [x21] /\
    TSaslClientTransport.sasl s'
      = SaslSpy.mk (SaslSpy.calls (TSaslClientTransport.sasl s) ++ [SaslSpy.Unwrap encoded])
          (Fixture.mk_client 0) /\
    pending (TSaslClientTransport.rbuf s')
      = skipn (length (served 3 decoded)) decoded /\
    TSaslClientTransport.wbuf s' = TSaslClientTransport.wbuf s.
Proof.
  intros decoded encoded s.
  apply (sasl_read_unwraps_next_frame Memory.delivers s encoded decoded [x21]
           (Fixture.mk_client 0) 3).
  - exact MemoryFacts.is_source.
  - reflexivity.
  - reflexivity.
  - apply MemoryFacts.delivers_init.
  - vm_compute. discriminate.
  - reflexivity.
Defined.

(** X18.  [close] of the Security-Negotiated Transport, the inner transport
    and the capability on record: the capability is disposed of first, by
    one [dispose] call; the inner transport is closed, by one [close] call,
    only if that call returned.  When [dispose] raises, [close] raises the
    same and the inner transport has had no call: it stays open. *)
Theorem sasl_close_disposes_first
  {T : Type} `{Transport T} {C : Type} `{SASLClient C}
  (s : TSaslClientTransport.t (Spy.t T) (SaslSpy.t C)) :
  let s' := snd (TSaslClientTransport.close s) in
  SaslSpy.calls (TSaslClientTransport.sasl s')
    = SaslSpy.calls (TSaslClientTransport.sasl s) ++ [SaslSpy.Dispose] /\
  match fst (dispose (SaslSpy.inner (TSaslClientTransport.sasl s))) with
  | Return _ =>
      Spy.calls (TSaslClientTransport.transport s')
        = Spy.calls (TSaslClientTransport.transport s) ++ [Spy.Close]
  | failure =>
      fst (TSaslClientTransport.close s) = failure /\
      TSaslClientTransport.transport s' = TSaslClientTransport.transport s
  end.
Proof.
  destruct s as [[log x] [clog c] wb rb].
  unfold TSaslClientTransport.close, bind, TSaslClientTransport.on_sasl,
    TSaslClientTransport.on_transport, zoom.
  cbn [TSaslClientTransport.transport TSaslClientTransport.sasl TSaslClientTransport.wbuf
         TSaslClientTransport.rbuf dispose SaslSpy.client TTransportBase.close Spy.transport].
  unfold SaslSpy.record, Spy.record. cbn [SaslSpy.inner SaslSpy.calls Spy.inner Spy.calls].
  destruct (dispose c) as [[[] | e |] c1]; cbn.
  - destruct (TTransportBase.close x) as [r x1]. cbn. split; reflexivity.
  - repeat split.
  - repeat split.
Qed.

(** ** What [readAll] asks of the transport *)

Lemma shrinking_le ks : forall b b', b <= b' -> shrinking b ks -> shrinking b' ks.
Proof.
  destruct ks as [| k ks]; intros b b' Hle; cbn [shrinking]; [trivial |].
  intros [Hk Hrest]. split; [lia | exact Hrest].
Qed.

Lemma shrinking_length ks : forall b, shrinking b ks -> (length ks <= Z.to_nat b)%nat.
Proof.
  induction ks as [| k ks IH]; intros b; cbn [shrinking length]; [lia |].
  intros [Hk Hrest]. specialize (IH _ Hrest). lia.
Qed.

Section ReadAllCalls.
Context {T : Type} `{Transport T}.

Lemma readAll_loop_reads fuel : forall sz have buff (s : Spy.t T),
  exists ks,
    Spy.calls (snd (readAll_loop fuel sz have buff s))
      = Spy.calls s ++ map Spy.Read ks /\
    shrinking (sz - have) ks /\
    (sz <= have /\ ks = [] \/
     have < sz /\ (fuel = O \/ hd_error ks = Some (sz - have))).
Proof.
  induction fuel as [| fuel IH]; intros sz have buff s;
    rewrite readAll_loop_unfold; destruct (Z.ltb_spec have sz) as [Hlt | Hge].
  - exists []. cbn. rewrite app_nil_r. repeat split. right. split; [lia | now left].
  - exists []. cbn. rewrite app_nil_r. repeat split. left. split; [lia | reflexivity].
  - unfold bind at 1.
    change (TTransportBase.read (sz - have) s)
      with (Spy.record (Spy.Read (sz - have)) (TTransportBase.read (sz - have)) s).
    unfold Spy.record.
    destruct (TTransportBase.read (sz - have) (Spy.inner s)) as [[chunk | e |] x].
    + destruct (Z.eqb_spec (len chunk) 0) as [Hz | Hnz].
      * exists [sz - have]. cbn. repeat split; try lia. right. split; [lia | now right].
      * destruct (IH sz (have + len chunk) (buff ++ chunk)
                    (Spy.mk (Spy.calls s ++ [Spy.Read (sz - have)]) x))
          as (ks & Hcalls & Hshr & _).
        exists ((sz - have) :: ks). rewrite Hcalls. cbn [Spy.calls map shrinking hd_error].
        rewrite <- app_assoc. split; [reflexivity |]. split.
        -- split; [lia |]. pose proof (len_nonneg chunk).
           apply (shrinking_le ks (sz - (have + len chunk))); [lia | exact Hshr].
        -- right. split; [lia | now right].
    + exists [sz - have]. cbn. repeat split; try lia. right. split; [lia | now right].
    + exists [sz - have]. cbn. repeat split; try lia. right. split; [lia | now right].
  - exists []. cbn. rewrite app_nil_r. repeat split. left. split; [lia | reflexivity].
Qed.

End ReadAllCalls.

(** X19.  The calls [readAll(sz)] makes on a transport, whatever the
    transport answers: [read] calls only; none when [sz <= 0]; otherwise the
    first asks for [sz] bytes, every call asks for at least one byte and for
    fewer than the call before it, and there are at most [sz] calls. *)
Theorem readAll_only_reads {T : Type} `{Transport T} (sz : Z) (s : Spy.t T) :
  exists ks,
    Spy.calls (snd (readAll sz s)) = Spy.calls s ++ map Spy.Read ks /\
    shrinking sz ks /\
    (sz <= 0 /\ ks = [] \/ 0 < sz /\ hd_error ks = Some sz) /\
    (length ks <= Z.to_nat sz)%nat.
Proof.
  destruct (readAll_loop_reads (Z.to_nat sz) sz 0 [] s) as (ks & Hcalls & Hshr & Hhd).
  rewrite Z.sub_0_r in *. exists ks. split; [exact Hcalls |]. split; [exact Hshr |].
  split; [| exact (shrinking_length ks sz Hshr)].
  destruct Hhd as [[Hle ->] | [Hlt [Hfuel | Hhd]]].
  - left. split; [exact Hle | reflexivity].
  - lia.
  - right. split; assumption.
Qed.

(** ** A write the buffer refuses *)


(** ** Factories *)

(** X21.  A transport fresh from a factory, flushed before anything is
    written to it, the inner transport on record.  The Buffered one writes
    the empty byte string to the inner transport, the Framed one the empty
    frame, four zero bytes; each flushes the inner transport after it when
    that write returned, and makes no other call.  The base factory hands
    back the transport itself: its [flush] is the only call. *)
Theorem factory_fresh_flush {T : Type} `{Transport T} (x : Spy.t T) :
  let sent (buf : bytes) :=
    Spy.calls x ++ Spy.Write (PyBytes buf)
      :: match fst (TTransportBase.write (PyBytes buf) (Spy.inner x)) with
         | Return _ => [Spy.Flush]
         | _ => []
         end in
  Spy.calls (TBufferedTransport.trans
               (snd (TTransportBase.flush (TBufferedTransportFactory.getTransport x))))
    = sent [] /\
  Spy.calls (TFramedTransport.trans
               (snd (TTransportBase.flush (TFramedTransportFactory.getTransport x))))
    = sent [x00; x00; x00; x00] /\
  Spy.calls (snd (TTransportBase.flush (TTransportFactoryBase.getTransport x)))
    = Spy.calls x ++ [Spy.Flush].
Proof.
  intros sent. subst sent. destruct x as [log x]. cbn [Spy.calls Spy.inner].
  split; [| split].
  - unfold TBufferedTransportFactory.getTransport, TBufferedTransport.init.
    change (TTransportBase.flush (T:=TBufferedTransport.t (Spy.t T)))
      with (TBufferedTransport.flush (T:=Spy.t T)).
    rewrite (buffered_flush_run
               (TBufferedTransport.mk (Spy.mk log x) (BufferIO.new None)
                  (BufferIO.new (Some [])) TBufferedTransport.DEFAULT_BUFFER)
               [] accumulated_new).
    cbn [TBufferedTransport.trans TBufferedTransport.rbuf TBufferedTransport.rbuf_size
           TTransportBase.write TTransportBase.flush Spy.transport].
    unfold Spy.record. cbn [Spy.inner Spy.calls].
    destruct (TTransportBase.write (PyBytes []) x) as [[[] | e |] x1]; cbn; try reflexivity.
    destruct (TTransportBase.flush x1) as [r x2]. cbn. rewrite <- app_assoc. reflexivity.
  - unfold TFramedTransportFactory.getTransport, TFramedTransport.init.
    change (TTransportBase.flush (T:=TFramedTransport.t (Spy.t T)))
      with (TFramedTransport.flush (T:=Spy.t T)).
    unfold TFramedTransport.flush, bind, TFramedTransport.on_wbuf, TFramedTransport.on_trans,
      TFramedTransport.set_wbuf, modify, zoom, pure.
    cbn -[TTransportBase.write TTransportBase.flush].
    cbn [TTransportBase.write TTransportBase.flush Spy.transport].
    unfold Spy.record. cbn [Spy.inner Spy.calls].
    destruct (TTransportBase.write (PyBytes [x00; x00; x00; x00]) x) as [[[] | e |] x1];
      cbn; try reflexivity.
    destruct (TTransportBase.flush x1) as [r x2]. cbn. rewrite <- app_assoc. reflexivity.
  - unfold TTransportFactoryBase.getTransport.
    cbn [TTransportBase.flush Spy.transport]. unfold Spy.record. cbn [Spy.inner Spy.calls].
    destruct (TTransportBase.flush x) as [r x2]. reflexivity.
Qed.

(** ** Closing without flushing *)

(** X22.  [close] does not flush: after [write] calls on a Buffered or a
    Framed Transport, its write buffer empty or holding earlier writes,
    [close] makes one call on the inner transport, [close]; the bytes
    written stay in the write buffer and never reach the inner transport. *)
Theorem close_does_not_flush {T : Type} `{Transport T} (bufs : list bytes)
  (b : TBufferedTransport.t (Spy.t T)) (f : TFramedTransport.t (Spy.t T))
  (data : bytes) :
  accumulated (TBufferedTransport.wbuf b) data ->
  accumulated (TFramedTransport.wbuf f) data ->
  let b' := snd ((write_each bufs ;; TTransportBase.close) b) in
  let f' := snd ((write_each bufs ;; TTransportBase.close) f) in
  Spy.calls (TBufferedTransport.trans b')
    = Spy.calls (TBufferedTransport.trans b) ++ [Spy.Close] /\
  accumulated (TBufferedTransport.wbuf b') (data ++ concat bufs) /\
  Spy.calls (TFramedTransport.trans f')
    = Spy.calls (TFramedTransport.trans f) ++ [Spy.Close] /\
  accumulated (TFramedTransport.wbuf f') (data ++ concat bufs).
Proof.
  intros Hb Hf b' f'. subst b' f'.
  destruct (buffered_write_each bufs b data Hb) as (wb & Hwb & Haccb).
  destruct (framed_write_each bufs f data Hf) as (wf & Hwf & Haccf).
  rewrite (bind_return _ _ _ _ _ Hwb), (bind_return _ _ _ _ _ Hwf).
  cbn [TTransportBase.close TBufferedTransport.transport TFramedTransport.transport].
  unfold TBufferedTransport.close, TBufferedTransport.on_trans,
    TFramedTransport.close, TFramedTransport.on_trans, zoom.
  cbn [TBufferedTransport.trans TFramedTransport.trans TTransportBase.close Spy.transport].
  unfold Spy.record.
  destruct (TTransportBase.close (Spy.inner (TBufferedTransport.trans b))) as [rb xb].
  destruct (TTransportBase.close (Spy.inner (TFramedTransport.trans f))) as [rf xf].
  cbn. repeat split; assumption.
Qed.

Lemma close_does_not_flush_witness :
  let x := Spy.mk [] (TMemoryBuffer.mk (BufferIO.new None)) in
  let b := TBufferedTransport.init x 4096 in
  let f := TFramedTransport.init x in
  let bufs := [[x68; x65]; [x6c; x6c; x6f]] in
  let b' := snd ((write_each bufs ;; TTransportBase.close) b) in
  let f' := snd ((write_each bufs ;; TTransportBase.close) f) in
  Spy.calls (TBufferedTransport.trans b')
    = Spy.calls (TBufferedTransport.trans b) ++ [Spy.Close] /\
  accumulated (TBufferedTransport.wbuf b') ([] ++ concat bufs) /\
  Spy.calls (TFramedTransport.trans f')
    = Spy.calls (TFramedTransport.trans f) ++ [Spy.Close] /\
  accumulated (TFramedTransport.wbuf f') ([] ++ concat bufs).
Proof.
  intros x b f bufs.
  apply (close_does_not_flush bufs b f []); reflexivity.
Defined.
